(** * rf-ace: the in-memory feature table ([treedata.cpp])

    A shallow embedding of [Feature] and [Treedata] from
    [src/treedata.cpp], and the properties of the missing-value
    filters, the split routines, the contrast features and the bootstrap
    sampler.

    Conventions of the embedding.
    - [std::vector<T>] is [list T]; [v[i]] outside the vector is undefined
      behaviour in C++ and is the outcome [Undefined] here.
    - [size_t] values that only index containers are [nat]; the ones the
      code computes with ([minSamples], the key of [getHash], the best split
      index) are [N], with the 64-bit wrap-around written out.
    - [num_t] (a C++ [double]) is kept abstract in the class [NumT]: the code
      under study only tests values with [datadefs::isNAN], compares them
      and feeds them to the impurity formulas.
    - [assert(c)] that fails is the outcome [AssertFail]; [exit(1)] after a
      message on [cerr] is the outcome [Exit].
    - functions of the repository that live outside [treedata.cpp]
      ([utils::], [math::], [datadefs::]) are fields of the class [Utils],
      or are modelled from the specification where a claim needs to run
      them; each such definition says so. *)

From Stdlib Require Import Ascii.
From stdpp Require Import base option list strings gmap sorting pretty.

Set Default Proof Using "Type".

(** ** Outcomes of a call *)

Inductive result (A : Type) : Type :=
  | Ok (a : A)
  | Exit (msg : string)
  | AssertFail (cond : string)
  | Undefined.
Arguments Ok {A} a.
Arguments Exit {A} msg.
Arguments AssertFail {A} cond.
Arguments Undefined {A}.

#[global] Instance result_ret : MRet result := λ A a, Ok a.
#[global] Instance result_bind : MBind result := λ A B f r,
  match r with
  | Ok a => f a
  | Exit m => Exit m
  | AssertFail c => AssertFail c
  | Undefined => Undefined
  end.

(** [v[i]] on a vector. *)
Definition at_ {A} (v : list A) (i : nat) : result A :=
  match v !! i with
  | Some x => Ok x
  | None => Undefined
  end.

(** [assert(c)]. *)
Definition assert (c : bool) (text : string) : result unit :=
  if c then Ok tt else AssertFail text.

(** [for (size_t i = start; i < start + count; ++i) body], threading the
    variables the body assigns. *)
Fixpoint for_range {St} (start count : nat) (body : nat → St → result St)
    (s : St) : result St :=
  match count with
  | 0 => Ok s
  | S count' => s' ← body start s; for_range (S start) count' body s'
  end.

(** [for (it = m.begin(); it != m.end(); ++it) body] over the entries of a
    container, in its order. *)
Fixpoint for_each {A St} (l : list A) (body : A → St → result St) (s : St)
    : result St :=
  match l with
  | [] => Ok s
  | x :: l' => s' ← body x s; for_each l' body s'
  end.

(** ** Machine integers *)

Definition size_t_modulus : N := 2 ^ 64.

(** [a * b] on [size_t]. *)
Definition size_t_mul (a b : N) : N := ((a * b) mod size_t_modulus)%N.

(** [v.size()]. *)
Definition size {A} (v : list A) : N := N.of_nat (length v).

Definition uint32_t := N.

(** ** Numbers *)

(** [num_t] and the operations of [double] the code uses. *)
Class NumT := {
  num_t : Type;
  (** [datadefs::isNAN] *)
  isNAN : num_t → bool;
  (** [a < b] *)
  num_lt : num_t → num_t → bool;
  (** the literals [0.0] and [1.0] *)
  num_zero : num_t;
  num_one : num_t;
  num_add : num_t → num_t → num_t;
  num_sub : num_t → num_t → num_t;
  num_mul : num_t → num_t → num_t;
  num_div : num_t → num_t → num_t;
  (** the conversion of a [size_t] operand in mixed arithmetic *)
  num_of_size : N → num_t;
  (** [static_cast<size_t>(floor(x))] *)
  floor_to_size : num_t → N;
}.

(** What the proofs need of [double]: away from NaN, [<] is a strict weak
    order, [0.0 < 1.0], and [floor(1.0 * n)] gives [n] back for the counts
    a vector can have (below [2^53] the conversion to [double] is exact). *)
Class NumLaws `{NumT} : Prop := {
  num_lt_asym a b : num_lt a b = true → num_lt b a = false;
  num_le_trans a b c :
    isNAN a = false → isNAN b = false → isNAN c = false →
    num_lt b a = false → num_lt c b = false → num_lt c a = false;
  num_zero_lt_one : num_lt num_zero num_one = true;
  floor_one_mul n :
    (n < 2 ^ 53)%N → floor_to_size (num_mul num_one (num_of_size n)) = n;
}.

(** ** Collaborators outside [treedata.cpp] *)

(** A [map<num_t,size_t>] of category frequencies. *)
Definition freq_map `{NumT} : Type := list (num_t * N).

(** The functions and constants of [utils.hpp], [math.hpp], [datadefs.hpp]
    and [distributions.hpp] that [treedata.cpp] calls and that the
    properties below do not have to run. A reference argument that the
    callee assigns is returned next to the result. *)
Class Utils `{NumT} := {
  (** [datadefs::MAX_IDX] *)
  MAX_IDX : N;
  (** [utils::strv2numv(raw, data)] *)
  strv2numv : list string → list num_t;
  (** [utils::strv2catv(raw, data, mapping, backMapping)] *)
  strv2catv :
    list string → list num_t * gmap string num_t * list (num_t * string);
  (** [utils::hashText] *)
  hashText : string → list uint32_t;
  (** [distributions::Random] and [random->integer()] *)
  Random : Type;
  random_integer : Random → N * Random;
  (** [utils::permute(data, random)] *)
  permute : ∀ A : Type, list A → Random → list A * Random;
  (** [utils::numericalFeatureSplitsNumericalTarget(tv, fv, minSamples, splitIdx)] *)
  numericalFeatureSplitsNumericalTarget :
    list num_t → list num_t → N → N → num_t * N;
  (** [utils::numericalFeatureSplitsCategoricalTarget(tv, fv, minSamples, splitIdx)] *)
  numericalFeatureSplitsCategoricalTarget :
    list num_t → list num_t → N → N → num_t * N;
  (** [math::deltaImpurity_regr(mu_tot, n_tot, mu_left, n_left, mu_right, n_right)] *)
  deltaImpurity_regr : num_t → N → num_t → N → num_t → N → num_t;
  (** [math::deltaImpurity_class(sf_tot, n_tot, sf_left, n_left, sf_right, n_right)] *)
  deltaImpurity_class : N → N → N → N → N → N → num_t;
  (** [math::incrementSquaredFrequency(x, freq, sf)] *)
  incrementSquaredFrequency : num_t → freq_map → N → freq_map * N;
}.
Arguments permute {_ _ A} _ _.

(** [utils::permute] reorders its argument and nothing else. *)
Class PermuteLaw `{Utils} : Prop :=
  permute_Permutation : ∀ A (l : list A) (r : Random), (permute l r).1 ≡ₚ l.

(** ** Feature *)

Module Feature.

Inductive Type_ := UNKNOWN | NUM | CAT | TXT.

#[global] Instance Type_eq_dec : EqDecision Type_.
Proof. solve_decision. Defined.

Section Feature.
Context `{Utils}.

(** The members of [class Feature]. An [unordered_set<uint32_t>] is the
    list of its elements in iteration order. *)
Record t := mk {
  type_ : Type_;
  name : string;
  data : list num_t;
  mapping : gmap string num_t;
  backMapping : list (num_t * string);
  hashSet : list (list uint32_t);
}.

(** [Feature::Feature()] *)
Definition default : t :=
  {| type_ := UNKNOWN; name := EmptyString; data := []; mapping := ∅;
     backMapping := []; hashSet := [] |}.

(** [Feature::Feature(const vector<num_t>&, const string&)] *)
Definition ofNum (newData : list num_t) (newName : string) : t :=
  {| type_ := NUM; name := newName; data := newData; mapping := ∅;
     backMapping := []; hashSet := [] |}.

(** [Feature::Feature(const vector<string>&, const string&, bool doHash)];
    [doHash] is [false] where the call leaves it out. *)
Definition ofStrings (newStringData : list string) (newName : string)
    (doHash : bool) : t :=
  if doHash then
    {| type_ := TXT; name := newName; data := []; mapping := ∅;
       backMapping := []; hashSet := hashText <$> newStringData |}
  else
    let '(d, m, b) := strv2catv newStringData in
    {| type_ := CAT; name := newName; data := d; mapping := m;
       backMapping := b; hashSet := [] |}.

Definition isNumerical (f : t) : bool := bool_decide (type_ f = NUM).
Definition isCategorical (f : t) : bool := bool_decide (type_ f = CAT).
Definition isTextual (f : t) : bool := bool_decide (type_ f = TXT).

(** [Feature::getHash]: the element [integer % size] steps into the
    iteration order of the sample's set. *)
Definition getHash (f : t) (sampleIdx : nat) (integer : N) : result uint32_t :=
  _ ← assert (isTextual f) "type_ == Feature::Type::TXT";
  hs ← at_ (hashSet f) sampleIdx;
  if decide (size hs = 0%N) then Undefined
  else
    let pos := (integer mod size hs)%N in
    at_ hs (N.to_nat pos).

(** [Feature::hasHash] *)
Definition hasHash (f : t) (sampleIdx : nat) (hashIdx : uint32_t) : result bool :=
  hs ← at_ (hashSet f) sampleIdx;
  mret (bool_decide (hashIdx ∈ hs)).

End Feature.
End Feature.

(** ** Library algorithms and modelled helpers *)

(** [std::sort] on a [vector<size_t>]. *)
Definition std_sort (v : list nat) : list nat := merge_sort (≤) v.

(** [std::set_difference] on two sorted ranges of [size_t]: the elements of
    the first range are copied while they are smaller than the head of the
    second; equal heads are dropped from both. *)
Fixpoint set_difference (l1 : list nat) : list nat → list nat :=
  match l1 with
  | [] => λ _, []
  | x :: l1' =>
      fix against (l2 : list nat) : list nat :=
        match l2 with
        | [] => x :: l1'
        | y :: l2' =>
            if decide (x < y) then x :: set_difference l1' l2
            else if decide (y < x) then against l2'
            else set_difference l1' l2'
        end
  end.

(** Modelled from the spec: [utils::range(n)], missing from the sources,
    is "the full sample range", the indices [0 .. n-1] in order. *)
Definition range (n : nat) : list nat := seq 0 n.

Section FilterSort.
Context `{NumT}.

(** The comparison of the sort, on the values of the pairs. *)
Definition before (isIncreasingOrder : bool) (a b : num_t * nat) : bool :=
  if isIncreasingOrder then num_lt a.1 b.1 else num_lt b.1 a.1.

(** Stable insertion: [x] goes in front of the first element that is not
    before it. *)
Fixpoint insert_stable (isIncreasingOrder : bool) (x : num_t * nat)
    (l : list (num_t * nat)) : list (num_t * nat) :=
  match l with
  | [] => [x]
  | y :: l' =>
      if before isIncreasingOrder y x
      then y :: insert_stable isIncreasingOrder x l'
      else x :: y :: l'
  end.

Definition sort_stable (isIncreasingOrder : bool) (l : list (num_t * nat))
    : list (num_t * nat) :=
  foldr (insert_stable isIncreasingOrder) [] l.

(** The values of [data] that are not missing, each with its position. *)
Fixpoint real_pairs (start : nat) (data : list num_t) : list (num_t * nat) :=
  match data with
  | [] => []
  | v :: data' =>
      if isNAN v then real_pairs (S start) data'
      else (v, start) :: real_pairs (S start) data'
  end.

(** Modelled from the spec: [utils::filterSort(isIncreasingOrder, data,
    refIcs)], missing from the sources. The spec has the split "filter ...
    for missing values, then sort ascending by feature value (stable with
    respect to original sample order among ties)", carrying the other
    vectors along "in the same permutation": the missing values are
    dropped from [data], the rest is sorted, stably, and [refIcs] receives
    the position each kept value had in [data]. *)
Definition filterSort (isIncreasingOrder : bool) (data : list num_t)
    : list num_t * list nat :=
  let sorted := sort_stable isIncreasingOrder (real_pairs 0 data) in
  (sorted.*1, sorted.*2).

End FilterSort.

(** Further collaborators, used by the parts of [treedata.cpp] that decode
    values and split on categorical features. A [cat_map] is a
    [map<num_t,vector<size_t> >], the list of its entries in key order. *)
Definition cat_map `{NumT} : Type := list (num_t * list nat).

(** [s.insert(x)] on a [set<num_t>], the list of its elements in order:
    [x] goes in front of the first element above it, unless an element
    that is neither below nor above [x] is met first. *)
Fixpoint set_insert `{NumT} (x : num_t) (s : list num_t) : list num_t :=
  match s with
  | [] => [x]
  | y :: s' =>
      if num_lt x y then x :: y :: s'
      else if num_lt y x then y :: set_insert x s'
      else y :: s'
  end.

Class MoreUtils `{Utils} := {
  (** [datadefs::STR_NAN] *)
  STR_NAN : string;
  (** [datadefs::EPS] *)
  EPS : num_t;
  (** [fabs] *)
  fabs : num_t → num_t;
  (** [utils::num2str] *)
  num2str : num_t → string;
  (** [datadefs::toUpperCase] *)
  toUpperCase : string → string;
  (** [utils::categoricalFeatureSplitsNumericalTarget(tv, fv, minSamples,
      fmap_left, fmap_right)] *)
  categoricalFeatureSplitsNumericalTarget :
    list num_t → list num_t → N → cat_map → cat_map → num_t * cat_map * cat_map;
  (** [utils::categoricalFeatureSplitsCategoricalTarget(tv, fv, minSamples,
      fmap_left, fmap_right)] *)
  categoricalFeatureSplitsCategoricalTarget :
    list num_t → list num_t → N → cat_map → cat_map → num_t * cat_map * cat_map;
}.

(** ** String streams

    A [stringstream] that is read from: the characters not yet read, and
    the two state bits the code depends on. *)
Record stream : Type := mk_stream {
  unread : string;
  eofbit : bool;
  failbit : bool;
}.

(** [stringstream ss(str)] *)
Definition stream_of (str : string) : stream := mk_stream str false false.

(** The conversion of a stream to [bool]: [!fail()]. *)
Definition stream_good (ss : stream) : bool := negb (failbit ss).

(** The extraction of [std::getline]: the characters in front of the first
    [delim], the characters behind it, and whether the end of the input
    was reached instead of a [delim]. *)
Fixpoint scan (delim : Ascii.ascii) (s : string) : string * string * bool :=
  match s with
  | EmptyString => (EmptyString, EmptyString, true)
  | String c s' =>
      if decide (c = delim) then (EmptyString, s', false)
      else let '(tok, r, e) := scan delim s' in (String c tok, r, e)
  end.

(** [std::getline(ss, str, delim)]: a stream that is at its end or has
    failed fails, and [str] is not touched; otherwise [str] is erased and
    receives the characters up to the next [delim], which is read and
    dropped; reaching the end sets [eofbit], and reading nothing at all,
    not even a [delim], sets [failbit]. *)
Definition getline (ss : stream) (str : string) (delim : Ascii.ascii)
    : stream * string :=
  if eofbit ss || failbit ss then (mk_stream (unread ss) (eofbit ss) true, str)
  else
    let '(tok, r, e) := scan delim (unread ss) in
    let nothing := e && bool_decide (tok = EmptyString) in
    (mk_stream r e nothing, tok).

(** ** Treedata *)

(** [v[i] = x] on a vector. *)
Definition set_at {A} (v : list A) (i : nat) (x : A) : result (list A) :=
  if decide (i < length v) then Ok (<[i:=x]> v) else Undefined.

Module Treedata.
Section Treedata.
Context `{Utils}.

(** The members of [class Treedata]; [name2idx_] is an
    [unordered_map<string,size_t>]. *)
Record t := mk {
  useContrasts_ : bool;
  features_ : list Feature.t;
  sampleHeaders_ : list string;
  name2idx_ : gmap string nat;
}.

Definition with_features (td : t) (fs : list Feature.t) : t :=
  {| useContrasts_ := useContrasts_ td; features_ := fs;
     sampleHeaders_ := sampleHeaders_ td; name2idx_ := name2idx_ td |}.

Definition with_name (f : Feature.t) (n : string) : Feature.t :=
  {| Feature.type_ := Feature.type_ f; Feature.name := n;
     Feature.data := Feature.data f; Feature.mapping := Feature.mapping f;
     Feature.backMapping := Feature.backMapping f;
     Feature.hashSet := Feature.hashSet f |}.


(** One turn of the loop of [Treedata::createContrasts], on [features_]
    and [name2idx_]. *)
Definition createContrasts_body (nFeatures : nat) (i : nat)
    (s : list Feature.t * gmap string nat)
    : result (list Feature.t * gmap string nat) :=
  let '(fs, n2i) := s in
  src ← at_ fs (i - nFeatures);
  fs ← set_at fs i src;
  f ← at_ fs i;
  let f := with_name f (Feature.name f +:+ "_CONTRAST") in
  fs ← set_at fs i f;
  mret (fs, <[Feature.name f := i]> n2i).

(** [Treedata::createContrasts] *)
Definition createContrasts (td : t) : result t :=
  let nFeatures := length (features_ td) in
  let fs := resize (2 * nFeatures) Feature.default (features_ td) in
  '(fs, n2i) ← for_range nFeatures nFeatures (createContrasts_body nFeatures)
                 (fs, name2idx_ td);
  mret {| useContrasts_ := useContrasts_ td; features_ := fs;
          sampleHeaders_ := sampleHeaders_ td; name2idx_ := n2i |}.

(** [Treedata::nFeatures] *)
Definition nFeatures (td : t) : nat :=
  if useContrasts_ td then length (features_ td) / 2
  else length (features_ td).

(** [Treedata::nSamples] *)
Definition nSamples (td : t) : nat := length (sampleHeaders_ td).

(** One turn of the loop of the constructor from features: the sample
    count of the feature is checked, then its name is entered. *)
Definition ofFeatures_body (features : list Feature.t) (nSamples : nat)
    (featureIdx : nat) (n2i : gmap string nat) : result (gmap string nat) :=
  f ← at_ features featureIdx;
  _ ← assert (bool_decide (length (Feature.data f) = nSamples))
        "features_[featureIdx].data.size() == nSamples";
  mret (<[Feature.name f := featureIdx]> n2i).

(** [Treedata::Treedata(const vector<Feature>&, const bool useContrasts,
    const vector<string>& sampleHeaders)] *)
Definition ofFeatures (features : list Feature.t) (useContrasts : bool)
    (sampleHeaders : list string) : result t :=
  let nFeatures := length features in
  _ ← assert (bool_decide (0 < nFeatures)) "nFeatures > 0";
  f0 ← at_ features 0;
  let nSamples := length (Feature.data f0) in
  n2i ← for_range 0 nFeatures (ofFeatures_body features nSamples) ∅;
  _ ← assert (bool_decide (0 < nSamples)) "nSamples > 0";
  let sampleHeaders :=
    if decide (length sampleHeaders = 0)
    then resize nSamples "NO_SAMPLE_ID" sampleHeaders
    else sampleHeaders in
  _ ← assert (bool_decide (length sampleHeaders = nSamples))
        "sampleHeaders_.size() == nSamples";
  let td := {| useContrasts_ := useContrasts; features_ := features;
               sampleHeaders_ := sampleHeaders; name2idx_ := n2i |} in
  if useContrasts then createContrasts td else mret td.

(** One turn of the loop of the constructor from a file, over the raw
    matrix, the headers and the types the reader returned. *)
Definition ofFile_body (rawMatrix : list (list string))
    (featureHeaders : list string) (featureTypes : list Feature.Type_)
    (i : nat) (s : list Feature.t * gmap string nat)
    : result (list Feature.t * gmap string nat) :=
  let '(fs, n2i) := s in
  h ← at_ featureHeaders i;
  if decide (is_Some (n2i !! h)) then
    Exit ("Duplicate feature header '" +:+ h +:+ "' found!")
  else
    let n2i := <[h := i]> n2i in
    ty ← at_ featureTypes i;
    match ty with
    | Feature.NUM =>
        raw ← at_ rawMatrix i;
        fs ← set_at fs i (Feature.ofNum (strv2numv raw) h);
        mret (fs, n2i)
    | Feature.CAT =>
        raw ← at_ rawMatrix i;
        fs ← set_at fs i (Feature.ofStrings raw h false);
        mret (fs, n2i)
    | Feature.TXT =>
        raw ← at_ rawMatrix i;
        fs ← set_at fs i (Feature.ofStrings raw h true);
        mret (fs, n2i)
    | Feature.UNKNOWN =>
        Exit ("ERROR: unknown feature type for feature with header '"
              +:+ h +:+ "'")
    end.

(** [Treedata::Treedata(string fileName, ...)] from the point where
    [readAFM] or [readARFF] has returned [rawMatrix], [featureHeaders],
    [featureTypes] and the sample headers. *)
Definition ofFile (rawMatrix : list (list string))
    (featureHeaders : list string) (featureTypes : list Feature.Type_)
    (sampleHeaders : list string) (useContrasts : bool) : result t :=
  let nFeatures := length featureHeaders in
  let fs := resize nFeatures Feature.default [] in
  '(fs, n2i) ← for_range 0 nFeatures
                 (ofFile_body rawMatrix featureHeaders featureTypes) (fs, ∅);
  let td := {| useContrasts_ := useContrasts; features_ := fs;
               sampleHeaders_ := sampleHeaders; name2idx_ := n2i |} in
  if useContrasts then createContrasts td else mret td.

(** [Treedata::isFeatureNumerical] *)
Definition isFeatureNumerical (td : t) (featureIdx : nat) : result bool :=
  f ← at_ (features_ td) featureIdx; mret (Feature.isNumerical f).

(** [features_[featureIdx].data[sampleIdx]] *)
Definition value (td : t) (featureIdx sampleIdx : nat) : result num_t :=
  f ← at_ (features_ td) featureIdx; at_ (Feature.data f) sampleIdx.

(** [Treedata::getFeatureData(size_t featureIdx, const vector<size_t>&
    sampleIcs)] *)
Definition getFeatureData (td : t) (featureIdx : nat) (sampleIcs : list nat)
    : result (list num_t) :=
  for_range 0 (length sampleIcs)
    (λ i data,
       idx ← at_ sampleIcs i;
       v ← value td featureIdx idx;
       set_at data i v)
    (replicate (length sampleIcs) num_zero).

(** One turn of the loop of [getFilteredFeatureData]. *)
Definition getFilteredFeatureData_body (td : t) (featureIdx : nat) (i : nat)
    (s : list num_t * list nat * nat) : result (list num_t * list nat * nat) :=
  let '(featureData, sampleIcs, nReal) := s in
  idx ← at_ sampleIcs i;
  v ← value td featureIdx idx;
  if negb (isNAN v) then
    featureData ← set_at featureData nReal v;
    sampleIcs ← set_at sampleIcs nReal idx;
    mret (featureData, sampleIcs, S nReal)
  else mret (featureData, sampleIcs, nReal).

(** [Treedata::getFilteredFeatureData]: the result and the shrunk
    [sampleIcs]. *)
Definition getFilteredFeatureData (td : t) (featureIdx : nat)
    (sampleIcs : list nat) : result (list num_t * list nat) :=
  let n := length sampleIcs in
  '(featureData, sampleIcs, nReal) ←
    for_range 0 n (getFilteredFeatureData_body td featureIdx)
      (replicate n num_zero, sampleIcs, 0);
  mret (resize nReal num_zero featureData, resize nReal 0 sampleIcs).

(** One turn of the loop of [getFilteredFeatureDataPair]. *)
Definition getFilteredFeatureDataPair_body (td : t)
    (featureIdx1 featureIdx2 : nat) (i : nat)
    (s : list nat * list num_t * list num_t * nat)
    : result (list nat * list num_t * list num_t * nat) :=
  let '(sampleIcs, featureData1, featureData2, nReal) := s in
  idx ← at_ sampleIcs i;
  v1 ← value td featureIdx1 idx;
  idx ← at_ sampleIcs i;
  v2 ← value td featureIdx2 idx;
  if negb (isNAN v1) && negb (isNAN v2) then
    idx ← at_ sampleIcs i;
    sampleIcs ← set_at sampleIcs nReal idx;
    featureData1 ← set_at featureData1 nReal v1;
    featureData2 ← set_at featureData2 nReal v2;
    mret (sampleIcs, featureData1, featureData2, S nReal)
  else mret (sampleIcs, featureData1, featureData2, nReal).

(** [Treedata::getFilteredFeatureDataPair]; the three vectors passed by
    reference come back as the result. *)
Definition getFilteredFeatureDataPair (td : t) (featureIdx1 featureIdx2 : nat)
    (sampleIcs : list nat) (featureData1 featureData2 : list num_t)
    : result (list nat * list num_t * list num_t) :=
  let n := length sampleIcs in
  let featureData1 := resize n num_zero featureData1 in
  let featureData2 := resize n num_zero featureData2 in
  '(sampleIcs, featureData1, featureData2, nReal) ←
    for_range 0 n (getFilteredFeatureDataPair_body td featureIdx1 featureIdx2)
      (sampleIcs, featureData1, featureData2, 0);
  mret (resize nReal 0 sampleIcs,
        resize nReal num_zero featureData1,
        resize nReal num_zero featureData2).





(** The loop of [bootstrapFromRealSamples] that collects the samples
    whose value is not missing. *)
Definition collectReal_body (td : t) (featureIdx : nat) (i : nat)
    (allIcs : list nat) : result (list nat) :=
  v ← value td featureIdx i;
  if negb (isNAN v) then mret (allIcs ++ [i]) else mret allIcs.

(** The loop that draws with replacement:
    [ics[sampleIdx] = allIcs[random->integer() % nRealSamples]]. *)
Definition drawWith_body (allIcs : list nat) (sampleIdx : nat)
    (s : list nat * Random) : result (list nat * Random) :=
  let '(ics, random) := s in
  let '(r, random) := random_integer random in
  let nRealSamples := size allIcs in
  if decide (nRealSamples = 0%N) then Undefined
  else
    x ← at_ allIcs (N.to_nat (r mod nRealSamples));
    ics ← set_at ics sampleIdx x;
    mret (ics, random).

(** The loop that draws without replacement: [ics[i] = allIcs[foo[i]]]. *)
Definition drawWithout_body (foo allIcs : list nat) (i : nat)
    (ics : list nat) : result (list nat) :=
  k ← at_ foo i;
  x ← at_ allIcs k;
  set_at ics i x.

(** [Treedata::bootstrapFromRealSamples]; [ics] and [oobIcs] are passed by
    reference and come back, with the random source, as the result. *)
Definition bootstrapFromRealSamples (td : t) (random : Random)
    (withReplacement : bool) (sampleSize : num_t) (featureIdx : nat)
    (ics oobIcs : list nat) : result (list nat * list nat * Random) :=
  _ ← assert (num_lt num_zero sampleSize) "sampleSize > 0.0";
  if negb withReplacement && num_lt num_one sampleSize then
    Exit "Treedata: when sampling without replacement, sample size must be less or equal to 100% (sampleSize <= 1.0)"
  else
    allIcs ← for_range 0 (nSamples td) (collectReal_body td featureIdx) [];
    let nRealSamples := size allIcs in
    let nSamples :=
      N.to_nat (floor_to_size (num_mul sampleSize (num_of_size nRealSamples))) in
    let ics := resize nSamples 0 ics in
    '(ics, random) ←
      (if withReplacement then
         for_range 0 nSamples (drawWith_body allIcs) (ics, random)
       else
         let foo := range (N.to_nat nRealSamples) in
         let '(foo, random) := permute foo random in
         ics ← for_range 0 nSamples (drawWithout_body foo allIcs) ics;
         mret (ics, random));
    let ics := std_sort ics in
    let oobIcs :=
      if decide (nSamples < N.to_nat nRealSamples)
      then resize (N.to_nat nRealSamples) 0 oobIcs
      else resize nSamples 0 oobIcs in
    let diff := set_difference allIcs ics in
    if decide (length diff ≤ length oobIcs) then
      let oobIcs := diff ++ drop (length diff) oobIcs in
      let nOob := length diff in
      mret (ics, resize nOob 0 oobIcs, random)
    else Undefined.

(** [Treedata::getFilteredAndSortedFeatureDataPair3]; the three vectors
    passed by reference come back as the result. *)
Definition getFilteredAndSortedFeatureDataPair3 (td : t)
    (targetIdx featureIdx : nat) (sampleIcs : list nat)
    : result (list nat * list num_t * list num_t) :=
  featureData ← getFeatureData td featureIdx sampleIcs;
  let isIncreasingOrder := true in
  let '(featureData, refIcs) := filterSort isIncreasingOrder featureData in
  let sampleIcsCopy := sampleIcs in
  sampleIcs ← for_range 0 (length refIcs)
                (λ i sampleIcs,
                   k ← at_ refIcs i;
                   x ← at_ sampleIcsCopy k;
                   set_at sampleIcs i x)
                sampleIcs;
  let sampleIcs := resize (length refIcs) 0 sampleIcs in
  targetData ← getFeatureData td targetIdx sampleIcs;
  mret (sampleIcs, targetData, featureData).

(** [Treedata::numericalFeatureSplit]: the returned impurity decrease, then
    [sampleIcs_left], [sampleIcs_right] and [splitValue] as the call leaves
    them. *)
Definition numericalFeatureSplit (td : t) (targetIdx featureIdx : nat)
    (minSamples : N) (sampleIcs_left sampleIcs_right : list nat)
    (splitValue : num_t) : result (num_t * list nat * list nat * num_t) :=
  let sampleIcs_left : list nat := [] in
  '(sampleIcs_right, tv, fv) ←
    getFilteredAndSortedFeatureDataPair3 td targetIdx featureIdx sampleIcs_right;
  let n_tot := size fv in
  if decide (n_tot < size_t_mul 2 minSamples)%N then
    mret (num_zero, sampleIcs_left, sampleIcs_right, splitValue)
  else
    let bestSplitIdx := MAX_IDX in
    isNum ← isFeatureNumerical td targetIdx;
    let found :=
      if isNum : bool
      then numericalFeatureSplitsNumericalTarget tv fv minSamples bestSplitIdx
      else numericalFeatureSplitsCategoricalTarget tv fv minSamples bestSplitIdx in
    let DI_best := found.1 in
    let bestSplitIdx := found.2 in
    if decide (bestSplitIdx = MAX_IDX) then
      mret (num_zero, sampleIcs_left, sampleIcs_right, splitValue)
    else
      splitValue ← at_ fv (N.to_nat bestSplitIdx);
      let n_left := N.to_nat ((bestSplitIdx + 1) mod size_t_modulus) in
      let sampleIcs_left := resize n_left 0 sampleIcs_left in
      sampleIcs_left ← for_range 0 n_left
                         (λ i sampleIcs_left,
                            x ← at_ sampleIcs_right i;
                            set_at sampleIcs_left i x)
                         sampleIcs_left;
      if decide (n_left ≤ length sampleIcs_right) then
        let sampleIcs_right := drop n_left sampleIcs_right in
        let n_right := length sampleIcs_right in
        _ ← assert (bool_decide (N.of_nat (n_left + n_right) = n_tot))
              "n_left + n_right == n_tot";
        mret (DI_best, sampleIcs_left, sampleIcs_right, splitValue)
      else Undefined.

(** The running values of the loop of [textualFeatureSplit] for a
    numerical target. *)
Record regr_state := mk_regr {
  r_left : list nat; r_right : list nat;
  r_n_left : nat; r_n_right : nat;
  r_mu_left : num_t; r_mu_right : num_t; r_mu_tot : num_t;
}.

(** The running values of the loop of [textualFeatureSplit] for a
    categorical target. *)
Record class_state := mk_class {
  c_left : list nat; c_right : list nat;
  c_n_left : nat; c_n_right : nat;
  c_freq_left : freq_map; c_freq_right : freq_map; c_freq_tot : freq_map;
  c_sf_left : N; c_sf_right : N; c_sf_tot : N;
}.

(** [hs.find(hashIdx) != hs.end()] for the sample, and the target value. *)
Definition token_and_target (td : t) (targetIdx featureIdx : nat)
    (hashIdx : uint32_t) (idx : nat) : result (bool * num_t) :=
  f ← at_ (features_ td) featureIdx;
  hs ← at_ (Feature.hashSet f) idx;
  x ← value td targetIdx idx;
  mret (bool_decide (hashIdx ∈ hs), x).

Definition textual_regr_body (td : t) (targetIdx featureIdx : nat)
    (hashIdx : uint32_t) (n_tot : nat) (i : nat) (s : regr_state)
    : result regr_state :=
  idx ← at_ (r_right s) i;
  '(has, x) ← token_and_target td targetIdx featureIdx hashIdx idx;
  let mu_tot := num_add (r_mu_tot s) (num_div x (num_of_size (N.of_nat n_tot))) in
  if has : bool then
    left ← set_at (r_left s) (r_n_left s) idx;
    let n_left := S (r_n_left s) in
    let mu_left :=
      num_add (r_mu_left s)
        (num_div (num_sub x (r_mu_left s)) (num_of_size (N.of_nat n_left))) in
    Ok (mk_regr left (r_right s) n_left (r_n_right s)
            mu_left (r_mu_right s) mu_tot)
  else
    right ← set_at (r_right s) (r_n_right s) idx;
    let n_right := S (r_n_right s) in
    let mu_right :=
      num_add (r_mu_right s)
        (num_div (num_sub x (r_mu_right s)) (num_of_size (N.of_nat n_right))) in
    Ok (mk_regr (r_left s) right (r_n_left s) n_right
            (r_mu_left s) mu_right mu_tot).

Definition textual_class_body (td : t) (targetIdx featureIdx : nat)
    (hashIdx : uint32_t) (i : nat) (s : class_state) : result class_state :=
  idx ← at_ (c_right s) i;
  '(has, x) ← token_and_target td targetIdx featureIdx hashIdx idx;
  let '(freq_tot, sf_tot) :=
    incrementSquaredFrequency x (c_freq_tot s) (c_sf_tot s) in
  if has : bool then
    left ← set_at (c_left s) (c_n_left s) idx;
    let '(freq_left, sf_left) :=
      incrementSquaredFrequency x (c_freq_left s) (c_sf_left s) in
    Ok (mk_class left (c_right s) (S (c_n_left s)) (c_n_right s)
            freq_left (c_freq_right s) freq_tot sf_left (c_sf_right s) sf_tot)
  else
    right ← set_at (c_right s) (c_n_right s) idx;
    let '(freq_right, sf_right) :=
      incrementSquaredFrequency x (c_freq_right s) (c_sf_right s) in
    Ok (mk_class (c_left s) right (c_n_left s) (S (c_n_right s))
            (c_freq_left s) freq_right freq_tot (c_sf_left s) sf_right sf_tot).

(** [Treedata::textualFeatureSplit]: the returned impurity decrease, then
    [sampleIcs_left] and [sampleIcs_right] as the call leaves them. *)
Definition textualFeatureSplit (td : t) (targetIdx featureIdx : nat)
    (hashIdx : uint32_t) (minSamples : N)
    (sampleIcs_left sampleIcs_right : list nat)
    : result (num_t * list nat * list nat) :=
  f ← at_ (features_ td) featureIdx;
  _ ← assert (Feature.isTextual f) "features_[featureIdx].isTextual()";
  let n_tot := length sampleIcs_right in
  let sampleIcs_left := resize n_tot 0 sampleIcs_left in
  isNum ← isFeatureNumerical td targetIdx;
  '(DI_best, sampleIcs_left, sampleIcs_right, n_left, n_right) ←
    (if isNum : bool then
       s ← for_range 0 n_tot
             (textual_regr_body td targetIdx featureIdx hashIdx n_tot)
             (mk_regr sampleIcs_left sampleIcs_right 0 0
                num_zero num_zero num_zero);
       mret (deltaImpurity_regr (r_mu_tot s) (N.of_nat n_tot)
               (r_mu_left s) (N.of_nat (r_n_left s))
               (r_mu_right s) (N.of_nat (r_n_right s)),
             r_left s, r_right s, r_n_left s, r_n_right s)
     else
       s ← for_range 0 n_tot
             (textual_class_body td targetIdx featureIdx hashIdx)
             (mk_class sampleIcs_left sampleIcs_right 0 0 [] [] [] 0 0 0);
       mret (deltaImpurity_class (c_sf_tot s) (N.of_nat n_tot)
               (c_sf_left s) (N.of_nat (c_n_left s))
               (c_sf_right s) (N.of_nat (c_n_right s)),
             c_left s, c_right s, c_n_left s, c_n_right s));
  _ ← assert (bool_decide (n_tot = n_left + n_right)) "n_tot == n_left + n_right";
  if decide (N.of_nat n_left < minSamples ∨ N.of_nat n_right < minSamples)%N then
    mret (num_zero, sampleIcs_left, sampleIcs_right)
  else
    mret (DI_best, resize n_left 0 sampleIcs_left,
          resize n_right 0 sampleIcs_right).

End Treedata.

(** *** Headers, lookups and replacement *)

Section Headers.

(** [str[i] == c], for [i] below [str.size()]. *)
Definition char_is (str : string) (i : nat) (c : Ascii.ascii) : bool :=
  bool_decide (String.get i str = Some c).

(** [Treedata::isValidNumericalHeader] *)
Definition isValidNumericalHeader (str : string) (headerDelimiter : Ascii.ascii)
    : bool :=
  if decide (1 < String.length str)
  then char_is str 0 "N"%char && char_is str 1 headerDelimiter
  else false.

(** [Treedata::isValidCategoricalHeader] *)
Definition isValidCategoricalHeader (str : string)
    (headerDelimiter : Ascii.ascii) : bool :=
  if decide (1 < String.length str)
  then (char_is str 0 "C"%char || char_is str 0 "B"%char) && char_is str 1 headerDelimiter
  else false.

(** [Treedata::isValidTextHeader] *)
Definition isValidTextHeader (str : string) (headerDelimiter : Ascii.ascii)
    : bool :=
  if decide (1 < String.length str)
  then char_is str 0 "T"%char && char_is str 1 headerDelimiter
  else false.

(** [Treedata::isValidFeatureHeader] *)
Definition isValidFeatureHeader (str : string) (headerDelimiter : Ascii.ascii)
    : bool :=
  isValidNumericalHeader str headerDelimiter ||
  isValidCategoricalHeader str headerDelimiter ||
  isValidTextHeader str headerDelimiter.

(** One turn of the last loop of [Treedata::readAFM], which types the
    features by their headers. *)
Definition readAFM_types_body (featureHeaders : list string)
    (headerDelimiter : Ascii.ascii) (i : nat)
    (featureTypes : list Feature.Type_) : result (list Feature.Type_) :=
  h ← at_ featureHeaders i;
  if isValidNumericalHeader h headerDelimiter then
    set_at featureTypes i Feature.NUM
  else if isValidCategoricalHeader h headerDelimiter then
    set_at featureTypes i Feature.CAT
  else if isValidTextHeader h headerDelimiter then
    set_at featureTypes i Feature.TXT
  else
    Exit ("ERROR: unknown feature type with feature header '" +:+ h +:+ "'").

(** The end of [Treedata::readAFM], from [featureTypes.resize(nFeatures)]
    on; [zero] is the value a new element of the vector gets. *)
Definition readAFM_types (zero : Feature.Type_) (featureHeaders : list string)
    (headerDelimiter : Ascii.ascii) : result (list Feature.Type_) :=
  let nFeatures := length featureHeaders in
  let featureTypes := resize nFeatures zero [] in
  for_range 0 nFeatures (readAFM_types_body featureHeaders headerDelimiter)
    featureTypes.

(** [enum FileType] *)
Inductive FileType : Type := UNKNOWN | AFM | ARFF.

(** The loop [while(getline(ss,suffix,'.')) {}] of [readFileType], for at
    most [fuel] turns; [None] when they do not suffice. *)
Fixpoint readFileType_loop (fuel : nat) (ss : stream) (suffix : string)
    : option string :=
  match fuel with
  | 0 => None
  | S fuel =>
      let '(ss, suffix) := getline ss suffix "."%char in
      if stream_good ss then readFileType_loop fuel ss suffix
      else Some suffix
  end.

(** The tests of [readFileType] on the suffix. *)
Definition fileType_of (suffix : string) : FileType :=
  if bool_decide (suffix = "AFM") || bool_decide (suffix = "afm") then AFM
  else if bool_decide (suffix = "ARFF") || bool_decide (suffix = "arff")
  then ARFF
  else UNKNOWN.

(** [Treedata::readFileType]; every turn of its loop but the last two
    reads a character of the name, which bounds the turns. *)
Definition readFileType (fileName : string) : option FileType :=
  suffix ← readFileType_loop (String.length fileName + 2)
             (stream_of fileName) EmptyString;
  Some (fileType_of suffix).

End Headers.

Section More.
Context `{MoreUtils}.

(** [Treedata::getFeatureIdx]; [end_] is [this->end()]. *)
Definition getFeatureIdx (end_ : nat) (td : t) (featureName : string) : nat :=
  match name2idx_ td !! featureName with
  | None => end_
  | Some idx => idx
  end.

(** [Treedata::getFeatureName]; [None] is the [std::out_of_range] that
    [features_.at] throws. *)
Definition getFeatureName (td : t) (featureIdx : nat) : option string :=
  Feature.name <$> features_ td !! featureIdx.

(** [Treedata::getSampleName] *)
Definition getSampleName (td : t) (sampleIdx : nat) : option string :=
  sampleHeaders_ td !! sampleIdx.

(** [Treedata::isFeatureCategorical] *)
Definition isFeatureCategorical (td : t) (featureIdx : nat) : result bool :=
  f ← at_ (features_ td) featureIdx; mret (Feature.isCategorical f).

(** [Treedata::isFeatureTextual] *)
Definition isFeatureTextual (td : t) (featureIdx : nat) : result bool :=
  f ← at_ (features_ td) featureIdx; mret (Feature.isTextual f).

(** [Treedata::nRealSamples(featureIdx1, featureIdx2)] *)
Definition nRealSamples2 (td : t) (featureIdx1 featureIdx2 : nat)
    : result nat :=
  for_range 0 (nSamples td)
    (λ i nRealSamples,
       v1 ← value td featureIdx1 i;
       if negb (isNAN v1) then
         v2 ← value td featureIdx2 i;
         if negb (isNAN v2) then mret (S nRealSamples) else mret nRealSamples
       else mret nRealSamples)
    0.

(** [Treedata::nCategories] *)
Definition nCategories (td : t) (featureIdx : nat) : result nat :=
  f ← at_ (features_ td) featureIdx;
  mret (base.size (Feature.mapping f)).

(** [Treedata::nMaxCategories] *)
Definition nMaxCategories (td : t) : result nat :=
  for_range 0 (nFeatures td)
    (λ i ret,
       f ← at_ (features_ td) i;
       if decide (ret < base.size (Feature.mapping f)) then
         f ← at_ (features_ td) i;
         mret (base.size (Feature.mapping f))
       else mret ret)
    0.

(** [Treedata::categories] *)
Definition categories (td : t) (featureIdx : nat) : result (list string) :=
  isNum ← isFeatureNumerical td featureIdx;
  if isNum : bool then mret []
  else
    f ← at_ (features_ td) featureIdx;
    mret ((Feature.backMapping f).*2).

(** [Treedata::getFeatureData(size_t featureIdx)] *)
Definition getFeatureDataAll (td : t) (featureIdx : nat)
    : result (list num_t) :=
  f ← at_ (features_ td) featureIdx;
  for_range 0 (nSamples td)
    (λ i data, v ← value td featureIdx i; set_at data i v)
    (replicate (length (Feature.data f)) num_zero).

(** [Treedata::replaceFeatureData(const size_t, const vector<num_t>&)] *)
Definition replaceFeatureData (td : t) (featureIdx : nat)
    (featureData : list num_t) : result t :=
  f ← at_ (features_ td) featureIdx;
  if decide (length featureData ≠ length (Feature.data f)) then
    Exit "Treedata::replaceFeatureData(num_t) -- data dimension mismatch"
  else
    f ← at_ (features_ td) featureIdx;
    fs ← set_at (features_ td) featureIdx
           (Feature.ofNum featureData (Feature.name f));
    mret (with_features td fs).

(** [Treedata::replaceFeatureData(const size_t, const vector<string>&)] *)
Definition replaceFeatureDataStr (td : t) (featureIdx : nat)
    (rawFeatureData : list string) : result t :=
  f ← at_ (features_ td) featureIdx;
  if decide (length rawFeatureData ≠ length (Feature.data f)) then
    Exit "Treedata::replaceFeatureData(string) -- data dimension mismatch"
  else
    f ← at_ (features_ td) featureIdx;
    fs ← set_at (features_ td) featureIdx
           (Feature.ofStrings rawFeatureData (Feature.name f) false);
    mret (with_features td fs).

(** [Treedata::parseARFFattribute]: the attribute name and
    [isFeatureNumerical]. *)
Definition parseARFFattribute (str : string) : string * bool :=
  let ss := stream_of str in
  let attributeHeader := EmptyString in
  let attributeName := EmptyString in
  let attributeType := EmptyString in
  let '(ss, attributeHeader) := getline ss attributeHeader " "%char in
  let '(ss, attributeName) := getline ss attributeName " "%char in
  let '(ss, attributeType) := getline ss attributeType "010"%char in
  if bool_decide (toUpperCase attributeType = "NUMERIC")
     || bool_decide (toUpperCase attributeType = "REAL")
  then (attributeName, true) else (attributeName, false).

(** One turn of the inner loop that fills a side of the split:
    [side[iter] = sampleIcs[it->second[i]]; ++iter]. *)
Definition assign_body (sampleIcs ids : list nat) (i : nat)
    (s : list nat * nat) : result (list nat * nat) :=
  let '(side, iter) := s in
  k ← at_ ids i;
  x ← at_ sampleIcs k;
  side ← set_at side iter x;
  mret (side, S iter).

(** One entry of the map: its samples, then its key. *)
Definition assign_entry (sampleIcs : list nat) (entry : num_t * list nat)
    (s : list nat * nat * list num_t) : result (list nat * nat * list num_t) :=
  let '(side, iter, splitValues) := s in
  '(side, iter) ← for_range 0 (length entry.2)
                    (assign_body sampleIcs entry.2) (side, iter);
  mret (side, iter, set_insert entry.1 splitValues).

(** The code that fills one side from its map, which
    [categoricalFeatureSplit] has once for the left and once for the
    right side: the sample indices and the split values of the side. *)
Definition assign_side (sampleIcs side : list nat) (n_tot : nat)
    (fmap_side : cat_map) (assertion : string)
    : result (list nat * list num_t) :=
  let side := resize n_tot 0 side in
  let splitValues : list num_t := [] in
  '(side, iter, splitValues) ←
    for_each fmap_side (assign_entry sampleIcs) (side, 0, splitValues);
  let side := resize iter 0 side in
  _ ← assert (bool_decide (length splitValues = length fmap_side)) assertion;
  mret (side, splitValues).

(** [Treedata::categoricalFeatureSplit]: the returned impurity decrease,
    then [sampleIcs_left], [sampleIcs_right], [splitValues_left] and
    [splitValues_right] as the call leaves them. *)
Definition categoricalFeatureSplit (td : t) (targetIdx featureIdx : nat)
    (minSamples : N) (sampleIcs_left sampleIcs_right : list nat)
    (splitValues_left splitValues_right : list num_t)
    : result (num_t * list nat * list nat * list num_t * list num_t) :=
  let sampleIcs_left : list nat := [] in
  '(sampleIcs_right, tv, fv) ←
    getFilteredFeatureDataPair td targetIdx featureIdx sampleIcs_right [] [];
  let n_tot := size fv in
  if decide (n_tot < size_t_mul 2 minSamples)%N then
    mret (num_zero, sampleIcs_left, sampleIcs_right,
          splitValues_left, splitValues_right)
  else
    isNum ← isFeatureNumerical td targetIdx;
    let found :=
      if isNum : bool
      then categoricalFeatureSplitsNumericalTarget tv fv minSamples [] []
      else categoricalFeatureSplitsCategoricalTarget tv fv minSamples [] [] in
    let DI_best := found.1.1 in
    let fmap_left := found.1.2 in
    let fmap_right := found.2 in
    if num_lt (fabs DI_best) EPS then
      mret (DI_best, sampleIcs_left, sampleIcs_right,
            splitValues_left, splitValues_right)
    else
      let sampleIcs := sampleIcs_right in
      '(sampleIcs_left, splitValues_left) ←
        assign_side sampleIcs sampleIcs_left (length fv) fmap_left
          "splitValues_left.size() == fmap_left.size()";
      '(sampleIcs_right, splitValues_right) ←
        assign_side sampleIcs sampleIcs_right (length fv) fmap_right
          "splitValues_right.size() == fmap_right.size()";
      mret (DI_best, sampleIcs_left, sampleIcs_right,
            splitValues_left, splitValues_right).

(** [m.find(x)] on a [map<num_t,string>], the list of its entries in key
    order: the entry whose key is neither below nor above [x]. *)
Fixpoint map_find (m : list (num_t * string)) (x : num_t) : option string :=
  match m with
  | [] => None
  | (k, s) :: m' =>
      if negb (num_lt k x) && negb (num_lt x k) then Some s
      else map_find m' x
  end.

(** [Treedata::getRawFeatureData(const size_t, const num_t)] *)
Definition getRawFeatureData_value (td : t) (featureIdx : nat) (data : num_t)
    : result string :=
  if isNAN data then mret STR_NAN
  else
    f ← at_ (features_ td) featureIdx;
    if Feature.isNumerical f then mret (num2str data)
    else
      f ← at_ (features_ td) featureIdx;
      match map_find (Feature.backMapping f) data with
      | None => Exit "Treedata::getRawFeatureData() -- unknown value to get"
      | Some s => mret s
      end.

(** [Treedata::getRawFeatureData(const size_t, const size_t)] *)
Definition getRawFeatureData_sample (td : t) (featureIdx sampleIdx : nat)
    : result string :=
  data ← value td featureIdx sampleIdx;
  getRawFeatureData_value td featureIdx data.

(** [Treedata::getRawFeatureData(const size_t)] *)
Definition getRawFeatureData (td : t) (featureIdx : nat)
    : result (list string) :=
  let rawData := replicate (length (sampleHeaders_ td)) EmptyString in
  for_range 0 (length rawData)
    (λ i rawData,
       s ← getRawFeatureData_sample td featureIdx i; set_at rawData i s)
    rawData.

End More.
Section Transpose.
Context {T : Type}.

(** One turn of the first loop of [transpose]: [mat[i].resize(ncols)];
    [zero] is the [T()] that [resize] fills with. *)
Definition transpose_resize_body (zero : T) (ncols : nat) (i : nat)
    (mat : list (list T)) : result (list (list T)) :=
  row ← at_ mat i; set_at mat i (resize ncols zero row).

(** One turn of the inner loop: [mat[i][j] = foo[j][i]]. *)
Definition transpose_copy_body (foo : list (list T)) (i j : nat)
    (mat : list (list T)) : result (list (list T)) :=
  col ← at_ foo j;
  x ← at_ col i;
  row ← at_ mat i;
  row ← set_at row j x;
  set_at mat i row.

(** [Treedata::transpose] *)
Definition transpose (zero : T) (mat : list (list T))
    : result (list (list T)) :=
  let foo := mat in
  let ncols := length mat in
  row0 ← at_ mat 0;
  let nrows := length row0 in
  let mat := resize nrows [] mat in
  mat ← for_range 0 nrows (transpose_resize_body zero ncols) mat;
  for_range 0 nrows
    (λ i mat, for_range 0 ncols (transpose_copy_body foo i) mat) mat.

End Transpose.

End Treedata.

(** ** A concrete instance

    Rational numbers with one extra value for NaN stand for [double], and
    small stand-ins are given for the collaborators, so that the model
    can be run on concrete tables. *)

Module Example.

#[global] Instance Q_eq_dec : EqDecision QArith_base.Q.
Proof. solve_decision. Defined.

Definition dbl : Type := option QArith_base.Q.

#[global] Instance dbl_eq_dec : EqDecision dbl.
Proof. unfold dbl. apply _. Defined.

Definition NaN : dbl := None.

(** The double of an integer. *)
Definition num (z : Z) : dbl := Some (QArith_base.Qmake z 1).

Definition lift2 (f : QArith_base.Q → QArith_base.Q → QArith_base.Q)
    (a b : dbl) : dbl :=
  match a, b with
  | Some x, Some y => Some (f x y)
  | _, _ => None
  end.

Definition dbl_lt (a b : dbl) : bool :=
  match a, b with
  | Some x, Some y => negb (QArith_base.Qle_bool y x)
  | _, _ => false
  end.

Definition dbl_div (a b : dbl) : dbl :=
  match a, b with
  | Some x, Some y =>
      if QArith_base.Qeq_bool y (QArith_base.Qmake 0 1) then None
      else Some (QArith_base.Qdiv x y)
  | _, _ => None
  end.

Definition dbl_floor (a : dbl) : N :=
  match a with
  | Some x => Z.to_N (QArith_base.Qnum x `div` Z.pos (QArith_base.Qden x))
  | None => 0
  end.

Definition example_num : NumT := {|
  num_t := dbl;
  isNAN := λ a, bool_decide (a = None :> dbl);
  num_lt := dbl_lt;
  num_zero := num 0;
  num_one := num 1;
  num_add := lift2 QArith_base.Qplus;
  num_sub := lift2 QArith_base.Qminus;
  num_mul := lift2 QArith_base.Qmult;
  num_div := dbl_div;
  num_of_size := λ n, num (Z.of_N n);
  floor_to_size := dbl_floor;
|}.

(** Decimal digits are read as a number, anything else is missing. *)
Fixpoint read_digits (acc : Z) (s : string) : dbl :=
  match s with
  | EmptyString => num acc
  | String c s' =>
      let d := (Z.of_nat (Ascii.nat_of_ascii c) - 48)%Z in
      if bool_decide (0 ≤ d ≤ 9)%Z then read_digits (10 * acc + d) s' else NaN
  end.

Definition read_num (s : string) : dbl :=
  match s with
  | EmptyString => NaN
  | _ => read_digits 0 s
  end.

(** Categories are numbered in the order of their first occurrence; the
    string [NA] is missing. *)
Definition read_cat (raw : list string)
    : list dbl * gmap string dbl * list (dbl * string) :=
  foldl (λ '(d, m, b) str,
           if bool_decide (str = "NA") then (d ++ [NaN], m, b)
           else match m !! str with
                | Some code => (d ++ [code], m, b)
                | None =>
                    let code := num (Z.of_nat (length b)) in
                    (d ++ [code], <[str := code]> m, b ++ [(code, str)])
                end)
        ([], ∅, []) raw.

(** The tokens of a text are its characters. *)
Definition char_tokens (s : string) : list uint32_t :=
  remove_dups ((λ c, N.of_nat (Ascii.nat_of_ascii c)) <$> String.list_ascii_of_string s).

(** The first boundary between two distinct values that leaves
    [minSamples] samples on each side. *)
Definition first_boundary (tv fv : list dbl) (minSamples : N) (splitIdx : N)
    : dbl * N :=
  let n := length fv in
  let admissible (i : nat) : bool :=
    bool_decide (minSamples ≤ N.of_nat (i + 1))%N &&
    bool_decide (minSamples ≤ N.of_nat (n - (i + 1)))%N &&
    match fv !! i, fv !! (i + 1) with
    | Some a, Some b => dbl_lt a b
    | _, _ => false
    end in
  match filter (λ i, admissible i = true) (seq 0 (n - 1)) with
  | [] => (num 0, splitIdx)
  | i :: _ => (num 1, N.of_nat i)
  end.

(** [n_left * n_right / n_tot * (mu_left - mu_right)^2] *)
Definition regr (mu_tot : dbl) (n_tot : N) (mu_left : dbl) (n_left : N)
    (mu_right : dbl) (n_right : N) : dbl :=
  let d := lift2 QArith_base.Qminus mu_left mu_right in
  lift2 QArith_base.Qmult
    (dbl_div (num (Z.of_N (n_left * n_right))) (num (Z.of_N n_tot)))
    (lift2 QArith_base.Qmult d d).

(** [sf_left / n_left + sf_right / n_right - sf_tot / n_tot] *)
Definition class (sf_tot n_tot sf_left n_left sf_right n_right : N) : dbl :=
  let ratio (a b : N) := dbl_div (num (Z.of_N a)) (num (Z.of_N b)) in
  lift2 QArith_base.Qminus
    (lift2 QArith_base.Qplus (ratio sf_left n_left) (ratio sf_right n_right))
    (ratio sf_tot n_tot).

(** The count of [x] goes from [c] to [c + 1], and [sf] grows by [2c + 1]. *)
Fixpoint bump (x : dbl) (freq : list (dbl * N)) : list (dbl * N) * N :=
  match freq with
  | [] => ([(x, 1%N)], 0%N)
  | (y, c) :: freq' =>
      if bool_decide (x = y) then ((y, (c + 1)%N) :: freq', c)
      else let '(f, c') := bump x freq' in ((y, c) :: f, c')
  end.

Definition example_utils : @Utils example_num := {|
  MAX_IDX := (2 ^ 64 - 1)%N;
  strv2numv := fmap read_num;
  strv2catv := read_cat :
    list string → list (@num_t example_num) * gmap string (@num_t example_num)
                  * list (@num_t example_num * string);
  hashText := char_tokens;
  Random := list N;
  random_integer := λ r, (hd 0%N r, tl r);
  permute := λ A l r, (rotate (N.to_nat (hd 0%N r)) l, tl r);
  numericalFeatureSplitsNumericalTarget := first_boundary;
  numericalFeatureSplitsCategoricalTarget := first_boundary;
  deltaImpurity_regr := regr;
  deltaImpurity_class := class;
  incrementSquaredFrequency := λ x freq sf,
    let '(f, c) := bump x freq in (f, (sf + 2 * c + 1)%N);
|}.

(** An integer is written in decimal digits, another number as a
    fraction. *)
Definition show_num (a : dbl) : string :=
  match a with
  | Some q =>
      if bool_decide (QArith_base.Qden q = 1%positive)
      then pretty (QArith_base.Qnum q)
      else pretty (QArith_base.Qnum q) +:+ "/" +:+
           pretty (Z.pos (QArith_base.Qden q))
  | None => "nan"
  end.

Definition upper (c : Ascii.ascii) : Ascii.ascii :=
  let n := Ascii.nat_of_ascii c in
  if bool_decide (97 ≤ n ≤ 122) then Ascii.ascii_of_nat (n - 32) else c.

Fixpoint upper_case (s : string) : string :=
  match s with
  | EmptyString => EmptyString
  | String c s' => String (upper c) (upper_case s')
  end.

(** The position [i] joins the entry of the category [v], which is made
    in the order of the keys when it is not there. *)
Fixpoint add_position (v : dbl) (i : nat) (m : list (dbl * list nat))
    : list (dbl * list nat) :=
  match m with
  | [] => [(v, [i])]
  | (k, ids) :: m' =>
      if dbl_lt v k then (v, [i]) :: (k, ids) :: m'
      else if dbl_lt k v then (k, ids) :: add_position v i m'
      else (k, ids ++ [i]) :: m'
  end.

(** The first category goes left and the others right, when both sides
    have [minSamples] samples. *)
Definition first_category (tv fv : list dbl) (minSamples : N)
    (fmap_left fmap_right : list (dbl * list nat))
    : dbl * list (dbl * list nat) * list (dbl * list nat) :=
  let m := foldl (λ m iv, add_position iv.2 iv.1 m) []
             (zip (seq 0 (length fv)) fv) in
  match m with
  | (k, ids) :: rest =>
      if bool_decide (minSamples ≤ N.of_nat (length ids))%N &&
         bool_decide (minSamples ≤ N.of_nat (length (concat rest.*2)))%N
      then (num 1, [(k, ids)], rest)
      else (num 0, [], m)
  | [] => (num 0, [], [])
  end.

Definition eps : dbl := Some (QArith_base.Qmake 1 1000000).

Definition dbl_abs (a : dbl) : dbl :=
  (λ q, QArith_base.Qmake (Z.abs (QArith_base.Qnum q)) (QArith_base.Qden q))
  <$> a.

Definition example_more : @MoreUtils example_num example_utils := {|
  STR_NAN := "NA";
  EPS := eps : @num_t example_num;
  fabs := dbl_abs : @num_t example_num → @num_t example_num;
  num2str := show_num : @num_t example_num → string;
  toUpperCase := upper_case;
  categoricalFeatureSplitsNumericalTarget := first_category;
  categoricalFeatureSplitsCategoricalTarget := first_category;
|}.

#[local] Existing Instance example_num.
#[local] Existing Instance example_utils.
#[local] Existing Instance example_more.

(** Two numerical features over four samples, with missing values. *)
Definition col_x : Feature.t := Feature.ofNum [num 3; num 1; NaN; num 2] "N:x".
Definition col_y : Feature.t :=
  Feature.ofNum [num 10; NaN; num 30; num 40] "N:y".

Definition two_columns : Treedata.t :=
  {| Treedata.useContrasts_ := false;
     Treedata.features_ := [col_x; col_y];
     Treedata.sampleHeaders_ := ["s0"; "s1"; "s2"; "s3"];
     Treedata.name2idx_ := {[ "N:x" := 0; "N:y" := 1 ]} |}.



(** Two samples, nothing missing, the feature in descending order. *)
Definition descending : Treedata.t :=
  {| Treedata.useContrasts_ := false;
     Treedata.features_ :=
       [Feature.ofNum [num 3; num 1] "N:f";
        Feature.ofNum [num 1; num 2] "N:t"];
     Treedata.sampleHeaders_ := ["s0"; "s1"];
     Treedata.name2idx_ := {[ "N:f" := 0; "N:t" := 1 ]} |}.


(** A textual feature and a numerical target, as the constructor from a
    file leaves them. *)
Definition texts : Feature.t := Feature.ofStrings ["ab"; "c"; "a"] "T:t" true.

(** A text without tokens. *)
Definition texts_with_empty : Feature.t :=
  Feature.ofStrings ["ab"; EmptyString] "T:e" true.

Definition two_thirds : dbl := Some (QArith_base.Qmake 2 3).

Definition col_n : Feature.t := Feature.ofNum [num 1; num 2; num 3] "N:y".

Definition with_text : Treedata.t :=
  {| Treedata.useContrasts_ := false;
     Treedata.features_ := [texts; col_n];
     Treedata.sampleHeaders_ := ["s0"; "s1"; "s2"];
     Treedata.name2idx_ := {[ "T:t" := 0; "N:y" := 1 ]} |}.

(** A numerical and a textual feature. *)
Definition mixed : list Feature.t :=
  [Feature.ofNum [num 1; num 2] "N:x";
   Feature.ofStrings ["a b"; "c"] "T:t" true].

(** Two features with the same name. *)
Definition same_name : list Feature.t :=
  [Feature.ofNum [num 1] "N:x"; Feature.ofNum [num 2] "N:x"].

(** A categorical feature with a missing value and a numerical target. *)
Definition col_c : Feature.t :=
  Feature.ofStrings ["a"; "b"; "a"; "NA"] "C:c" false.
Definition col_u : Feature.t :=
  Feature.ofNum [num 1; num 5; num 1; num 5] "N:u".

Definition with_category : Treedata.t :=
  {| Treedata.useContrasts_ := false;
     Treedata.features_ := [col_c; col_u];
     Treedata.sampleHeaders_ := ["s0"; "s1"; "s2"; "s3"];
     Treedata.name2idx_ := {[ "C:c" := 0; "N:u" := 1 ]} |}.

(** A categorical feature one of whose values has lost its category. *)
Definition col_lost : Feature.t :=
  {| Feature.type_ := Feature.CAT; Feature.name := "C:l";
     Feature.data := [num 0; num 1]; Feature.mapping := {[ "a" := num 0 ]};
     Feature.backMapping := [(num 0, "a")]; Feature.hashSet := [] |}.

Definition with_lost : Treedata.t :=
  {| Treedata.useContrasts_ := false;
     Treedata.features_ := [col_lost];
     Treedata.sampleHeaders_ := ["s0"; "s1"];
     Treedata.name2idx_ := {[ "C:l" := 0 ]} |}.

(** The values of [col_u] and [col_c] at the samples 0, 1 and 2. *)
Definition kept_u : list dbl := [num 1; num 5; num 1].
Definition kept_c : list dbl := [num 0; num 1; num 0].

(** A matrix of two rows and three columns. *)
Definition two_by_three : list (list nat) := [[1; 2; 3]; [4; 5; 6]].

End Example.

(** ** The vocabulary of the properties *)

Section Vocabulary.
Context `{Utils}.

(** The value of a feature's data at [idx] is there and is not missing. *)
Definition real_at (d : list num_t) (idx : nat) : Prop :=
  ∃ v, d !! idx = Some v ∧ isNAN v = false.

#[global] Instance real_at_dec d idx : Decision (real_at d idx).
Proof.
  unfold real_at. destruct (d !! idx) as [v|] eqn:Hv.
  - destruct (isNAN v) eqn:Hn.
    + right. intros (w & Hw & Hnw). congruence.
    + left. eauto.
  - right. intros (w & Hw & _). congruence.
Defined.



(** [a] may stand in front of [b] in ascending order. *)
Definition num_le (a b : num_t) : Prop := num_lt b a = false.

(** The feature value of sample [idx] is not above [splitValue]. *)
Definition at_most (d : list num_t) (splitValue : num_t) (idx : nat) : Prop :=
  ∃ v, d !! idx = Some v ∧ num_le v splitValue.

#[global] Instance at_most_dec d splitValue idx :
  Decision (at_most d splitValue idx).
Proof.
  unfold at_most, num_le. destruct (d !! idx) as [v|] eqn:Hv.
  - destruct (num_lt splitValue v) eqn:Hlt.
    + right. intros (w & Hw & Hle). congruence.
    + left. eauto.
  - right. intros (w & Hw & _). congruence.
Defined.

(** The search the target's type selects. *)
Definition search (T : Feature.t) : list num_t → list num_t → N → N → num_t * N :=
  if Feature.isNumerical T
  then numericalFeatureSplitsNumericalTarget
  else numericalFeatureSplitsCategoricalTarget.

(** The samples of the table at which the feature is not missing, in
    ascending order. *)
Definition realSamples (td : Treedata.t) (F : Feature.t) : list nat :=
  filter (real_at (Feature.data F)) (seq 0 (Treedata.nSamples td)).

(** The number of samples [bootstrapFromRealSamples] draws. *)
Definition drawCount (td : Treedata.t) (F : Feature.t) (sampleSize : num_t)
    : nat :=
  N.to_nat (floor_to_size
              (num_mul sampleSize (num_of_size (size (realSamples td F))))).

(** The token set of sample [idx] contains [hashIdx]. *)
Definition has_token (F : Feature.t) (hashIdx : uint32_t) (idx : nat) : Prop :=
  ∃ hs, Feature.hashSet F !! idx = Some hs ∧ hashIdx ∈ hs.

#[global] Instance has_token_dec F hashIdx idx :
  Decision (has_token F hashIdx idx).
Proof.
  unfold has_token. destruct (Feature.hashSet F !! idx) as [hs|] eqn:Hhs.
  - destruct (decide (hashIdx ∈ hs)) as [Hin|Hout].
    + left. eauto.
    + right. intros (hs' & Heq & Hin). congruence.
  - right. intros (hs' & Heq & _). congruence.
Defined.

(** The type a feature header announces: a letter, then the delimiter. *)
Definition header_kind (str : string) (headerDelimiter : Ascii.ascii)
    : option Feature.Type_ :=
  match str with
  | String c0 (String c1 _) =>
      if decide (c1 = headerDelimiter) then
        if decide (c0 = "N"%char) then Some Feature.NUM
        else if decide (c0 = "C"%char ∨ c0 = "B"%char) then Some Feature.CAT
        else if decide (c0 = "T"%char) then Some Feature.TXT
        else None
      else None
  | _ => None
  end.

(** [i] is the last position of the name [s] in [names]. *)
Definition last_index (names : list string) (s : string) (i : nat) : Prop :=
  names !! i = Some s ∧ ∀ j, i < j → names !! j ≠ Some s.

(** The name index of a table sends the name of every feature to its
    position. *)
Definition index_consistent (td : Treedata.t) : Prop :=
  ∀ i f, Treedata.features_ td !! i = Some f →
         Treedata.name2idx_ td !! Feature.name f = Some i.

(** The name [createContrasts] gives the contrast of a feature. *)
Definition contrast_name (s : string) : string := s +:+ "_CONTRAST".

End Vocabulary.

(** Row [i] of the mirror image of [mat]: element [i] of every row of
    [mat]. *)
Definition mirrored_row {T} (zero : T) (mat : list (list T)) (i : nat)
    : list T :=
  (λ col, default zero (col !! i)) <$> mat.

(** The mirror image of a matrix whose rows have [nrows] elements. *)
Definition mirrored {T} (zero : T) (mat : list (list T)) (nrows : nat)
    : list (list T) :=
  mirrored_row zero mat <$> seq 0 nrows.

(** The character [c] does not occur in [s]. *)
Fixpoint free_of (c : Ascii.ascii) (s : string) : bool :=
  match s with
  | EmptyString => true
  | String x s' => negb (bool_decide (x = c)) && free_of c s'
  end.

(** What [categoricalFeatureSplit] needs of a map the split search
    returns, for [n] samples: its positions are below [n] and at most [n]
    in all, and its keys ascend, as the keys of a [map] do. *)
Definition side_fits `{NumT} (n : nat) (m : cat_map) : Prop :=
  Forall (λ k, k < n) (concat m.*2) ∧
  length (concat m.*2) ≤ n ∧
  StronglySorted (λ a b, num_lt a b = true) m.*1.

(** The value [v] of the feature [F] can be shown: it is missing, or
    [F] is numerical, or [v] is the code of one of the categories. *)
Definition shown `{MoreUtils} (F : Feature.t) (v : num_t) : Prop :=
  isNAN v = true ∨ Feature.isNumerical F = true ∨
  is_Some (Treedata.map_find (Feature.backMapping F) v).

#[global] Instance shown_dec `{MoreUtils} F v : Decision (shown F v).
Proof. unfold shown. apply _. Defined.

(** The string [s] shows the value [v] of the feature [F]. *)
Definition shows `{MoreUtils} (F : Feature.t) (v : num_t) (s : string)
    : Prop :=
  if isNAN v then s = STR_NAN
  else if Feature.isNumerical F then s = num2str v
  else Treedata.map_find (Feature.backMapping F) v = Some s.

(** * Properties *)

(** ** Loops and vectors *)

Section Loops.
Context {St : Type}.

(** The invariant rule of [for_range]: an invariant that every turn
    re-establishes, and under which every turn succeeds, holds at the end,
    and the loop succeeds. *)
Lemma for_range_inv (I : nat → St → Prop) (body : nat → St → result St)
    (count : nat) :
  ∀ (start : nat) (s : St),
    I start s →
    (∀ i s, start ≤ i < start + count → I i s →
            ∃ s', body i s = Ok s' ∧ I (S i) s') →
    ∃ s', for_range start count body s = Ok s' ∧ I (start + count) s'.
Proof.
  induction count as [|count IH]; intros start s Hs Hbody; simpl.
  - exists s. by rewrite Nat.add_0_r.
  - destruct (Hbody start s) as (s1 & Hb & Hs1); [lia|done|].
    rewrite Hb. simpl.
    destruct (IH (S start) s1 Hs1) as (s2 & Hr & Hs2).
    { intros i s' Hi. apply Hbody. lia. }
    exists s2. split; [done|]. by replace (start + S count) with (S start + count) by lia.
Qed.

(** A failing turn fails the loop, with the turns before it succeeding. *)
Lemma for_range_fails (I : nat → St → Prop) (body : nat → St → result St)
    (bad : result St) (k : nat) :
  (∀ a, bad ≠ Ok a) →
  ∀ (count start : nat) (s : St),
    start ≤ k < start + count →
    I start s →
    (∀ i s, start ≤ i < k → I i s → ∃ s', body i s = Ok s' ∧ I (S i) s') →
    (∀ s, I k s → body k s = bad) →
    for_range start count body s = bad.
Proof.
  intros Hbad. induction count as [|count IH]; intros start s Hk Hs Hbody Hfail.
  - lia.
  - simpl. destruct (decide (start = k)) as [->|Hne].
    + rewrite (Hfail s Hs). destruct bad; try done. by destruct (Hbad a).
    + destruct (Hbody start s) as (s1 & Hb & Hs1); [lia|done|].
      rewrite Hb. simpl. apply IH; [lia|done| |done].
      intros i s' Hi. apply Hbody. lia.
Qed.

End Loops.

Lemma at_Ok {A} (v : list A) i x : v !! i = Some x → at_ v i = Ok x.
Proof. unfold at_. by intros ->. Qed.

Lemma set_at_Ok {A} (v : list A) i x :
  i < length v → set_at v i x = Ok (<[i:=x]> v).
Proof. unfold set_at. intros. by rewrite decide_True. Qed.

Lemma take_S_insert {A} (l : list A) (k : nat) (x : A) :
  k < length l → take (S k) (<[k:=x]> l) = take k l ++ [x].
Proof.
  intros Hk. rewrite (take_S_r _ _ x) by (by apply list_lookup_insert_eq).
  by rewrite take_insert_ge by lia.
Qed.

Lemma drop_S_eq {A} (l k : list A) (i : nat) :
  drop i l = drop i k → drop (S i) l = drop (S i) k.
Proof.
  intros Heq. replace (S i) with (i + 1) by lia.
  rewrite <-!drop_drop. by rewrite Heq.
Qed.

Lemma lookup_of_drop_eq {A} (l k : list A) (i : nat) :
  drop i l = drop i k → l !! i = k !! i.
Proof.
  intros Heq. rewrite <-(Nat.add_0_r i), <-!lookup_drop. by rewrite Heq.
Qed.

Section Properties.
Context `{Utils}.

(** C10. [Feature::getHash] on a textual feature and a sample of the table
    is undefined exactly when the sample's token set is empty; otherwise,
    for every integer, it returns a hash of that sample's set, which
    [Feature::hasHash] then finds. *)
Theorem getHash_defined_iff_nonempty_and_member
    (f : Feature.t) (sampleIdx : nat) (integer : N) (hs : list uint32_t) :
  Feature.isTextual f = true →
  Feature.hashSet f !! sampleIdx = Some hs →
  (hs = [] → Feature.getHash f sampleIdx integer = Undefined) ∧
  (hs ≠ [] → ∃ h, Feature.getHash f sampleIdx integer = Ok h ∧ h ∈ hs ∧
                  Feature.hasHash f sampleIdx h = Ok true).
Proof.
  intros Htxt Hhs. unfold Feature.getHash, Feature.hasHash, at_.
  rewrite Htxt, Hhs. simpl. split.
  - intros ->. reflexivity.
  - intros Hne. destruct (decide (size hs = 0%N)) as [Hz|Hz].
    + destruct hs; [done|]. unfold size in Hz. simpl in Hz. lia.
    + assert (Hlt : N.to_nat (integer mod size hs) < length hs).
      { pose proof (N.mod_upper_bound integer (size hs) Hz) as Hb.
        unfold size in *. lia. }
      destruct (lookup_lt_is_Some_2 hs _ Hlt) as [h Hh].
      rewrite Hh. exists h. split; [done|].
      assert (h ∈ hs) by (eapply list_elem_of_lookup_2; done).
      split; [done|]. by rewrite bool_decide_eq_true_2.
Qed.

(** ** Contrast features *)

(** The state of the loop of [createContrasts] before turn [i]: the vector
    has its final length, the original features are in place and the
    contrasts below [i] are written. *)
Definition contrasts_inv (fs0 : list Feature.t) (n2i0 : gmap string nat)
    (i : nat) (s : list Feature.t * gmap string nat) : Prop :=
  length s.1 = 2 * length fs0 ∧
  (∀ k f, fs0 !! k = Some f →
     s.1 !! k = Some f ∧
     (length fs0 + k < i →
      s.1 !! (length fs0 + k) =
        Some (Treedata.with_name f (Feature.name f +:+ "_CONTRAST")))).

Lemma createContrasts_loop (fs0 : list Feature.t) (n2i0 : gmap string nat) :
  ∃ s, for_range (length fs0) (length fs0)
         (Treedata.createContrasts_body (length fs0))
         (resize (2 * length fs0) Feature.default fs0, n2i0) = Ok s ∧
       contrasts_inv fs0 n2i0 (length fs0 + length fs0) s.
Proof.
  apply (for_range_inv (contrasts_inv fs0 n2i0)).
  - split; simpl; [by rewrite length_resize|].
    intros k f Hk. split; [|intros; lia].
    apply lookup_lt_Some in Hk as Hlt. rewrite lookup_resize by lia. done.
  - intros i [fs n2i] Hi [Hlen Hinv]. simpl in *.
    destruct (lookup_lt_is_Some_2 fs0 (i - length fs0)) as [f Hf]; [lia|].
    destruct (Hinv _ _ Hf) as [Hfk _].
    unfold Treedata.createContrasts_body.
    rewrite (at_Ok _ _ _ Hfk). simpl.
    rewrite set_at_Ok by lia. simpl.
    rewrite (at_Ok _ i f) by (apply list_lookup_insert_eq; lia). simpl.
    rewrite set_at_Ok by (rewrite length_insert; lia). simpl.
    eexists; split; [done|]. split; simpl.
    + by rewrite !length_insert.
    + intros k g Hg. destruct (Hinv _ _ Hg) as [Hgk Hgc].
      pose proof (lookup_lt_Some _ _ _ Hg) as Hklt.
      split.
      * rewrite !list_lookup_insert_ne by lia. done.
      * intros Hlt. destruct (decide (length fs0 + k = i)) as [<-|Hne].
        -- rewrite list_lookup_insert_eq by (rewrite length_insert; lia).
           replace (length fs0 + k - length fs0) with k in Hf by lia.
           congruence.
        -- rewrite !list_lookup_insert_ne by lia. apply Hgc. lia.
Qed.

(** C7. [createContrasts] on a table with n features succeeds, and leaves
    2n features: every feature [i < n] is in place, the feature at [i + n]
    has the same data and its name with the suffix [_CONTRAST]; and with
    [useContrasts_] set, [nFeatures] reports n. *)
Theorem createContrasts_doubles (td : Treedata.t) :
  let n := length (Treedata.features_ td) in
  ∃ td', Treedata.createContrasts td = Ok td' ∧
    length (Treedata.features_ td') = 2 * n ∧
    (∀ i f, Treedata.features_ td !! i = Some f →
       Treedata.features_ td' !! i = Some f ∧
       ∃ c, Treedata.features_ td' !! (i + n) = Some c ∧
            Feature.data c = Feature.data f ∧
            Feature.name c = Feature.name f +:+ "_CONTRAST") ∧
    (Treedata.useContrasts_ td = true → Treedata.nFeatures td' = n).
Proof.
  intros n. unfold Treedata.createContrasts.
  destruct (createContrasts_loop (Treedata.features_ td)
              (Treedata.name2idx_ td)) as ([fs n2i] & -> & Hlen & Hinv).
  cbn [fst] in *. eexists; split; [done|].
  cbn [Treedata.features_ Treedata.useContrasts_]. split; [done|]. split.
  - intros i f Hf. destruct (Hinv _ _ Hf) as [Hi Hc]. split; [done|].
    pose proof (lookup_lt_Some _ _ _ Hf).
    eexists; split; [rewrite Nat.add_comm; apply Hc; lia|]. done.
  - intros Hu. unfold Treedata.nFeatures.
    cbn [Treedata.features_ Treedata.useContrasts_]. rewrite Hu, Hlen.
    fold n. replace (2 * n) with (n * 2) by lia. apply Nat.div_mul. lia.
Qed.

(** ** Missing-value filters *)

Lemma value_Ok (td : Treedata.t) fi F idx v :
  Treedata.features_ td !! fi = Some F → Feature.data F !! idx = Some v →
  Treedata.value td fi idx = Ok v.
Proof. intros HF Hv. unfold Treedata.value, at_. by rewrite HF; simpl; rewrite Hv. Qed.

Section PairFilter.
Variables (td : Treedata.t) (featureIdx1 featureIdx2 : nat).
Variables (F1 F2 : Feature.t) (ics0 : list nat).
Hypothesis HF1 : Treedata.features_ td !! featureIdx1 = Some F1.
Hypothesis HF2 : Treedata.features_ td !! featureIdx2 = Some F2.
Hypothesis Hrange :
  Forall (λ idx, idx < length (Feature.data F1) ∧
                 idx < length (Feature.data F2)) ics0.

Let d1 := Feature.data F1.
Let d2 := Feature.data F2.
Let keep (idx : nat) : Prop := real_at d1 idx ∧ real_at d2 idx.

(** Before turn [i]: the first [nReal] slots hold the kept indices among
    the first [i], with their values beside them; from [i] on [sampleIcs]
    is as it came in. *)
Definition pair_inv (i : nat)
    (s : list nat * list num_t * list num_t * nat) : Prop :=
  let '(ics, fd1, fd2, nReal) := s in
  length ics = length ics0 ∧ length fd1 = length ics0 ∧
  length fd2 = length ics0 ∧ nReal ≤ i ∧
  take nReal ics = filter keep (take i ics0) ∧
  drop i ics = drop i ics0 ∧
  Forall2 (λ idx v, d1 !! idx = Some v) (take nReal ics) (take nReal fd1) ∧
  Forall2 (λ idx v, d2 !! idx = Some v) (take nReal ics) (take nReal fd2).

Lemma pair_step i s :
  i < length ics0 → pair_inv i s →
  ∃ s', Treedata.getFilteredFeatureDataPair_body td featureIdx1 featureIdx2 i s
          = Ok s' ∧ pair_inv (S i) s'.
Proof using HF1 HF2 Hrange.
  destruct s as [[[ics fd1] fd2] nReal].
  intros Hi (Hl & Hl1 & Hl2 & Hle & Htake & Hdrop & Hv1 & Hv2).
  destruct (lookup_lt_is_Some_2 ics0 i Hi) as [idx Hidx].
  assert (Hic : ics !! i = Some idx)
    by (by rewrite (lookup_of_drop_eq _ _ _ Hdrop)).
  destruct (Forall_lookup_1 _ _ _ _ Hrange Hidx) as [Hr1 Hr2].
  destruct (lookup_lt_is_Some_2 _ _ Hr1) as [v1 Hx1].
  destruct (lookup_lt_is_Some_2 _ _ Hr2) as [v2 Hx2].
  unfold Treedata.getFilteredFeatureDataPair_body.
  rewrite (at_Ok _ _ _ Hic). cbn [mbind result_bind].
  rewrite (value_Ok _ _ _ _ _ HF1 Hx1), (value_Ok _ _ _ _ _ HF2 Hx2).
  cbn [mbind result_bind].
  pose proof (take_S_r _ _ _ Hidx) as Htk.
  destruct (isNAN v1) eqn:Hn1; [|destruct (isNAN v2) eqn:Hn2]; cbn [negb andb].
  - eexists; split; [done|]. unfold pair_inv.
    rewrite Htk, filter_app, filter_cons_False, app_nil_r.
    + repeat split; auto using drop_S_eq.
    + intros [(w & Hw & Hnw) _]. unfold d1 in Hw. congruence.
  - eexists; split; [done|]. unfold pair_inv.
    rewrite Htk, filter_app, filter_cons_False, app_nil_r.
    + repeat split; auto using drop_S_eq.
    + intros [_ (w & Hw & Hnw)]. unfold d2 in Hw. congruence.
  - rewrite !set_at_Ok by lia. cbn [mbind result_bind mret result_ret].
    eexists; split; [done|]. unfold pair_inv.
    rewrite Htk, filter_app, filter_cons_True by (split; eexists; eauto).
    rewrite filter_nil.
    rewrite !take_S_insert by lia. rewrite !length_insert.
    repeat split; try done.
    + lia.
    + by rewrite Htake.
    + rewrite drop_insert_lt by lia. by apply drop_S_eq.
    + apply Forall2_app; [done|]. by repeat constructor.
    + apply Forall2_app; [done|]. by repeat constructor.
Qed.

Lemma pair_loop fd1 fd2 :
  length fd1 = length ics0 → length fd2 = length ics0 →
  ∃ s, for_range 0 (length ics0)
         (Treedata.getFilteredFeatureDataPair_body td featureIdx1 featureIdx2)
         (ics0, fd1, fd2, 0) = Ok s ∧ pair_inv (length ics0) s.
Proof using HF1 HF2 Hrange.
  intros Hl1 Hl2.
  apply (for_range_inv pair_inv _ (length ics0) 0).
  - repeat split; try done. all: by constructor.
  - intros i s Hi. apply pair_step. lia.
Qed.

End PairFilter.

(** C3. On sample indices inside the data of both features,
    [getFilteredFeatureDataPair] returns; the index list it leaves is the
    input list without the indices at which either value is missing, in
    the input order; both value vectors have its length, and hold, place by
    place, the value of their feature at the retained index. *)
Theorem getFilteredFeatureDataPair_filters
    (td : Treedata.t) (featureIdx1 featureIdx2 : nat) (F1 F2 : Feature.t)
    (sampleIcs : list nat) (featureData1 featureData2 : list num_t) :
  Treedata.features_ td !! featureIdx1 = Some F1 →
  Treedata.features_ td !! featureIdx2 = Some F2 →
  Forall (λ idx, idx < length (Feature.data F1) ∧
                 idx < length (Feature.data F2)) sampleIcs →
  ∃ ics fd1 fd2,
    Treedata.getFilteredFeatureDataPair td featureIdx1 featureIdx2 sampleIcs
      featureData1 featureData2 = Ok (ics, fd1, fd2) ∧
    ics = filter (λ idx, real_at (Feature.data F1) idx ∧
                         real_at (Feature.data F2) idx) sampleIcs ∧
    (∀ idx, idx ∈ sampleIcs → idx ∉ ics →
       ∃ v1 v2, Feature.data F1 !! idx = Some v1 ∧
                Feature.data F2 !! idx = Some v2 ∧
                (isNAN v1 = true ∨ isNAN v2 = true)) ∧
    length fd1 = length ics ∧ length fd2 = length ics ∧
    Forall2 (λ idx v, Feature.data F1 !! idx = Some v) ics fd1 ∧
    Forall2 (λ idx v, Feature.data F2 !! idx = Some v) ics fd2.
Proof.
  intros HF1 HF2 Hrange. unfold Treedata.getFilteredFeatureDataPair.
  destruct (pair_loop td featureIdx1 featureIdx2 F1 F2 sampleIcs HF1 HF2 Hrange
              (resize (length sampleIcs) num_zero featureData1)
              (resize (length sampleIcs) num_zero featureData2))
    as ([[[ics fd1] fd2] nReal] & -> & Hinv); [by rewrite length_resize..|].
  destruct Hinv as (Hl & Hl1 & Hl2 & Hle & Htake & Hdrop & Hv1 & Hv2).
  cbn [mbind result_bind mret result_ret].
  rewrite !resize_le by lia. rewrite firstn_all in Htake.
  do 3 eexists. split; [done|]. split; [done|].
  repeat split; try done.
  - intros idx Hin Hout. rewrite Htake in Hout.
    destruct (proj1 (list_elem_of_lookup _ _) Hin) as [j Hj].
    destruct (Forall_lookup_1 _ _ _ _ Hrange Hj) as [Hr1 Hr2].
    destruct (lookup_lt_is_Some_2 _ _ Hr1) as [v1 Hx1].
    destruct (lookup_lt_is_Some_2 _ _ Hr2) as [v2 Hx2].
    exists v1, v2. do 2 (split; [done|]).
    destruct (isNAN v1) eqn:Hn1; [by left|].
    destruct (isNAN v2) eqn:Hn2; [by right|].
    exfalso. apply Hout. apply list_elem_of_filter. split; [|done].
    split; eexists; eauto.
  - rewrite !length_take. lia.
  - rewrite !length_take. lia.
Qed.

Section SingleFilter.
Variables (td : Treedata.t) (featureIdx : nat) (F : Feature.t).
Variable ics0 : list nat.
Hypothesis HF : Treedata.features_ td !! featureIdx = Some F.
Hypothesis Hrange : Forall (λ idx, idx < length (Feature.data F)) ics0.

Local Abbreviation D := (Feature.data F).

Definition single_inv (i : nat) (s : list num_t * list nat * nat) : Prop :=
  let '(fd, ics, nReal) := s in
  length ics = length ics0 ∧ length fd = length ics0 ∧ nReal ≤ i ∧
  take nReal ics = filter (real_at D) (take i ics0) ∧
  drop i ics = drop i ics0 ∧
  Forall2 (λ idx v, D !! idx = Some v) (take nReal ics) (take nReal fd).

Lemma single_step i s :
  i < length ics0 → single_inv i s →
  ∃ s', Treedata.getFilteredFeatureData_body td featureIdx i s = Ok s' ∧
        single_inv (S i) s'.
Proof using HF Hrange.
  destruct s as [[fd ics] nReal].
  intros Hi (Hl & Hlf & Hle & Htake & Hdrop & Hv).
  destruct (lookup_lt_is_Some_2 ics0 i Hi) as [idx Hidx].
  assert (Hic : ics !! i = Some idx)
    by (by rewrite (lookup_of_drop_eq _ _ _ Hdrop)).
  pose proof (Forall_lookup_1 _ _ _ _ Hrange Hidx) as Hr.
  destruct (lookup_lt_is_Some_2 _ _ Hr) as [v Hx].
  unfold Treedata.getFilteredFeatureData_body.
  rewrite (at_Ok _ _ _ Hic). cbn [mbind result_bind].
  rewrite (value_Ok _ _ _ _ _ HF Hx). cbn [mbind result_bind].
  pose proof (take_S_r _ _ _ Hidx) as Htk.
  destruct (isNAN v) eqn:Hn; cbn [negb].
  - eexists; split; [done|]. unfold single_inv.
    rewrite Htk, filter_app, filter_cons_False, app_nil_r.
    + repeat split; auto using drop_S_eq.
    + intros (w & Hw & Hnw). congruence.
  - rewrite !set_at_Ok by lia. cbn [mbind result_bind mret result_ret].
    eexists; split; [done|]. unfold single_inv.
    rewrite Htk, filter_app, filter_cons_True by (eexists; eauto).
    rewrite filter_nil.
    rewrite !take_S_insert by lia. rewrite !length_insert.
    repeat split; try done.
    + lia.
    + by rewrite Htake.
    + rewrite drop_insert_lt by lia. by apply drop_S_eq.
    + apply Forall2_app; [done|]. by repeat constructor.
Qed.

(** [getFilteredFeatureData] keeps the samples whose value is not missing,
    in order, and returns their values. *)
Lemma getFilteredFeatureData_filters :
  ∃ fd ics,
    Treedata.getFilteredFeatureData td featureIdx ics0 = Ok (fd, ics) ∧
    ics = filter (real_at D) ics0 ∧
    Forall2 (λ idx v, D !! idx = Some v) ics fd.
Proof using HF Hrange.
  unfold Treedata.getFilteredFeatureData.
  destruct (for_range_inv single_inv
              (Treedata.getFilteredFeatureData_body td featureIdx)
              (length ics0) 0 (replicate (length ics0) num_zero, ics0, 0))
    as ([[fd ics] nReal] & -> & Hinv).
  - repeat split; try done; try (by rewrite length_replicate); by constructor.
  - intros i s Hi. apply single_step. lia.
  - destruct Hinv as (Hl & Hlf & Hle & Htake & Hdrop & Hv).
    cbn [mbind result_bind mret result_ret Nat.add] in *.
    rewrite !resize_le by lia. rewrite firstn_all in Htake.
    do 2 eexists. split; [done|]. split; done.
Qed.

End SingleFilter.

(** ** Permuted contrasts *)

Lemma filter_ext_elem {A} (P Q : A → Prop) `{∀ x, Decision (P x)}
    `{∀ x, Decision (Q x)} (l : list A) :
  (∀ x, x ∈ l → P x ↔ Q x) → filter P l = filter Q l.
Proof.
  induction l as [|x l IH]; intros Hext; [done|].
  rewrite !filter_cons. rewrite IH by (intros y Hy; apply Hext; by right).
  destruct (decide (P x)) as [HP|HP], (decide (Q x)) as [HQ|HQ]; try done.
  - destruct HQ. apply Hext; [by left|done].
  - destruct HP. apply Hext; [by left|done].
Qed.



Lemma Forall2_lookup_functional {A B} (d : list B) (l : list A)
    (R : A → B → Prop) (a b : list B) :
  (∀ x y z, R x y → R x z → y = z) →
  Forall2 R l a → Forall2 R l b → a = b.
Proof.
  intros Hfun Ha. revert b. induction Ha as [|x y l a Hxy Ha IH];
    intros b Hb; inversion Hb; subst; [done|].
  f_equal; [by eapply Hfun|by apply IH].
Qed.







Section PermuteContrasts.
Context (Hpermute : PermuteLaw).
Variables (td0 : Treedata.t) (n : nat).
Hypothesis Hlen : length (Treedata.features_ td0) = 2 * n.
Hypothesis Hsamples :
  ∀ k f, n ≤ k → Treedata.features_ td0 !! k = Some f →
         length (Feature.data f) = Treedata.nSamples td0.




End PermuteContrasts.


(** ** Filtering and sorting by feature value *)

Lemma insert_stable_Permutation (inc : bool) (x : num_t * nat)
    (l : list (num_t * nat)) :
  insert_stable inc x l ≡ₚ x :: l.
Proof.
  induction l as [|y l IH]; [done|]. cbn [insert_stable].
  destruct (before inc y x); [|done]. rewrite IH. apply Permutation_swap.
Qed.

Lemma sort_stable_Permutation (inc : bool) (l : list (num_t * nat)) :
  sort_stable inc l ≡ₚ l.
Proof.
  induction l as [|x l IH]; [done|]. unfold sort_stable in *. cbn [foldr].
  by rewrite insert_stable_Permutation, IH.
Qed.

Lemma real_pairs_valid (d : list num_t) :
  ∀ start, Forall (λ p, start ≤ p.2 ∧ d !! (p.2 - start) = Some p.1 ∧
                        isNAN p.1 = false) (real_pairs start d).
Proof.
  induction d as [|v d IH]; intros start; cbn [real_pairs]; [constructor|].
  assert (Hrest : Forall (λ p, start ≤ p.2 ∧
                    (v :: d) !! (p.2 - start) = Some p.1 ∧
                    isNAN p.1 = false) (real_pairs (S start) d)).
  { eapply Forall_impl; [apply IH|]. intros [w k] (Hk & Hw & Hn). cbn in *.
    split; [lia|]. split; [|done].
    replace (k - start) with (S (k - S start)) by lia. done. }
  destruct (isNAN v) eqn:Hn; [done|]. constructor; [|done].
  cbn. rewrite Nat.sub_diag. done.
Qed.

Lemma real_pairs_snd (d : list num_t) :
  ∀ start, (real_pairs start d).*2 =
           filter (λ k, real_at d (k - start)) (seq start (length d)).
Proof.
  induction d as [|v d IH]; intros start; cbn [real_pairs length seq]; [done|].
  assert (Hrest : filter (λ k, real_at (v :: d) (k - start))
                    (seq (S start) (length d)) = (real_pairs (S start) d).*2).
  { rewrite IH. apply filter_ext_elem. intros k Hk%elem_of_seq.
    replace (k - start) with (S (k - S start)) by lia. done. }
  destruct (isNAN v) eqn:Hn.
  - rewrite filter_cons_False, Hrest; [done|].
    rewrite Nat.sub_diag. intros (w & Hw & Hnw). cbn in Hw. congruence.
  - rewrite fmap_cons, filter_cons_True, Hrest; [done|].
    rewrite Nat.sub_diag. by exists v.
Qed.

Lemma Forall_pairs_Forall2 (P : num_t → nat → Prop) (l : list (num_t * nat)) :
  Forall (λ p, P p.1 p.2) l → Forall2 (λ k v, P v k) l.*2 l.*1.
Proof. induction 1; by constructor. Qed.

Section Sorting.
Context (Hlaws : NumLaws).



Definition pair_le (a b : num_t * nat) : Prop := num_le a.1 b.1.

Lemma insert_stable_sorted (x : num_t * nat) (l : list (num_t * nat)) :
  isNAN x.1 = false → Forall (λ p, isNAN p.1 = false) l →
  StronglySorted pair_le l → StronglySorted pair_le (insert_stable true x l).
Proof using Hlaws.
  intros Hx Hl Hs. induction Hs as [|y l Hs IH Hy]; cbn [insert_stable].
  - by repeat constructor.
  - apply Forall_cons in Hl as [Hyn Hl]. unfold before.
    destruct (num_lt y.1 x.1) eqn:Hlt.
    + constructor; [by apply IH|].
      rewrite insert_stable_Permutation. constructor; [|done].
      unfold pair_le, num_le. by apply num_lt_asym.
    + constructor; [by constructor|]. constructor; [done|].
      rewrite Forall_forall in Hy, Hl. apply Forall_forall. intros z Hz.
      unfold pair_le, num_le in *.
      apply (num_le_trans _ y.1); auto.
Qed.

Lemma sort_stable_sorted (l : list (num_t * nat)) :
  Forall (λ p, isNAN p.1 = false) l →
  StronglySorted pair_le (sort_stable true l).
Proof using Hlaws.
  induction 1 as [|x l Hx Hl IH]; [constructor|].
  unfold sort_stable in *. cbn [foldr]. apply insert_stable_sorted; [done| |done].
  fold (sort_stable true l). by rewrite sort_stable_Permutation.
Qed.

(** What [filterSort] returns, in ascending order: the kept values, in
    order, and for each of them the position it came from. *)
Lemma filterSort_spec (d fd : list num_t) (refIcs : list nat) :
  filterSort true d = (fd, refIcs) →
  refIcs ≡ₚ filter (real_at d) (seq 0 (length d)) ∧
  Forall2 (λ k v, d !! k = Some v ∧ isNAN v = false) refIcs fd ∧
  StronglySorted num_le fd.
Proof using Hlaws.
  unfold filterSort. intros [= <- <-].
  pose proof (sort_stable_Permutation true (real_pairs 0 d)) as Hperm.
  pose proof (real_pairs_valid d 0) as Hvalid.
  split; [|split].
  - assert (Heq : filter (λ k, real_at d (k - 0)) (seq 0 (length d)) =
                  filter (real_at d) (seq 0 (length d))).
    { apply filter_ext_elem. intros k _. by rewrite Nat.sub_0_r. }
    by rewrite Hperm, real_pairs_snd, Heq.
  - apply (Forall_pairs_Forall2 (λ v k, d !! k = Some v ∧ isNAN v = false)).
    rewrite Hperm. eapply Forall_impl; [exact Hvalid|].
    intros [v k] (_ & Hv & Hn). cbn in *. by rewrite Nat.sub_0_r in Hv.
  - apply (StronglySorted_fmap fst pair_le); [done|].
    apply sort_stable_sorted. eapply Forall_impl; [exact Hvalid|].
    by intros p (_ & _ & Hn).
Qed.

End Sorting.

(** The positions of a vector that pass a test, in order, carry its
    elements that pass the matching test. *)
Lemma filter_positions {A} (l : list A) (P : nat → Prop) (Q : A → Prop)
    `{∀ k, Decision (P k)} `{∀ x, Decision (Q x)} :
  (∀ k x, l !! k = Some x → P k ↔ Q x) →
  Forall2 (λ k x, l !! k = Some x) (filter P (seq 0 (length l))) (filter Q l).
Proof.
  induction l as [|x l IH] using rev_ind; intros HPQ; [constructor|].
  rewrite length_app, Nat.add_1_r, seq_S. cbn [Nat.add length].
  rewrite !filter_app. apply Forall2_app.
  - eapply Forall2_impl; [apply IH|].
    + intros k y Hk. apply HPQ. rewrite lookup_app_l; [done|].
      by eapply lookup_lt_Some.
    + intros k y Hk. cbn beta in *. rewrite lookup_app_l; [done|].
      by eapply lookup_lt_Some.
  - assert (Hx : (l ++ [x]) !! length l = Some x)
      by (rewrite lookup_app_r, Nat.sub_diag by lia; done).
    destruct (decide (Q x)) as [HQ|HQ].
    + rewrite !filter_cons_True, !filter_nil; [by repeat constructor|done|].
      by apply (HPQ _ _ Hx).
    + rewrite !filter_cons_False, !filter_nil; [constructor|done|].
      by rewrite (HPQ _ _ Hx).
Qed.

(** [getFeatureData] returns the values of the feature at the samples. *)
Lemma getFeatureData_values (td : Treedata.t) (featureIdx : nat)
    (F : Feature.t) (ics : list nat) :
  Treedata.features_ td !! featureIdx = Some F →
  Forall (λ idx, idx < length (Feature.data F)) ics →
  ∃ vals, Treedata.getFeatureData td featureIdx ics = Ok vals ∧
          Forall2 (λ idx v, Feature.data F !! idx = Some v) ics vals.
Proof.
  intros HF Hrange. unfold Treedata.getFeatureData.
  destruct (for_range_inv
    (λ i (data : list num_t), length data = length ics ∧
       Forall2 (λ idx v, Feature.data F !! idx = Some v)
         (take i ics) (take i data))
    (λ i data, idx ← at_ ics i; v ← Treedata.value td featureIdx idx;
               set_at data i v)
    (length ics) 0 (replicate (length ics) num_zero))
    as (vals & -> & Hl & Hv).
  - split; [by rewrite length_replicate|constructor].
  - intros i data Hi [Hl Hv].
    destruct (lookup_lt_is_Some_2 ics i) as [idx Hidx]; [lia|].
    pose proof (Forall_lookup_1 _ _ _ _ Hrange Hidx) as Hr. cbn beta in Hr.
    destruct (lookup_lt_is_Some_2 _ _ Hr) as [v Hx].
    rewrite (at_Ok _ _ _ Hidx). cbn [mbind result_bind].
    rewrite (value_Ok _ _ _ _ _ HF Hx). cbn [mbind result_bind].
    rewrite set_at_Ok by lia. eexists; split; [done|].
    rewrite length_insert, take_S_insert, (take_S_r _ _ _ Hidx) by lia.
    split; [done|]. apply Forall2_app; [done|]. by repeat constructor.
  - exists vals. split; [done|]. cbn [Nat.add] in Hv.
    by rewrite firstn_all, <-Hl, firstn_all in Hv.
Qed.

Section Pair3.
Context (Hlaws : NumLaws).
Variables (td : Treedata.t) (targetIdx featureIdx : nat) (T F : Feature.t).
Variable ics0 : list nat.
Hypothesis HT : Treedata.features_ td !! targetIdx = Some T.
Hypothesis HF : Treedata.features_ td !! featureIdx = Some F.
Hypothesis Hrange :
  Forall (λ idx, idx < length (Feature.data T) ∧
                 idx < length (Feature.data F)) ics0.

(** [getFilteredAndSortedFeatureDataPair3] returns; it leaves the samples
    whose feature value is not missing, reordered so that their feature
    values ascend, with these values and the target values beside them. *)
Lemma getFilteredAndSortedFeatureDataPair3_spec :
  ∃ sorted tv fv,
    Treedata.getFilteredAndSortedFeatureDataPair3 td targetIdx featureIdx ics0
      = Ok (sorted, tv, fv) ∧
    sorted ≡ₚ filter (real_at (Feature.data F)) ics0 ∧
    Forall2 (λ idx v, Feature.data F !! idx = Some v ∧ isNAN v = false)
      sorted fv ∧
    StronglySorted num_le fv ∧
    Forall2 (λ idx v, Feature.data T !! idx = Some v) sorted tv.
Proof using Hlaws HT HF Hrange.
  unfold Treedata.getFilteredAndSortedFeatureDataPair3.
  destruct (getFeatureData_values td featureIdx F ics0 HF)
    as (data & -> & Hdata).
  { eapply Forall_impl; [exact Hrange|]. by intros idx [_ ?]. }
  cbn [mbind result_bind]. pose proof (Forall2_length _ _ _ Hdata) as Hdl.
  destruct (filterSort true data) as [fv refIcs] eqn:Hfs.
  apply (filterSort_spec Hlaws) in Hfs as (Hperm & Hpairs & Hsorted).
  assert (Hrl : length refIcs ≤ length ics0).
  { pose proof (length_filter (real_at data) (seq 0 (length data))) as Hlf.
    rewrite length_seq in Hlf. rewrite (Permutation_length Hperm). lia. }
  destruct (for_range_inv
    (λ i (cur : list nat), length cur = length ics0 ∧
       Forall2 (λ k idx, ics0 !! k = Some idx) (take i refIcs) (take i cur))
    (λ i sampleIcs, k ← at_ refIcs i; x ← at_ ics0 k; set_at sampleIcs i x)
    (length refIcs) 0 ics0) as (cur & -> & Hcl & Hcur).
  { split; [done|constructor]. }
  { intros i cur Hi [Hcl Hcur].
    destruct (lookup_lt_is_Some_2 refIcs i) as [k Hk]; [lia|].
    destruct (Forall2_lookup_l _ _ _ _ _ Hpairs Hk) as (v & _ & Hv & _).
    destruct (lookup_lt_is_Some_2 ics0 k) as [x Hx];
      [rewrite Hdl; by eapply lookup_lt_Some|].
    rewrite (at_Ok _ _ _ Hk). cbn [mbind result_bind].
    rewrite (at_Ok _ _ _ Hx). cbn [mbind result_bind].
    rewrite set_at_Ok by lia. eexists; split; [done|].
    rewrite length_insert, take_S_insert, (take_S_r _ _ _ Hk) by lia.
    split; [done|]. apply Forall2_app; [done|]. by repeat constructor. }
  cbn [mbind result_bind Nat.add] in *. rewrite firstn_all in Hcur.
  rewrite resize_le by lia. set (sorted := take (length refIcs) cur) in *.
  assert (Hsf : Forall2 (λ idx v, Feature.data F !! idx = Some v ∧
                                  isNAN v = false) sorted fv).
  { apply Forall2_same_length_lookup. split.
    - rewrite <-(Forall2_length _ _ _ Hcur). by eapply Forall2_length.
    - intros j idx v Hidx Hv.
      destruct (Forall2_lookup_r _ _ _ _ _ Hcur Hidx) as (k & Hk & Hki).
      destruct (Forall2_lookup_l _ _ _ _ _ Hpairs Hk) as (v' & Hv' & Hkv & Hn).
      assert (v' = v) as -> by congruence. split; [|done].
      destruct (Forall2_lookup_l _ _ _ _ _ Hdata Hki) as (w & Hw & Hiw).
      cbn beta in *. congruence. }
  assert (Hsp : sorted ≡ₚ filter (real_at (Feature.data F)) ics0).
  { destruct (Permutation_Forall2 Hperm Hcur) as (l' & Hl' & Hpos).
    rewrite Hl'.
    assert (Heq : l' = filter (real_at (Feature.data F)) ics0);
      [|by rewrite Heq].
    eapply (Forall2_lookup_functional ics0); [|exact Hpos|].
    - intros; cbn beta in *; congruence.
    - rewrite <-Hdl. apply filter_positions. intros k idx Hk.
      destruct (Forall2_lookup_l _ _ _ _ _ Hdata Hk) as (w & Hw & Hiw).
      cbn beta in *. unfold real_at. rewrite Hw, Hiw. done. }
  destruct (getFeatureData_values td targetIdx T sorted HT)
    as (tv & -> & Htv).
  { apply Forall_forall. intros idx Hin. rewrite Hsp in Hin.
    apply list_elem_of_filter in Hin as [_ Hin].
    rewrite Forall_forall in Hrange. by apply Hrange. }
  cbn [mbind result_bind mret result_ret]. by exists sorted, tv, fv.
Qed.

End Pair3.

(** ** The split on a numerical feature *)




(** C2, as the code has it. When no boundary is admissible, because fewer
    than [2 * minSamples] samples are left or because the search leaves the
    best index at [MAX_IDX], [numericalFeatureSplit] returns 0, empties the
    left list and leaves [splitValue] alone; the right list holds the
    samples whose feature value is not missing, each as often as it came
    in, in ascending order of their feature values. *)
Theorem numericalFeatureSplit_no_boundary
    (Hlaws : NumLaws) (td : Treedata.t) (targetIdx featureIdx : nat)
    (minSamples : N) (sampleIcs_left sampleIcs_right : list nat)
    (splitValue : num_t) (T F : Feature.t) :
  Treedata.features_ td !! targetIdx = Some T →
  Treedata.features_ td !! featureIdx = Some F →
  Forall (λ idx, idx < length (Feature.data T) ∧
                 idx < length (Feature.data F)) sampleIcs_right →
  ∃ sorted tv fv,
    Treedata.getFilteredAndSortedFeatureDataPair3 td targetIdx featureIdx
      sampleIcs_right = Ok (sorted, tv, fv) ∧
    sorted ≡ₚ filter (real_at (Feature.data F)) sampleIcs_right ∧
    Forall2 (λ idx v, Feature.data F !! idx = Some v ∧ isNAN v = false)
      sorted fv ∧
    StronglySorted num_le fv ∧
    ((size fv < size_t_mul 2 minSamples)%N ∨
     (search T tv fv minSamples MAX_IDX).2 = MAX_IDX →
     Treedata.numericalFeatureSplit td targetIdx featureIdx minSamples
       sampleIcs_left sampleIcs_right splitValue
     = Ok (num_zero, [], sorted, splitValue)).
Proof.
  intros HT HF Hrange.
  destruct (getFilteredAndSortedFeatureDataPair3_spec Hlaws td targetIdx
              featureIdx T F sampleIcs_right HT HF Hrange)
    as (sorted & tv & fv & Hp3 & Hperm & Hfv & Hsorted & Htv).
  exists sorted, tv, fv. do 4 (split; [done|]).
  intros Hnone. unfold Treedata.numericalFeatureSplit.
  rewrite Hp3. cbn [mbind result_bind].
  destruct (decide (size fv < size_t_mul 2 minSamples)%N) as [Hsmall|Hbig];
    [done|].
  destruct Hnone as [?|Hnone]; [done|].
  unfold Treedata.isFeatureNumerical. rewrite (at_Ok _ _ _ HT).
  cbn [mbind result_bind mret result_ret]. unfold search in Hnone.
  destruct (Feature.isNumerical T); by rewrite decide_True.
Qed.


(** ** Bootstrap samples *)

Lemma StronglySorted_seq (j n : nat) : StronglySorted lt (seq j n).
Proof.
  revert j. induction n as [|n IH]; intros j; cbn [seq]; constructor; [done|].
  apply Forall_forall. intros k Hk%elem_of_seq. lia.
Qed.

Lemma StronglySorted_filter {A} (R : relation A) (P : A → Prop)
    `{∀ x, Decision (P x)} (l : list A) :
  StronglySorted R l → StronglySorted R (filter P l).
Proof.
  induction 1 as [|x l Hs IH Hx]; [constructor|].
  rewrite filter_cons. destruct (decide (P x)); [|done].
  constructor; [done|]. rewrite Forall_forall in Hx. apply Forall_forall.
  intros y [_ Hy]%list_elem_of_filter. by apply Hx.
Qed.

Lemma filter_all {A} (P : A → Prop) `{∀ x, Decision (P x)} (l : list A) :
  Forall P l → filter P l = l.
Proof. induction 1; [done|]. rewrite filter_cons_True by done. by f_equal. Qed.

Lemma filter_none {A} (P : A → Prop) `{∀ x, Decision (P x)} (l : list A) :
  Forall (λ x, ¬ P x) l → filter P l = [].
Proof. induction 1; [done|]. by rewrite filter_cons_False. Qed.

Lemma set_difference_nil_r (l1 : list nat) : set_difference l1 [] = l1.
Proof. by destruct l1. Qed.

Lemma set_difference_cons (x y : nat) (l1 l2 : list nat) :
  set_difference (x :: l1) (y :: l2) =
  if decide (x < y) then x :: set_difference l1 (y :: l2)
  else if decide (y < x) then set_difference (x :: l1) l2
  else set_difference l1 l2.
Proof. done. Qed.

(** On ascending ranges, the first without repetition,
    [std::set_difference] keeps the elements of the first that are not in
    the second. *)
Lemma set_difference_spec (l1 : list nat) :
  StronglySorted lt l1 →
  ∀ l2, StronglySorted le l2 →
        set_difference l1 l2 = filter (λ x, x ∉ l2) l1.
Proof.
  induction 1 as [|x l1 Hs1 IH1 Hx]; intros l2 Hs2; [done|].
  rewrite Forall_forall in Hx.
  induction Hs2 as [|y l2 Hs2 IH2 Hy].
  - rewrite set_difference_nil_r, filter_all; [done|].
    apply Forall_forall. intros z _. apply not_elem_of_nil.
  - rewrite Forall_forall in Hy. rewrite set_difference_cons.
    destruct (decide (x < y)) as [Hxy|Hxy];
      [|destruct (decide (y < x)) as [Hyx|Hyx]].
    + rewrite IH1 by (by constructor; [|apply Forall_forall]).
      rewrite filter_cons_True; [done|].
      intros [->|Hin]%elem_of_cons; [lia|]. apply Hy in Hin. lia.
    + rewrite IH2. apply filter_ext_elem. intros z Hz.
      rewrite not_elem_of_cons.
      assert (x ≤ z) by (apply elem_of_cons in Hz as [->|Hz];
                           [lia|apply Hx in Hz; lia]).
      split; [intros ?; split; [lia|done]|by intros [_ ?]].
    + assert (x = y) as -> by lia. rewrite IH1 by done.
      rewrite filter_cons_False by (intros Hn; apply Hn; by left).
      apply filter_ext_elem. intros z Hz. rewrite not_elem_of_cons.
      apply Hx in Hz. split; [intros ?; split; [lia|done]|by intros [_ ?]].
Qed.

(** Every position of a vector, in order, carries the vector. *)
Lemma lookup_all_positions {A} (l : list A) :
  Forall2 (λ k x, l !! k = Some x) (seq 0 (length l)) l.
Proof.
  apply Forall2_same_length_lookup. split; [by rewrite length_seq|].
  intros i k x Hk Hx. apply lookup_seq in Hk as [-> _]. done.
Qed.

Lemma realSamples_sorted (td : Treedata.t) (F : Feature.t) :
  StronglySorted lt (realSamples td F).
Proof. apply StronglySorted_filter, StronglySorted_seq. Qed.

Lemma collectReal_loop (td : Treedata.t) (featureIdx : nat) (F : Feature.t) :
  Treedata.features_ td !! featureIdx = Some F →
  Treedata.nSamples td ≤ length (Feature.data F) →
  for_range 0 (Treedata.nSamples td)
    (Treedata.collectReal_body td featureIdx) [] = Ok (realSamples td F).
Proof.
  intros HF Hlen.
  destruct (for_range_inv
    (λ i (acc : list nat), acc = filter (real_at (Feature.data F)) (seq 0 i))
    (Treedata.collectReal_body td featureIdx) (Treedata.nSamples td) 0 [])
    as (acc & -> & ->); [done| |done].
  intros i acc Hi ->.
  destruct (lookup_lt_is_Some_2 (Feature.data F) i) as [v Hv]; [lia|].
  unfold Treedata.collectReal_body.
  rewrite (value_Ok _ _ _ _ _ HF Hv). cbn [mbind result_bind].
  rewrite seq_S, filter_app. cbn [Nat.add].
  destruct (isNAN v) eqn:Hn; cbn [negb]; (eexists; split; [done|]).
  - rewrite filter_cons_False, filter_nil, app_nil_r; [done|].
    intros (w & Hw & Hnw). congruence.
  - rewrite filter_cons_True, filter_nil; [done|]. by exists v.
Qed.

Lemma drawWith_loop (real ics : list nat) (random : Random) (k : nat) :
  length ics = k → k = 0 ∨ real ≠ [] →
  ∃ drawn random',
    for_range 0 k (Treedata.drawWith_body real) (ics, random)
      = Ok (drawn, random') ∧
    length drawn = k ∧ Forall (λ x, x ∈ real) drawn.
Proof.
  intros Hl Hne.
  destruct (for_range_inv
    (λ i (s : list nat * Random),
       length s.1 = k ∧ Forall (λ x, x ∈ real) (take i s.1))
    (Treedata.drawWith_body real) k 0 (ics, random))
    as ([drawn random'] & -> & Hdl & Hd).
  - split; [done|constructor].
  - intros i [cur rnd] Hi [Hcl Hc]. cbn [fst] in *.
    unfold Treedata.drawWith_body.
    destruct (random_integer rnd) as [r rnd'].
    assert (Hsz : size real ≠ 0%N).
    { destruct Hne as [->|Hne]; [lia|]. destruct real; [done|].
      unfold size. cbn [length]. lia. }
    rewrite decide_False by done.
    destruct (lookup_lt_is_Some_2 real (N.to_nat (r mod size real)))
      as [x Hx].
    { pose proof (N.mod_upper_bound r (size real) Hsz). unfold size in *. lia. }
    rewrite (at_Ok _ _ _ Hx). cbn [mbind result_bind].
    rewrite set_at_Ok by lia. cbn [mbind result_bind mret result_ret].
    eexists; split; [done|]. cbn [fst].
    rewrite length_insert, take_S_insert by lia. split; [done|].
    apply Forall_app. split; [done|]. constructor; [|done].
    by eapply list_elem_of_lookup_2.
  - cbn [fst Nat.add] in *. exists drawn, random'. split; [done|].
    split; [done|]. by rewrite <-Hdl, firstn_all in Hd.
Qed.

Lemma drawWithout_loop (foo real ics : list nat) (k : nat) :
  length ics = k → k ≤ length foo →
  Forall (λ j, j < length real) foo →
  ∃ drawn,
    for_range 0 k (Treedata.drawWithout_body foo real) ics = Ok drawn ∧
    length drawn = k ∧
    Forall2 (λ j x, real !! j = Some x) (take k foo) drawn.
Proof.
  intros Hl Hk Hfoo.
  destruct (for_range_inv
    (λ i (cur : list nat), length cur = k ∧
       Forall2 (λ j x, real !! j = Some x) (take i foo) (take i cur))
    (Treedata.drawWithout_body foo real) k 0 ics) as (drawn & -> & Hdl & Hd).
  - split; [done|constructor].
  - intros i cur Hi [Hcl Hc]. unfold Treedata.drawWithout_body.
    destruct (lookup_lt_is_Some_2 foo i) as [j Hj]; [lia|].
    pose proof (Forall_lookup_1 _ _ _ _ Hfoo Hj) as Hjr. cbn beta in Hjr.
    destruct (lookup_lt_is_Some_2 real j Hjr) as [x Hx].
    rewrite (at_Ok _ _ _ Hj). cbn [mbind result_bind].
    rewrite (at_Ok _ _ _ Hx). cbn [mbind result_bind].
    rewrite set_at_Ok by lia. eexists; split; [done|].
    rewrite length_insert, take_S_insert, (take_S_r _ _ _ Hj) by lia.
    split; [done|]. apply Forall2_app; [done|]. by repeat constructor.
  - cbn [Nat.add] in *. exists drawn. split; [done|]. split; [done|].
    by rewrite <-Hdl, firstn_all, Hdl in Hd.
Qed.

Lemma StronglySorted_lt_le (l : list nat) :
  StronglySorted lt l → StronglySorted le l.
Proof.
  induction 1 as [|x l Hs IH Hx]; constructor; [done|].
  eapply Forall_impl; [exact Hx|]. intros; lia.
Qed.

Lemma std_sort_sorted (l : list nat) : StronglySorted le (std_sort l).
Proof. apply (StronglySorted_merge_sort le); apply _. Qed.

Lemma std_sort_Permutation (l : list nat) : std_sort l ≡ₚ l.
Proof. apply (merge_sort_Permutation le). Qed.

Section Bootstrap.
Context (Hpermute : PermuteLaw).
Variables (td : Treedata.t) (featureIdx : nat) (F : Feature.t).
Variables (random : Random) (withReplacement : bool) (sampleSize : num_t).
Variables (ics0 oobIcs0 : list nat).
Hypothesis HF : Treedata.features_ td !! featureIdx = Some F.
Hypothesis Hlen : Treedata.nSamples td ≤ length (Feature.data F).

Local Abbreviation real := (realSamples td F).

(** One run of [bootstrapFromRealSamples], in terms of the drawn samples
    before they are sorted. *)
Lemma bootstrap_run :
  num_lt num_zero sampleSize = true →
  (if withReplacement then (drawCount td F sampleSize) = 0 ∨ real ≠ []
   else num_lt num_one sampleSize = false ∧ (drawCount td F sampleSize) ≤ length real) →
  ∃ drawn random',
    Treedata.bootstrapFromRealSamples td random withReplacement sampleSize
      featureIdx ics0 oobIcs0
    = Ok (std_sort drawn, filter (λ i, i ∉ std_sort drawn) real, random') ∧
    length drawn = (drawCount td F sampleSize) ∧
    Forall (λ x, x ∈ real) drawn ∧
    (withReplacement = false →
     ∃ foo, foo ≡ₚ seq 0 (length real) ∧
            Forall2 (λ j x, real !! j = Some x) (take (drawCount td F sampleSize) foo) drawn).
Proof using HF Hlen Hpermute.
  intros Hpos Hok. unfold Treedata.bootstrapFromRealSamples.
  rewrite Hpos. cbn [assert mbind result_bind].
  assert (Hguard : negb withReplacement && num_lt num_one sampleSize = false).
  { destruct withReplacement; [done|]. by destruct Hok as [-> _]. }
  rewrite Hguard, (collectReal_loop _ _ _ HF Hlen). cbn [mbind result_bind].
  fold (drawCount td F sampleSize).
  assert (Hrest : ∀ (drawn : list nat) (random' : Random),
    length drawn = (drawCount td F sampleSize) → Forall (λ x, x ∈ real) drawn →
    (let ics := std_sort drawn in
     let oobIcs :=
       if decide ((drawCount td F sampleSize) < N.to_nat (size real))
       then resize (N.to_nat (size real)) 0 oobIcs0
       else resize (drawCount td F sampleSize) 0 oobIcs0 in
     let diff := set_difference real ics in
     if decide (length diff ≤ length oobIcs)
     then mret (ics, resize (length diff) 0
                       (diff ++ drop (length diff) oobIcs), random')
     else Undefined)
    = Ok (std_sort drawn, filter (λ i, i ∉ std_sort drawn) real, random')).
  { intros drawn random' Hdl Hdr. cbn zeta.
    rewrite (set_difference_spec _ (realSamples_sorted td F) _
               (std_sort_sorted drawn)).
    pose proof (length_filter (λ i, i ∉ std_sort drawn) real) as Hfl.
    rewrite decide_True.
    - by rewrite resize_app.
    - unfold size. rewrite Nat2N.id.
      destruct (decide ((drawCount td F sampleSize) < length real));
        rewrite length_resize; lia. }
  destruct withReplacement.
  - destruct (drawWith_loop real (resize (drawCount td F sampleSize) 0 ics0) random (drawCount td F sampleSize))
      as (drawn & random' & -> & Hdl & Hdr);
      [by rewrite length_resize|done|].
    cbn [mbind result_bind]. exists drawn, random'.
    rewrite Hrest by done. by repeat split.
  - destruct Hok as [_ Hk].
    pose proof (permute_Permutation _ (range (N.to_nat (size real))) random)
      as Hfoo.
    destruct (permute (range (N.to_nat (size real))) random)
      as [foo random'] eqn:Hp. cbn [fst] in Hfoo.
    unfold size, range in Hfoo. rewrite Nat2N.id in Hfoo.
    destruct (drawWithout_loop foo real (resize (drawCount td F sampleSize) 0 ics0) (drawCount td F sampleSize))
      as (drawn & -> & Hdl & Hd).
    + by rewrite length_resize.
    + by rewrite (Permutation_length Hfoo), length_seq.
    + apply Forall_forall. intros j Hj. rewrite Hfoo in Hj.
      apply elem_of_seq in Hj. lia.
    + cbn [mbind result_bind mret result_ret]. exists drawn, random'.
      assert (Hdr : Forall (λ x, x ∈ real) drawn).
      { apply Forall_forall. intros x [i Hi]%list_elem_of_lookup.
        destruct (Forall2_lookup_r _ _ _ _ _ Hd Hi) as (j & _ & Hj).
        by eapply list_elem_of_lookup_2. }
      rewrite Hrest by done. repeat split; try done.
      intros _. by exists foo.
Qed.

End Bootstrap.

(** C8. [bootstrapFromRealSamples] on a feature with a value for every
    sample. With a positive fraction and a count of draws the real samples
    allow, it returns that many real samples in ascending order, and as
    out-of-bag list the real samples that were not drawn, in ascending
    order. Without replacement and with fraction 1.0 it returns all real
    samples, ascending, and an empty out-of-bag list. *)
Theorem bootstrapFromRealSamples_in_bag_and_out_of_bag
    (Hlaws : NumLaws) (Hpermute : PermuteLaw)
    (td : Treedata.t) (featureIdx : nat) (F : Feature.t) (random : Random)
    (withReplacement : bool) (sampleSize : num_t) (ics oobIcs : list nat) :
  Treedata.features_ td !! featureIdx = Some F →
  Treedata.nSamples td ≤ length (Feature.data F) →
  let real := realSamples td F in
  let k := drawCount td F sampleSize in
  (num_lt num_zero sampleSize = true →
   (if withReplacement then k = 0 ∨ real ≠ []
    else num_lt num_one sampleSize = false ∧ k ≤ length real) →
   ∃ inBag outOfBag random',
     Treedata.bootstrapFromRealSamples td random withReplacement sampleSize
       featureIdx ics oobIcs = Ok (inBag, outOfBag, random') ∧
     length inBag = k ∧ StronglySorted le inBag ∧
     Forall (λ x, x ∈ real) inBag ∧
     outOfBag = filter (λ i, i ∉ inBag) real ∧
     StronglySorted lt outOfBag) ∧
  (withReplacement = false → sampleSize = num_one →
   (size real < 2 ^ 53)%N →
   ∃ random',
     Treedata.bootstrapFromRealSamples td random withReplacement sampleSize
       featureIdx ics oobIcs = Ok (real, [], random')).
Proof.
  intros HF Hlen real k. split.
  - intros Hpos Hok.
    destruct (bootstrap_run Hpermute td featureIdx F random withReplacement
                sampleSize ics oobIcs HF Hlen Hpos Hok)
      as (drawn & random' & -> & Hdl & Hdr & _).
    do 3 eexists. split; [done|]. split; [|split; [|split; [|split]]].
    + by rewrite (Permutation_length (std_sort_Permutation drawn)).
    + apply std_sort_sorted.
    + by rewrite std_sort_Permutation.
    + done.
    + apply StronglySorted_filter, realSamples_sorted.
  - intros -> -> Hbound.
    assert (Hk : k = length real).
    { unfold k, drawCount. rewrite (floor_one_mul _ Hbound).
      unfold size. by rewrite Nat2N.id. }
    destruct (bootstrap_run Hpermute td featureIdx F random false num_one
                ics oobIcs HF Hlen)
      as (drawn & random' & -> & Hdl & Hdr & Hfoo).
    { apply num_zero_lt_one. }
    { split; [|change (k ≤ length real); lia].
      destruct (num_lt num_one num_one) eqn:Hlt; [|done].
      by rewrite (num_lt_asym _ _ Hlt) in Hlt. }
    destruct (Hfoo eq_refl) as (foo & Hperm & Hd).
    change (drawCount td F num_one) with k in Hd.
    change (realSamples td F) with real in Hperm, Hd, Hdr.
    assert (Hkf : k = length foo)
      by (by rewrite Hk, (Permutation_length Hperm), length_seq).
    rewrite Hkf, firstn_all in Hd.
    destruct (Permutation_Forall2 Hperm Hd) as (l' & Hl' & Hpos).
    assert (l' = real) as ->.
    { eapply (Forall2_lookup_functional real); [|exact Hpos|].
      - intros; cbn beta in *; congruence.
      - apply lookup_all_positions. }
    assert (Hsorted : std_sort drawn = real).
    { apply (StronglySorted_unique le); [apply std_sort_sorted| |].
      - apply StronglySorted_lt_le, realSamples_sorted.
      - by rewrite std_sort_Permutation. }
    exists random'. rewrite Hsorted. change (realSamples td F) with real.
    rewrite (filter_none (λ i, i ∉ real) real); [done|].
    apply Forall_forall. tauto.
Qed.

(** ** Construction *)

(** A textual feature has no numeric data. *)
Lemma ofStrings_textual (newStringData : list string) (newName : string) :
  Feature.isTextual (Feature.ofStrings newStringData newName true) = true ∧
  Feature.data (Feature.ofStrings newStringData newName true) = [].
Proof. done. Qed.

(** The loop of the constructor from features either finds a feature
    whose sample count differs and fails that assertion, or ends with all
    sample counts checked. *)
Lemma ofFeatures_loop (features : list Feature.t) (nSamples : nat) :
  ∀ (count start : nat) (n2i : gmap string nat),
    start + count ≤ length features →
    (∃ n2i', for_range start count
               (Treedata.ofFeatures_body features nSamples) n2i = Ok n2i' ∧
             ∀ i f, start ≤ i < start + count → features !! i = Some f →
                    length (Feature.data f) = nSamples) ∨
    for_range start count (Treedata.ofFeatures_body features nSamples) n2i
      = AssertFail "features_[featureIdx].data.size() == nSamples".
Proof.
  induction count as [|count IH]; intros start n2i Hlen; cbn [for_range].
  - left. eexists; split; [done|]. intros; lia.
  - destruct (lookup_lt_is_Some_2 features start) as [f Hf]; [lia|].
    assert (Hbody : Treedata.ofFeatures_body features nSamples start n2i =
      if bool_decide (length (Feature.data f) = nSamples)
      then Ok (<[Feature.name f := start]> n2i)
      else AssertFail "features_[featureIdx].data.size() == nSamples").
    { unfold Treedata.ofFeatures_body. rewrite (at_Ok _ _ _ Hf).
      cbn [mbind result_bind]. unfold assert. by case_bool_decide. }
    rewrite Hbody.
    destruct (bool_decide_reflect (length (Feature.data f) = nSamples))
      as [Heq|Hne]; cbn [mbind result_bind mret result_ret]; [|by right].
    destruct (IH (S start) (<[Feature.name f := start]> n2i)) as
      [(n2i' & Hr & Hall)|Hr]; [lia| |by right].
    left. exists n2i'. split; [done|]. intros i g Hi Hg.
    destruct (decide (i = start)) as [->|]; [congruence|].
    apply (Hall i); [lia|done].
Qed.

(** C5. A vector of features that holds a textual feature built by the
    constructor of [Feature] is refused by the constructor of the table:
    one of its two assertions on the sample count fails. *)
Theorem ofFeatures_textual_fails (features : list Feature.t)
    (useContrasts : bool) (sampleHeaders newStringData : list string)
    (newName : string) :
  Feature.ofStrings newStringData newName true ∈ features →
  Treedata.ofFeatures features useContrasts sampleHeaders
    = AssertFail "features_[featureIdx].data.size() == nSamples" ∨
  Treedata.ofFeatures features useContrasts sampleHeaders
    = AssertFail "nSamples > 0".
Proof.
  intros Hin. apply list_elem_of_lookup in Hin as [k Hk].
  pose proof (lookup_lt_Some _ _ _ Hk) as Hlt.
  unfold Treedata.ofFeatures, assert.
  rewrite bool_decide_eq_true_2 by lia. cbn [mbind result_bind].
  destruct (lookup_lt_is_Some_2 features 0) as [f0 Hf0]; [lia|].
  rewrite (at_Ok _ _ _ Hf0). cbn [mbind result_bind].
  destruct (ofFeatures_loop features (length (Feature.data f0))
              (length features) 0 ∅) as [(n2i & -> & Hall)| ->];
    [lia| |by left].
  right. cbn [mbind result_bind].
  rewrite <-(Hall k _ ltac:(lia) Hk). done.
Qed.

(** The loop of the constructor from a file, on headers that repeat a
    name, stops at the second occurrence with the duplicate-header
    message. [seen] is what [name2idx_] holds before turn [i]. *)
Definition seen (featureHeaders : list string) (n : nat) (i : nat)
    (s : list Feature.t * gmap string nat) : Prop :=
  length s.1 = n ∧ ∀ h, is_Some (s.2 !! h) ↔ h ∈ take i featureHeaders.

Lemma ofFile_loop (rawMatrix : list (list string))
    (featureHeaders : list string) (featureTypes : list Feature.Type_) :
  length featureHeaders ≤ length featureTypes →
  length featureHeaders ≤ length rawMatrix →
  Forall (λ ty, ty ≠ Feature.UNKNOWN) featureTypes →
  ∀ (count start : nat) (s : list Feature.t * gmap string nat),
    start + count ≤ length featureHeaders →
    seen featureHeaders (length featureHeaders) start s →
    NoDup (take start featureHeaders) →
    (∃ s', for_range start count
             (Treedata.ofFile_body rawMatrix featureHeaders featureTypes) s
             = Ok s' ∧
           NoDup (take (start + count) featureHeaders)) ∨
    (∃ h, for_range start count
            (Treedata.ofFile_body rawMatrix featureHeaders featureTypes) s
            = Exit ("Duplicate feature header '" +:+ h +:+ "' found!")).
Proof.
  intros Hty Hraw Hknown.
  induction count as [|count IH]; intros start [fs n2i] Hlen [Hfs Hseen] Hnd.
  - left. eexists; split; [done|]. by rewrite Nat.add_0_r.
  - cbn [for_range fst snd] in *.
    destruct (lookup_lt_is_Some_2 featureHeaders start) as [h Hh]; [lia|].
    destruct (lookup_lt_is_Some_2 featureTypes start) as [ty Hx]; [lia|].
    destruct (lookup_lt_is_Some_2 rawMatrix start) as [raw Hr]; [lia|].
    pose proof (Forall_lookup_1 _ _ _ _ Hknown Hx) as Hk.
    set (loop := for_range (S start) count
                   (Treedata.ofFile_body rawMatrix featureHeaders featureTypes)).
    unfold Treedata.ofFile_body. rewrite (at_Ok _ _ _ Hh).
    cbn [mbind result_bind].
    destruct (decide (is_Some (n2i !! h))) as [Hdup|Hnew].
    { right. by exists h. }
    rewrite (at_Ok _ _ _ Hx). cbn [mbind result_bind].
    assert (Hnext : ∀ fs', length fs' = length featureHeaders →
      (∃ s', loop (fs', <[h:=start]> n2i) = Ok s' ∧
             NoDup (take (start + S count) featureHeaders)) ∨
      (∃ h', loop (fs', <[h:=start]> n2i)
               = Exit ("Duplicate feature header '" +:+ h' +:+ "' found!"))).
    { intros fs' Hfs'. unfold loop.
      replace (start + S count) with (S start + count) by lia.
      apply IH; [lia| |].
      - split; [done|]. intros h'. cbn [snd].
        rewrite (take_S_r _ _ _ Hh), elem_of_app, list_elem_of_singleton.
        rewrite <-Hseen. destruct (decide (h = h')) as [->|Hne].
        + rewrite lookup_insert_eq. split; eauto.
        + rewrite lookup_insert_ne by done. split; [by left|].
          intros [?|?]; [done|congruence].
      - rewrite (take_S_r _ _ _ Hh). apply NoDup_app. split; [done|].
        split; [|apply NoDup_singleton].
        intros h' Hin ->%list_elem_of_singleton. apply Hnew. by apply Hseen. }
    destruct ty; [done|..]; rewrite (at_Ok _ _ _ Hr); cbn [mbind result_bind];
      rewrite set_at_Ok by lia; cbn [mbind result_bind mret result_ret];
      apply Hnext; by rewrite length_insert.
Qed.

(** The constructor from a file refuses headers in which a name occurs
    twice. *)
Lemma ofFile_rejects_duplicate_headers (rawMatrix : list (list string))
    (featureHeaders : list string) (featureTypes : list Feature.Type_)
    (sampleHeaders : list string) (useContrasts : bool) :
  length featureHeaders ≤ length featureTypes →
  length featureHeaders ≤ length rawMatrix →
  Forall (λ ty, ty ≠ Feature.UNKNOWN) featureTypes →
  ¬ NoDup featureHeaders →
  ∃ h, Treedata.ofFile rawMatrix featureHeaders featureTypes sampleHeaders
         useContrasts
       = Exit ("Duplicate feature header '" +:+ h +:+ "' found!").
Proof.
  intros Hty Hraw Hknown Hdup. unfold Treedata.ofFile.
  destruct (ofFile_loop rawMatrix featureHeaders featureTypes Hty Hraw Hknown
              (length featureHeaders) 0
              (resize (length featureHeaders) Feature.default [], ∅))
    as [(s' & _ & Hnd)|[h ->]].
  - lia.
  - split; cbn [fst snd]; [by rewrite length_resize|]. intros h. cbn [take].
    rewrite lookup_empty. split; [by intros [? ?]|by intros ?%elem_of_nil].
  - constructor.
  - cbn [Nat.add] in Hnd. rewrite firstn_all in Hnd. done.
  - by exists h.
Qed.

(** ** The split on a hash token *)

Section TextualSplit.
Variables (td : Treedata.t) (targetIdx featureIdx : nat) (hashIdx : uint32_t).
Variables (F T : Feature.t) (ics0 : list nat).
Hypothesis HF : Treedata.features_ td !! featureIdx = Some F.
Hypothesis HT : Treedata.features_ td !! targetIdx = Some T.
Hypothesis Hrange :
  Forall (λ idx, idx < length (Feature.hashSet F) ∧
                 idx < length (Feature.data T)) ics0.

Local Abbreviation has := (has_token F hashIdx).

(** Before turn [i]: the samples among the first [i] that have the token
    fill the first [n_left] slots of the left list, the others the first
    [n_right] slots of the right list, which from [i] on is as it came in. *)
Definition split_inv (i : nat) (left right : list nat) (n_left n_right : nat)
    : Prop :=
  length left = length ics0 ∧ length right = length ics0 ∧
  n_left + n_right = i ∧
  take n_left left = filter has (take i ics0) ∧
  take n_right right = filter (λ idx, ¬ has idx) (take i ics0) ∧
  drop i right = drop i ics0.

Lemma split_step_left i left right n_left n_right idx :
  i < length ics0 → ics0 !! i = Some idx → has idx →
  split_inv i left right n_left n_right →
  split_inv (S i) (<[n_left:=idx]> left) right (S n_left) n_right.
Proof.
  intros Hi Hidx Hhas (Hl & Hr & Hn & Htl & Htr & Hd).
  unfold split_inv. rewrite (take_S_r _ _ _ Hidx), !filter_app.
  rewrite filter_cons_True, filter_cons_False, !filter_nil, app_nil_r
    by (done || tauto).
  rewrite take_S_insert, length_insert by lia.
  repeat split; try done; [lia|by rewrite Htl|by apply drop_S_eq].
Qed.

Lemma split_step_right i left right n_left n_right idx :
  i < length ics0 → ics0 !! i = Some idx → ¬ has idx →
  split_inv i left right n_left n_right →
  split_inv (S i) left (<[n_right:=idx]> right) n_left (S n_right).
Proof.
  intros Hi Hidx Hhas (Hl & Hr & Hn & Htl & Htr & Hd).
  unfold split_inv. rewrite (take_S_r _ _ _ Hidx), !filter_app.
  rewrite filter_cons_False, filter_cons_True, !filter_nil, app_nil_r
    by (done || tauto).
  rewrite take_S_insert, length_insert by lia.
  repeat split; try done; [lia|by rewrite Htr|].
  rewrite drop_insert_lt by lia. by apply drop_S_eq.
Qed.

(** What a turn reads, for a sample of the list. *)
Lemma token_and_target_Ok idx :
  idx ∈ ics0 →
  ∃ x, Treedata.token_and_target td targetIdx featureIdx hashIdx idx
       = Ok (bool_decide (has idx), x).
Proof using HF HT Hrange.
  intros Hin. rewrite Forall_forall in Hrange.
  destruct (Hrange idx Hin) as [Hh Hx].
  destruct (lookup_lt_is_Some_2 _ _ Hh) as [hs Hhs].
  destruct (lookup_lt_is_Some_2 _ _ Hx) as [x Hxv].
  exists x. unfold Treedata.token_and_target, Treedata.value.
  rewrite (at_Ok _ _ _ HF), (at_Ok _ _ _ HT). cbn [mbind result_bind].
  rewrite (at_Ok _ _ _ Hhs), (at_Ok _ _ _ Hxv).
  cbn [mbind result_bind mret result_ret]. do 2 f_equal.
  apply bool_decide_ext. unfold has_token. split.
  - intros Hin'. eauto.
  - intros (hs' & Heq & Hin'). congruence.
Qed.

Lemma textual_regr_step i s :
  i < length ics0 →
  split_inv i (Treedata.r_left s) (Treedata.r_right s)
    (Treedata.r_n_left s) (Treedata.r_n_right s) →
  ∃ s', Treedata.textual_regr_body td targetIdx featureIdx hashIdx
          (length ics0) i s = Ok s' ∧
        split_inv (S i) (Treedata.r_left s') (Treedata.r_right s')
          (Treedata.r_n_left s') (Treedata.r_n_right s').
Proof using HF HT Hrange.
  intros Hi Hinv. pose proof Hinv as (Hl & Hr & Hn & _ & _ & Hd).
  destruct (lookup_lt_is_Some_2 ics0 i Hi) as [idx Hidx].
  assert (Hri : Treedata.r_right s !! i = Some idx)
    by (by rewrite (lookup_of_drop_eq _ _ _ Hd)).
  destruct (token_and_target_Ok idx) as [x Hx];
    [by eapply list_elem_of_lookup_2|].
  unfold Treedata.textual_regr_body.
  rewrite (at_Ok _ _ _ Hri). cbn [mbind result_bind]. rewrite Hx.
  cbn [mbind result_bind]. case_bool_decide as Hhas.
  - rewrite set_at_Ok by lia. cbn [mbind result_bind].
    eexists; split; [done|]. by apply split_step_left.
  - rewrite set_at_Ok by lia. cbn [mbind result_bind].
    eexists; split; [done|]. by apply split_step_right.
Qed.

Lemma textual_class_step i s :
  i < length ics0 →
  split_inv i (Treedata.c_left s) (Treedata.c_right s)
    (Treedata.c_n_left s) (Treedata.c_n_right s) →
  ∃ s', Treedata.textual_class_body td targetIdx featureIdx hashIdx i s
          = Ok s' ∧
        split_inv (S i) (Treedata.c_left s') (Treedata.c_right s')
          (Treedata.c_n_left s') (Treedata.c_n_right s').
Proof using HF HT Hrange.
  intros Hi Hinv. pose proof Hinv as (Hl & Hr & Hn & _ & _ & Hd).
  destruct (lookup_lt_is_Some_2 ics0 i Hi) as [idx Hidx].
  assert (Hri : Treedata.c_right s !! i = Some idx)
    by (by rewrite (lookup_of_drop_eq _ _ _ Hd)).
  destruct (token_and_target_Ok idx) as [x Hx];
    [by eapply list_elem_of_lookup_2|].
  unfold Treedata.textual_class_body.
  rewrite (at_Ok _ _ _ Hri). cbn [mbind result_bind]. rewrite Hx.
  cbn [mbind result_bind].
  destruct (incrementSquaredFrequency x _ (Treedata.c_sf_tot s)) as [ft st].
  case_bool_decide as Hhas.
  - rewrite set_at_Ok by lia. cbn [mbind result_bind].
    destruct (incrementSquaredFrequency x _ _) as [fl sl].
    eexists; split; [done|]. by apply split_step_left.
  - rewrite set_at_Ok by lia. cbn [mbind result_bind].
    destruct (incrementSquaredFrequency x _ _) as [fr sr].
    eexists; split; [done|]. by apply split_step_right.
Qed.

Lemma split_inv_start left :
  length left = length ics0 → split_inv 0 left ics0 0 0.
Proof. intros Hl. by repeat split. Qed.

End TextualSplit.

(** What the invariant gives when the loop is over. *)
Lemma split_inv_end (F : Feature.t) (hashIdx : uint32_t) (ics0 : list nat)
    (left right : list nat) (n_left n_right : nat) :
  split_inv hashIdx F ics0 (length ics0) left right n_left n_right →
  length left = length ics0 ∧ length right = length ics0 ∧
  length ics0 = n_left + n_right ∧
  take n_left left = filter (has_token F hashIdx) ics0 ∧
  take n_right right = filter (λ idx, ¬ has_token F hashIdx idx) ics0 ∧
  n_left = length (filter (has_token F hashIdx) ics0) ∧
  n_right = length (filter (λ idx, ¬ has_token F hashIdx idx) ics0).
Proof.
  intros (Hl & Hr & Hn & Htl & Htr & _). rewrite firstn_all in Htl, Htr.
  repeat split; try done.
  - rewrite <-Htl, length_take. lia.
  - rewrite <-Htr, length_take. lia.
Qed.

(** C9. On samples inside the token sets of the textual feature and the
    data of the target, [textualFeatureSplit] returns. If one side of the
    partition by membership of the token has fewer than [minSamples]
    samples, the returned decrease is 0 and the two lists are left
    unshrunk, at the length of the input, with the side's samples in front.
    Otherwise the left list is exactly the input samples whose token set
    holds the hash, the right list the others, both in input order, and
    their lengths add up to the input length. *)
Theorem textualFeatureSplit_partitions
    (td : Treedata.t) (targetIdx featureIdx : nat) (hashIdx : uint32_t)
    (minSamples : N) (sampleIcs_left sampleIcs_right : list nat)
    (F T : Feature.t) :
  Treedata.features_ td !! featureIdx = Some F →
  Feature.isTextual F = true →
  Treedata.features_ td !! targetIdx = Some T →
  Forall (λ idx, idx < length (Feature.hashSet F) ∧
                 idx < length (Feature.data T)) sampleIcs_right →
  let L := filter (has_token F hashIdx) sampleIcs_right in
  let R := filter (λ idx, ¬ has_token F hashIdx idx) sampleIcs_right in
  let small := (N.of_nat (length L) < minSamples ∨
                N.of_nat (length R) < minSamples)%N in
  ∃ DI left right,
    Treedata.textualFeatureSplit td targetIdx featureIdx hashIdx minSamples
      sampleIcs_left sampleIcs_right = Ok (DI, left, right) ∧
    (small →
       DI = num_zero ∧
       length left = length sampleIcs_right ∧
       length right = length sampleIcs_right ∧
       take (length L) left = L ∧ take (length R) right = R) ∧
    (¬ small →
       left = L ∧ right = R ∧
       length left + length right = length sampleIcs_right).
Proof.
  intros HF Htxt HT Hrange L R small.
  unfold Treedata.textualFeatureSplit, Treedata.isFeatureNumerical.
  rewrite (at_Ok _ _ _ HF). cbn [mbind result_bind]. rewrite Htxt.
  cbn [mbind result_bind assert]. rewrite (at_Ok _ _ _ HT).
  cbn [mbind result_bind mret result_ret].
  assert (Hfinish : ∀ (DI : num_t) left right n_left n_right,
    split_inv hashIdx F sampleIcs_right (length sampleIcs_right)
      left right n_left n_right →
    ∃ DI' left' right',
      (_ ← assert (bool_decide (length sampleIcs_right = n_left + n_right))
             "n_tot == n_left + n_right";
       if decide (N.of_nat n_left < minSamples ∨
                  N.of_nat n_right < minSamples)%N
       then mret (num_zero, left, right)
       else mret (DI, resize n_left 0 left, resize n_right 0 right))
      = Ok (DI', left', right') ∧
      (small → DI' = num_zero ∧ length left' = length sampleIcs_right ∧
               length right' = length sampleIcs_right ∧
               take (length L) left' = L ∧ take (length R) right' = R) ∧
      (¬ small → left' = L ∧ right' = R ∧
                 length left' + length right' = length sampleIcs_right)).
  { intros DI left right n_left n_right Hinv.
    apply split_inv_end in Hinv as (Hl & Hr & Hn & Htl & Htr & Hnl & Hnr).
    fold L in Htl, Hnl. fold R in Htr, Hnr.
    unfold assert. rewrite bool_decide_eq_true_2 by done.
    cbn [mbind result_bind mret result_ret]. subst n_left n_right.
    fold small. destruct (decide small) as [Hs|Hs].
    - do 3 eexists. split; [done|]. split; [done|]. by intros [].
    - do 3 eexists. split; [done|]. split; [by intros ?|]. intros _.
      rewrite !resize_le by lia. rewrite Htl, Htr. repeat split. lia. }
  destruct (Feature.isNumerical T).
  - destruct (for_range_inv
      (λ i s, split_inv hashIdx F sampleIcs_right i
                (Treedata.r_left s) (Treedata.r_right s)
                (Treedata.r_n_left s) (Treedata.r_n_right s))
      (Treedata.textual_regr_body td targetIdx featureIdx hashIdx
         (length sampleIcs_right))
      (length sampleIcs_right) 0
      (Treedata.mk_regr (resize (length sampleIcs_right) 0 sampleIcs_left)
         sampleIcs_right 0 0 num_zero num_zero num_zero))
      as (s & -> & Hinv).
    + apply split_inv_start. simpl. by rewrite length_resize.
    + intros i s Hi. by apply (textual_regr_step td targetIdx featureIdx
                                 hashIdx F T); [..|lia].
    + cbn [mbind result_bind mret result_ret]. by apply Hfinish.
  - destruct (for_range_inv
      (λ i s, split_inv hashIdx F sampleIcs_right i
                (Treedata.c_left s) (Treedata.c_right s)
                (Treedata.c_n_left s) (Treedata.c_n_right s))
      (Treedata.textual_class_body td targetIdx featureIdx hashIdx)
      (length sampleIcs_right) 0
      (Treedata.mk_class (resize (length sampleIcs_right) 0 sampleIcs_left)
         sampleIcs_right 0 0 [] [] [] 0 0 0))
      as (s & -> & Hinv).
    + apply split_inv_start. simpl. by rewrite length_resize.
    + intros i s Hi. by apply (textual_class_step td targetIdx featureIdx
                                 hashIdx F T); [..|lia].
    + cbn [mbind result_bind mret result_ret]. by apply Hfinish.
Qed.

End Properties.

(** * Further properties *)

(** ** Feature headers *)

Lemma header_kind_checks (str : string) (d : Ascii.ascii) :
  Treedata.isValidNumericalHeader str d
    = bool_decide (header_kind str d = Some Feature.NUM) ∧
  Treedata.isValidCategoricalHeader str d
    = bool_decide (header_kind str d = Some Feature.CAT) ∧
  Treedata.isValidTextHeader str d
    = bool_decide (header_kind str d = Some Feature.TXT).
Proof.
  unfold Treedata.isValidNumericalHeader, Treedata.isValidCategoricalHeader,
    Treedata.isValidTextHeader, Treedata.char_is.
  destruct str as [|c0 [|c1 rest]]; [done|done|].
  cbn [String.length String.get header_kind].
  rewrite decide_True by lia.
  destruct (decide (c1 = d)) as [->|Hd].
  - rewrite (bool_decide_eq_true_2 (Some d = Some d)) by done.
    rewrite !andb_true_r.
    destruct (decide (c0 = "N"%char)) as [->|HN]; [done|].
    rewrite (bool_decide_eq_false_2 (Some c0 = Some "N"%char)) by congruence.
    destruct (decide (c0 = "C"%char ∨ c0 = "B"%char)) as [[->| ->]|HC];
      [done|done|].
    rewrite (bool_decide_eq_false_2 (Some c0 = Some "C"%char)),
      (bool_decide_eq_false_2 (Some c0 = Some "B"%char))
      by (intros [= ->]; tauto).
    destruct (decide (c0 = "T"%char)) as [->|HT]; [done|].
    by rewrite (bool_decide_eq_false_2 (Some c0 = Some "T"%char))
      by congruence.
  - rewrite (bool_decide_eq_false_2 (Some c1 = Some d)) by congruence.
    by rewrite !andb_false_r.
Qed.

(** X1. The three header tests exclude one another, and a header passes
    [isValidFeatureHeader] exactly when it has at least two characters, the
    second the delimiter and the first one of N, C, B, T. *)
Theorem header_tests_exclusive (str : string) (d : Ascii.ascii) :
  (Treedata.isValidFeatureHeader str d = true ↔
   ∃ c0 rest, str = String c0 (String d rest) ∧
              c0 ∈ ["N"; "C"; "B"; "T"]%char) ∧
  ¬ (Treedata.isValidNumericalHeader str d = true ∧
     Treedata.isValidCategoricalHeader str d = true) ∧
  ¬ (Treedata.isValidNumericalHeader str d = true ∧
     Treedata.isValidTextHeader str d = true) ∧
  ¬ (Treedata.isValidCategoricalHeader str d = true ∧
     Treedata.isValidTextHeader str d = true).
Proof.
  unfold Treedata.isValidFeatureHeader.
  destruct (header_kind_checks str d) as (-> & -> & ->).
  split; [|repeat split; intros [H1 H2];
           apply bool_decide_eq_true in H1, H2; congruence].
  rewrite !orb_true_iff, !bool_decide_eq_true. split.
  - intros Hk. assert (is_Some (header_kind str d)) as [ty Hty]
      by (destruct Hk as [[?|?]|?]; eauto).
    clear Hk. destruct str as [|c0 [|c1 rest]]; [done|done|].
    cbn [header_kind] in Hty. destruct (decide (c1 = d)) as [->|]; [|done].
    exists c0, rest. split; [done|]. rewrite !elem_of_cons.
    destruct (decide (c0 = "N"%char)); [tauto|].
    destruct (decide (c0 = "C"%char ∨ c0 = "B"%char)); [tauto|].
    destruct (decide (c0 = "T"%char)); [tauto|done].
  - intros (c0 & rest & -> & Hc). cbn [header_kind].
    rewrite decide_True by done. rewrite !elem_of_cons in Hc.
    destruct Hc as [->|[->|[->|[->|[]%elem_of_nil]]]]; cbn; tauto.
Qed.

(** The typing loop of [readAFM] either types every header or stops at the
    first header without a type. *)
Lemma readAFM_types_loop (headers : list string) (d : Ascii.ascii) :
  ∀ (count start : nat) (types : list Feature.Type_),
    start + count ≤ length headers → length types = length headers →
    Forall2 (λ h ty, header_kind h d = Some ty)
      (take start headers) (take start types) →
    (∃ types', for_range start count
                 (Treedata.readAFM_types_body headers d) types = Ok types' ∧
               length types' = length headers ∧
               Forall2 (λ h ty, header_kind h d = Some ty)
                 (take (start + count) headers)
                 (take (start + count) types')) ∨
    (∃ i h, start ≤ i < start + count ∧ headers !! i = Some h ∧
            header_kind h d = None ∧
            (∀ j h', start ≤ j < i → headers !! j = Some h' →
                     is_Some (header_kind h' d)) ∧
            for_range start count
              (Treedata.readAFM_types_body headers d) types
            = Exit ("ERROR: unknown feature type with feature header '"
                    +:+ h +:+ "'")).
Proof.
  induction count as [|count IH]; intros start types Hlen Htl Hdone.
  - left. exists types. rewrite Nat.add_0_r. by cbn.
  - cbn [for_range].
    destruct (lookup_lt_is_Some_2 headers start) as [h Hh]; [lia|].
    set (loop := for_range (S start) count
                   (Treedata.readAFM_types_body headers d)).
    unfold Treedata.readAFM_types_body.
    rewrite (at_Ok _ _ _ Hh). cbn [mbind result_bind].
    destruct (header_kind_checks h d) as (-> & -> & ->).
    assert (Hstep : ∀ ty, header_kind h d = Some ty →
      (∃ types', loop (<[start:=ty]> types) = Ok types' ∧
                 length types' = length headers ∧
                 Forall2 (λ h ty, header_kind h d = Some ty)
                   (take (start + S count) headers)
                   (take (start + S count) types')) ∨
      (∃ i h0, start ≤ i < start + S count ∧ headers !! i = Some h0 ∧
               header_kind h0 d = None ∧
               (∀ j h', start ≤ j < i → headers !! j = Some h' →
                        is_Some (header_kind h' d)) ∧
               loop (<[start:=ty]> types)
               = Exit ("ERROR: unknown feature type with feature header '"
                       +:+ h0 +:+ "'"))).
    { intros ty Hty. unfold loop.
      destruct (IH (S start) (<[start:=ty]> types)) as
        [(types' & Hr & Hl' & Hall)|(i & h0 & Hi & Hh0 & Hk & Hbefore & Hr)].
      - lia.
      - by rewrite length_insert.
      - rewrite (take_S_r _ _ _ Hh), take_S_insert by lia.
        apply Forall2_app; [done|]. by repeat constructor.
      - left. exists types'. replace (start + S count) with (S start + count)
          by lia. done.
      - right. exists i, h0. split; [lia|]. do 2 (split; [done|]).
        split; [|done]. intros j h' Hj Hh'.
        destruct (decide (j = start)) as [->|Hne].
        + assert (h' = h) as -> by congruence. eauto.
        + apply (Hbefore j); [lia|done]. }
    destruct (header_kind h d) as [[| | |]|] eqn:Hk.
    + exfalso. destruct h as [|c0 [|c1 r]]; try done. cbn in Hk.
      repeat case_decide; done.
    + rewrite bool_decide_eq_true_2 by done. rewrite set_at_Ok by lia.
      cbn [mbind result_bind]. by apply Hstep.
    + rewrite bool_decide_eq_false_2, bool_decide_eq_true_2 by done.
      rewrite set_at_Ok by lia. cbn [mbind result_bind]. by apply Hstep.
    + rewrite !bool_decide_eq_false_2, bool_decide_eq_true_2 by done.
      rewrite set_at_Ok by lia. cbn [mbind result_bind]. by apply Hstep.
    + rewrite !bool_decide_eq_false_2 by done.
      right. exists start, h. split; [lia|]. do 2 (split; [done|]).
      split; [intros; lia|done].
Qed.

(** X2. The end of [readAFM] types every feature by its header, as
    numerical, categorical or textual and never as unknown, when every
    header is a feature header; otherwise it exits with the first header
    that is none. *)
Theorem readAFM_types_classifies (zero : Feature.Type_)
    (headers : list string) (d : Ascii.ascii) :
  (Forall (λ h, Treedata.isValidFeatureHeader h d = true) headers →
   ∃ types, Treedata.readAFM_types zero headers d = Ok types ∧
            Forall2 (λ h ty, header_kind h d = Some ty) headers types ∧
            Forall (λ ty, ty ≠ Feature.UNKNOWN) types) ∧
  (∀ i h, headers !! i = Some h →
          Treedata.isValidFeatureHeader h d = false →
          Forall (λ h', Treedata.isValidFeatureHeader h' d = true)
            (take i headers) →
          Treedata.readAFM_types zero headers d
          = Exit ("ERROR: unknown feature type with feature header '"
                  +:+ h +:+ "'")).
Proof.
  assert (Hvalid : ∀ h, Treedata.isValidFeatureHeader h d = true ↔
                        is_Some (header_kind h d)).
  { intros h. unfold Treedata.isValidFeatureHeader.
    destruct (header_kind_checks h d) as (-> & -> & ->).
    rewrite !orb_true_iff, !bool_decide_eq_true. split.
    - intros [[?|?]|?]; eauto.
    - intros [[| | |] Hk]; [|tauto..].
      destruct h as [|c0 [|c1 r]]; try done. cbn in Hk.
      repeat case_decide; done. }
  unfold Treedata.readAFM_types.
  destruct (readAFM_types_loop headers d (length headers) 0
              (resize (length headers) zero []))
    as [(types & Hr & Hl & Hall)|(i & h & Hi & Hh & Hk & Hbefore & Hr)];
    [lia|by rewrite length_resize|constructor| |].
  - cbn [Nat.add] in Hall. rewrite firstn_all, <-Hl, firstn_all in Hall.
    split.
    + intros _. exists types. split; [done|]. split; [done|].
      apply Forall_forall. intros ty [j Hj]%list_elem_of_lookup ->.
      destruct (Forall2_lookup_r _ _ _ _ _ Hall Hj) as (h & _ & Hk).
      destruct h as [|c0 [|c1 r]]; try done. cbn in Hk.
      repeat case_decide; done.
    + intros i h Hh Hinv _. exfalso.
      destruct (Forall2_lookup_l _ _ _ _ _ Hall Hh) as (ty & _ & Hk).
      assert (Treedata.isValidFeatureHeader h d = true)
        by (apply Hvalid; eauto). congruence.
  - split.
    + intros Hallv. exfalso.
      pose proof (Forall_lookup_1 _ _ _ _ Hallv Hh) as Hv. cbn beta in Hv.
      apply Hvalid in Hv as [ty Hty]. congruence.
    + intros i' h' Hh' Hinv Hbefore'. rewrite Hr.
      assert (i' = i) as ->; [|congruence].
      destruct (Nat.lt_trichotomy i' i) as [Hlt|[->|Hgt]]; [|done|].
      * destruct (Hbefore i' h') as [ty Hty]; [lia|done|].
        assert (Treedata.isValidFeatureHeader h' d = true)
          by (apply Hvalid; eauto). congruence.
      * assert (Hin : take i' headers !! i = Some h)
          by (by rewrite lookup_take_lt).
        pose proof (Forall_lookup_1 _ _ _ _ Hbefore' Hin) as Hv.
        cbn beta in Hv. apply Hvalid in Hv as [ty Hty]. congruence.
Qed.

(** ** The name index *)

(** An invariant that every successful turn re-establishes holds when the
    loop succeeds. *)
Lemma for_range_inv_Ok {St} (I : nat → St → Prop)
    (body : nat → St → result St) (count : nat) :
  ∀ (start : nat) (s s' : St),
    I start s →
    (∀ i s s', start ≤ i < start + count → I i s → body i s = Ok s' →
               I (S i) s') →
    for_range start count body s = Ok s' → I (start + count) s'.
Proof.
  induction count as [|count IH]; intros start s s' Hs Hbody Hrun.
  - cbn in Hrun. injection Hrun as <-. by rewrite Nat.add_0_r.
  - cbn [for_range] in Hrun. destruct (body start s) as [s1| | |] eqn:Hb;
      try done. cbn [mbind result_bind] in Hrun.
    replace (start + S count) with (S start + count) by lia.
    apply (IH (S start) s1); [|intros i t t' Hi; apply Hbody; lia|done].
    apply (Hbody start s); [lia|done..].
Qed.

Lemma last_index_snoc (names : list string) (x s : string) (i : nat) :
  last_index (names ++ [x]) s i ↔
  (s = x ∧ i = length names) ∨ (s ≠ x ∧ last_index names s i).
Proof.
  unfold last_index. split.
  - intros [Hi Hlast]. destruct (decide (s = x)) as [->|Hne].
    + left. split; [done|]. pose proof (lookup_lt_Some _ _ _ Hi) as Hlt.
      rewrite length_app in Hlt. cbn in Hlt.
      destruct (decide (i = length names)) as [|Hn]; [done|].
      exfalso. apply (Hlast (length names)); [lia|].
      by rewrite lookup_app_r, Nat.sub_diag by lia.
    + right. split; [done|].
      assert (Hlt : i < length names).
      { pose proof (lookup_lt_Some _ _ _ Hi) as Hlt.
        rewrite length_app in Hlt. cbn in Hlt.
        destruct (decide (i = length names)) as [->|]; [|lia].
        rewrite lookup_app_r, Nat.sub_diag in Hi by lia. cbn in Hi.
        congruence. }
      rewrite lookup_app_l in Hi by done. split; [done|].
      intros j Hj Hs. apply (Hlast j Hj).
      rewrite lookup_app_l; [done|]. by eapply lookup_lt_Some.
  - intros [[-> ->]|[Hne [Hi Hlast]]].
    + split; [by rewrite lookup_app_r, Nat.sub_diag by lia|].
      intros j Hj Hs. apply lookup_lt_Some in Hs.
      rewrite length_app in Hs. cbn in Hs. lia.
    + split; [by apply lookup_app_l_Some|].
      intros j Hj Hs. destruct (decide (j < length names)) as [Hlt|Hge].
      * rewrite lookup_app_l in Hs by done. by apply (Hlast j).
      * rewrite lookup_app_r in Hs by lia.
        assert (Hz : j - length names = 0)
          by (apply lookup_lt_Some in Hs; cbn in Hs; lia).
        rewrite Hz in Hs. cbn in Hs. congruence.
Qed.

(** X3. When the constructor from features returns a table without
    contrasts, the table holds the features given, each with one value for
    every sample of the table, and its name index sends
    every name to the last feature of that name; [getFeatureIdx] then finds
    a feature with a unique name at its position, and returns [end()] for a
    name no feature has. *)
Theorem ofFeatures_name_index `{MoreUtils} (features : list Feature.t)
    (sampleHeaders : list string) (td : Treedata.t) (end_ : nat) :
  Treedata.ofFeatures features false sampleHeaders = Ok td →
  Treedata.features_ td = features ∧
  (∀ f, f ∈ features →
        length (Feature.data f) = Treedata.nSamples td) ∧
  0 < Treedata.nSamples td ∧
  (∀ s i, Treedata.name2idx_ td !! s = Some i ↔
          last_index (Feature.name <$> features) s i) ∧
  (∀ s i, last_index (Feature.name <$> features) s i →
          Treedata.getFeatureIdx end_ td s = i) ∧
  (∀ s, s ∉ Feature.name <$> features →
        Treedata.getFeatureIdx end_ td s = end_).
Proof.
  unfold Treedata.ofFeatures, assert. intros Hrun.
  destruct (bool_decide_reflect (0 < length features)) as [Hn|]; [|done].
  cbn [mbind result_bind] in Hrun.
  destruct (features !! 0) as [f0|] eqn:Hf0;
    [rewrite (at_Ok _ _ _ Hf0) in Hrun|by unfold at_ in Hrun; rewrite Hf0 in Hrun].
  cbn [mbind result_bind] in Hrun.
  destruct (for_range 0 (length features) _ ∅) as [n2i| | |] eqn:Hloop;
    try done. cbn [mbind result_bind] in Hrun.
  destruct (bool_decide_reflect (0 < length (Feature.data f0))) as [Hpos|];
    [|done].
  cbn [mbind result_bind] in Hrun.
  case_bool_decide as Hsh; [|done].
  cbn [mbind result_bind mret result_ret] in Hrun. injection Hrun as <-.
  cbn [Treedata.features_ Treedata.name2idx_ Treedata.nSamples
       Treedata.sampleHeaders_].
  pose proof (for_range_inv_Ok
    (λ i (m : gmap string nat),
       (∀ s k, m !! s = Some k ↔
               last_index (take i (Feature.name <$> features)) s k) ∧
       ∀ k f, k < i → features !! k = Some f →
              length (Feature.data f) = length (Feature.data f0))
    (Treedata.ofFeatures_body features (length (Feature.data f0)))
    (length features) 0 ∅ n2i) as Hinv.
  destruct Hinv as [Hmap Hlens]; [| |exact Hloop|].
  - split; [|intros; lia]. intros s k. rewrite lookup_empty. split; [done|].
    by intros [? _].
  - intros i m m' Hi [Hm Hl] Hbody.
    unfold Treedata.ofFeatures_body, assert in Hbody.
    destruct (lookup_lt_is_Some_2 features i) as [f Hf]; [lia|].
    rewrite (at_Ok _ _ _ Hf) in Hbody. cbn [mbind result_bind] in Hbody.
    case_bool_decide as Hfl; [|done].
    cbn [mbind result_bind mret result_ret] in Hbody. injection Hbody as <-.
    split.
    + intros s k.
      assert (Hnm : (Feature.name <$> features) !! i = Some (Feature.name f))
        by (by rewrite list_lookup_fmap, Hf).
      rewrite (take_S_r _ _ _ Hnm), last_index_snoc.
      rewrite length_take, length_fmap, Nat.min_l by lia.
      destruct (decide (s = Feature.name f)) as [->|Hne].
      * rewrite lookup_insert_eq. split; [intros [= <-]; by left|].
        intros [[_ ->]|[? _]]; done.
      * rewrite lookup_insert_ne by done. rewrite Hm. split; [by right|].
        intros [[? _]|[_ ?]]; done.
    + intros k g Hk Hg. destruct (decide (k = i)) as [->|Hne].
      * congruence.
      * apply (Hl k); [lia|done].
  - cbn [Nat.add] in Hmap. rewrite <-(length_fmap Feature.name),
      firstn_all in Hmap.
    split; [done|]. split; [|split; [|split; [done|split]]].
    + intros f [k Hk]%list_elem_of_lookup.
      unfold Treedata.nSamples. cbn [Treedata.sampleHeaders_]. rewrite Hsh.
      apply (Hlens k f); [by eapply lookup_lt_Some|done].
    + unfold Treedata.nSamples. cbn [Treedata.sampleHeaders_]. by rewrite Hsh.
    + intros s i Hlast. unfold Treedata.getFeatureIdx.
      cbn [Treedata.name2idx_]. by rewrite (proj2 (Hmap s i) Hlast).
    + intros s Hs. unfold Treedata.getFeatureIdx. cbn [Treedata.name2idx_].
      destruct (n2i !! s) as [k|] eqn:Hk; [|done].
      apply Hmap in Hk as [Hk _]. exfalso. apply Hs.
      by eapply list_elem_of_lookup_2.
Qed.

(** [createContrasts] always returns. *)
Lemma createContrasts_returns `{Utils} (td : Treedata.t) :
  ∃ td', Treedata.createContrasts td = Ok td'.
Proof.
  unfold Treedata.createContrasts.
  destruct (createContrasts_loop (Treedata.features_ td)
              (Treedata.name2idx_ td)) as ([fs n2i] & -> & _).
  by eexists.
Qed.

(** X4. The constructor from features returns a table exactly when the
    vector is not empty, all features have the same, positive, number of
    values, and the sample headers are left out or are as many; an empty
    vector fails the first assertion. *)
Theorem ofFeatures_returns_iff `{Utils} (features : list Feature.t)
    (useContrasts : bool) (sampleHeaders : list string) :
  ((∃ td, Treedata.ofFeatures features useContrasts sampleHeaders = Ok td) ↔
   ∃ n, 0 < n ∧ features ≠ [] ∧
        Forall (λ f, length (Feature.data f) = n) features ∧
        (sampleHeaders = [] ∨ length sampleHeaders = n)) ∧
  (features = [] →
   Treedata.ofFeatures features useContrasts sampleHeaders
   = AssertFail "nFeatures > 0").
Proof.
  split; [|by intros ->].
  unfold Treedata.ofFeatures, assert. split.
  - intros [td Hrun].
    destruct (bool_decide_reflect (0 < length features)) as [Hn|]; [|done].
    cbn [mbind result_bind] in Hrun.
    destruct (lookup_lt_is_Some_2 features 0 Hn) as [f0 Hf0].
    rewrite (at_Ok _ _ _ Hf0) in Hrun. cbn [mbind result_bind] in Hrun.
    destruct (ofFeatures_loop features (length (Feature.data f0))
                (length features) 0 ∅) as [(n2i & Hloop & Hall)|Hloop];
      [lia| |by rewrite Hloop in Hrun].
    rewrite Hloop in Hrun. cbn [mbind result_bind] in Hrun.
    destruct (bool_decide_reflect (0 < length (Feature.data f0)))
      as [Hpos|]; [|done].
    cbn [mbind result_bind] in Hrun.
    case_bool_decide as Hsh; [|done].
    exists (length (Feature.data f0)). split; [done|].
    split; [by intros ->|]. split.
    + apply Forall_forall. intros f [k Hk]%list_elem_of_lookup.
      apply (Hall k); [|done]. apply lookup_lt_Some in Hk. lia.
    + destruct (decide (length sampleHeaders = 0)) as [Hz|Hnz]; [|by right].
      left. by destruct sampleHeaders.
  - intros (n & Hpos & Hne & Hall & Hsh).
    assert (Hn : 0 < length features) by (destruct features; [done|cbn; lia]).
    rewrite bool_decide_eq_true_2 by done. cbn [mbind result_bind].
    destruct (lookup_lt_is_Some_2 features 0 Hn) as [f0 Hf0].
    rewrite (at_Ok _ _ _ Hf0). cbn [mbind result_bind].
    pose proof (Forall_lookup_1 _ _ _ _ Hall Hf0) as Hf0n. cbn beta in Hf0n.
    rewrite Hf0n.
    destruct (for_range_inv (λ _ (_ : gmap string nat), True)
                (Treedata.ofFeatures_body features n) (length features) 0 ∅)
      as (n2i & -> & _); [done| |].
    { intros i m Hi _.
      destruct (lookup_lt_is_Some_2 features i) as [f Hf]; [lia|].
      unfold Treedata.ofFeatures_body, assert. rewrite (at_Ok _ _ _ Hf).
      cbn [mbind result_bind].
      rewrite bool_decide_eq_true_2
        by apply (Forall_lookup_1 _ _ _ _ Hall Hf).
      by eexists. }
    cbn [mbind result_bind]. rewrite (bool_decide_eq_true_2 (0 < n)) by done.
    cbn [mbind result_bind].
    rewrite bool_decide_eq_true_2.
    + cbn [mbind result_bind]. destruct useContrasts; [|by eexists].
      apply createContrasts_returns.
    + destruct Hsh as [->|Hsh].
      * rewrite decide_True by done. by rewrite length_resize.
      * rewrite decide_False by lia. done.
Qed.

Section FileConstructor.
Context `{Utils}.
Variables (rawMatrix : list (list string)) (featureHeaders : list string).
Variable featureTypes : list Feature.Type_.
Hypothesis Htypes : length featureHeaders ≤ length featureTypes.
Hypothesis Hraw : length featureHeaders ≤ length rawMatrix.
Hypothesis Hknown : Forall (λ ty, ty ≠ Feature.UNKNOWN) featureTypes.
Hypothesis Hnodup : NoDup featureHeaders.

(** Before turn [i] of the loop of the constructor from a file: the
    features below [i] are built and indexed. *)
Definition file_inv (i : nat) (s : list Feature.t * gmap string nat) : Prop :=
  length s.1 = length featureHeaders ∧
  (∀ h k, s.2 !! h = Some k ↔ k < i ∧ featureHeaders !! k = Some h) ∧
  (∀ k h ty, k < i → featureHeaders !! k = Some h →
             featureTypes !! k = Some ty →
             ∃ f, s.1 !! k = Some f ∧ Feature.name f = h ∧
                  Feature.type_ f = ty).

Lemma ofFile_step i s :
  i < length featureHeaders → file_inv i s →
  ∃ s', Treedata.ofFile_body rawMatrix featureHeaders featureTypes i s = Ok s' ∧
        file_inv (S i) s'.
Proof using Htypes Hraw Hknown Hnodup.
  destruct s as [fs n2i]. intros Hi (Hl & Hmap & Hfs). cbn [fst snd] in *.
  destruct (lookup_lt_is_Some_2 featureHeaders i Hi) as [h Hh].
  destruct (lookup_lt_is_Some_2 featureTypes i) as [ty Hty]; [lia|].
  destruct (lookup_lt_is_Some_2 rawMatrix i) as [raw Hr]; [lia|].
  pose proof (Forall_lookup_1 _ _ _ _ Hknown Hty) as Hk. cbn beta in Hk.
  unfold Treedata.ofFile_body. rewrite (at_Ok _ _ _ Hh).
  cbn [mbind result_bind].
  rewrite decide_False.
  2: { intros [k Hk']. apply Hmap in Hk' as [Hlt Hk'].
       pose proof (NoDup_lookup _ _ _ _ Hnodup Hh Hk'). lia. }
  rewrite (at_Ok _ _ _ Hty). cbn [mbind result_bind].
  assert (Hnext : ∀ f, Feature.name f = h → Feature.type_ f = ty →
                       file_inv (S i) (<[i:=f]> fs, <[h:=i]> n2i)).
  { intros f Hfn Hft. split; [|split]; cbn [fst snd].
    - by rewrite length_insert.
    - intros h' k. destruct (decide (h = h')) as [<-|Hne].
      + rewrite lookup_insert_eq. split.
        * intros [= <-]. split; [lia|done].
        * intros [_ Hk']. f_equal. by eapply NoDup_lookup.
      + rewrite lookup_insert_ne by done. rewrite Hmap. split.
        * intros [? ?]. split; [lia|done].
        * intros [Hlt Hk']. split; [|done].
          destruct (decide (k = i)) as [->|]; [congruence|lia].
    - intros k h' ty' Hlt Hh' Hty'. destruct (decide (k = i)) as [->|Hne].
      + exists f. rewrite list_lookup_insert_eq by lia.
        split; [done|]. split; congruence.
      + rewrite list_lookup_insert_ne by done. apply Hfs; [lia|done..]. }
  destruct ty; [done|..]; rewrite (at_Ok _ _ _ Hr); cbn [mbind result_bind];
    rewrite set_at_Ok by lia; cbn [mbind result_bind mret result_ret];
    (eexists; split; [done|]); apply Hnext; try done.
  - unfold Feature.ofStrings. by destruct (strv2catv raw) as [[? ?] ?].
  - unfold Feature.ofStrings. by destruct (strv2catv raw) as [[? ?] ?].
Qed.

Lemma ofFile_loop_returns :
  ∃ s, for_range 0 (length featureHeaders)
         (Treedata.ofFile_body rawMatrix featureHeaders featureTypes)
         (resize (length featureHeaders) Feature.default [], ∅) = Ok s ∧
       file_inv (length featureHeaders) s.
Proof using Htypes Hraw Hknown Hnodup.
  apply (for_range_inv file_inv _ (length featureHeaders) 0).
  - split; [|split]; cbn [fst snd].
    + by rewrite length_resize.
    + intros h k. rewrite lookup_empty. split; [done|]. intros [? _]. lia.
    + intros; lia.
  - intros i s Hi. apply ofFile_step. lia.
Qed.

End FileConstructor.

(** X5. On the output of a reader (a type and a column for every header,
    no type unknown), the constructor from a file returns a table exactly
    when no header is repeated. The table then has one feature per header,
    with the header as name and the type the reader gave, its name index
    sends every header to its position, and [getFeatureIdx] and
    [getFeatureName] are inverse to each other on the headers. *)
Theorem ofFile_returns_iff `{MoreUtils} (rawMatrix : list (list string))
    (featureHeaders : list string) (featureTypes : list Feature.Type_)
    (sampleHeaders : list string) (end_ : nat) :
  length featureHeaders ≤ length featureTypes →
  length featureHeaders ≤ length rawMatrix →
  Forall (λ ty, ty ≠ Feature.UNKNOWN) featureTypes →
  ((∃ td, Treedata.ofFile rawMatrix featureHeaders featureTypes sampleHeaders
            false = Ok td) ↔ NoDup featureHeaders) ∧
  (∀ td, Treedata.ofFile rawMatrix featureHeaders featureTypes sampleHeaders
           false = Ok td →
     length (Treedata.features_ td) = length featureHeaders ∧
     Treedata.sampleHeaders_ td = sampleHeaders ∧
     index_consistent td ∧
     ∀ i h, featureHeaders !! i = Some h →
            Treedata.getFeatureIdx end_ td h = i ∧
            Treedata.getFeatureName td i = Some h ∧
            Feature.type_ <$> Treedata.features_ td !! i = featureTypes !! i).
Proof.
  intros Htypes Hraw Hknown.
  assert (Hiff : (∃ td, Treedata.ofFile rawMatrix featureHeaders featureTypes
                          sampleHeaders false = Ok td) ↔ NoDup featureHeaders).
  { split.
    - intros [td Hrun]. destruct (decide (NoDup featureHeaders)); [done|].
      destruct (ofFile_rejects_duplicate_headers rawMatrix featureHeaders
                  featureTypes sampleHeaders false) as [h Hexit]; try done.
      congruence.
    - intros Hnd. unfold Treedata.ofFile.
      destruct (ofFile_loop_returns rawMatrix featureHeaders featureTypes
                  Htypes Hraw Hknown Hnd) as ([fs n2i] & -> & _).
      by eexists. }
  split; [done|]. intros td Hrun.
  assert (Hnd : NoDup featureHeaders) by (apply Hiff; eauto).
  unfold Treedata.ofFile in Hrun.
  destruct (ofFile_loop_returns rawMatrix featureHeaders featureTypes
              Htypes Hraw Hknown Hnd) as ([fs n2i] & Hloop & Hl & Hmap & Hfs).
  rewrite Hloop in Hrun. cbn [mbind result_bind mret result_ret] in Hrun.
  injection Hrun as <-. cbn [fst snd] in *.
  cbn [Treedata.features_ Treedata.sampleHeaders_].
  do 2 (split; [done|]). split.
  - intros i f Hf. cbn [Treedata.features_ Treedata.name2idx_] in *.
    pose proof (lookup_lt_Some _ _ _ Hf) as Hlt. rewrite Hl in Hlt.
    destruct (lookup_lt_is_Some_2 featureHeaders i Hlt) as [h Hh].
    destruct (lookup_lt_is_Some_2 featureTypes i) as [ty Hty]; [lia|].
    destruct (Hfs i h ty Hlt Hh Hty) as (f' & Hf' & Hn & _).
    assert (f' = f) as -> by congruence. rewrite Hn. by apply Hmap.
  - intros i h Hh. pose proof (lookup_lt_Some _ _ _ Hh) as Hlt.
    destruct (lookup_lt_is_Some_2 featureTypes i) as [ty Hty]; [lia|].
    destruct (Hfs i h ty Hlt Hh Hty) as (f & Hf & Hn & Ht).
    unfold Treedata.getFeatureIdx, Treedata.getFeatureName.
    cbn [Treedata.features_ Treedata.name2idx_].
    rewrite (proj2 (Hmap h i)) by done. rewrite Hf, Hty. cbn.
    by rewrite Hn, Ht.
Qed.

Section ContrastIndex.
Context `{Utils}.
Variables (fs0 : list Feature.t) (n2i0 : gmap string nat).
Hypothesis Hnodup :
  NoDup ((Feature.name <$> fs0) ++ (contrast_name ∘ Feature.name <$> fs0)).

(** Before turn [i] of the loop of [createContrasts]: besides the features
    written, the names of the contrasts below [i] are indexed, and every
    other name is indexed as before. *)
Definition contrast_index_inv (i : nat)
    (s : list Feature.t * gmap string nat) : Prop :=
  contrasts_inv fs0 n2i0 i s ∧
  (∀ k f, fs0 !! k = Some f → length fs0 + k < i →
          s.2 !! contrast_name (Feature.name f) = Some (length fs0 + k)) ∧
  (∀ x, (∀ k f, fs0 !! k = Some f → length fs0 + k < i →
                x ≠ contrast_name (Feature.name f)) →
        s.2 !! x = n2i0 !! x).

Lemma contrast_names_differ k1 k2 f1 f2 :
  fs0 !! k1 = Some f1 → fs0 !! k2 = Some f2 → k1 ≠ k2 →
  contrast_name (Feature.name f1) ≠ contrast_name (Feature.name f2).
Proof using Hnodup.
  intros H1 H2 Hne Heq. apply NoDup_app in Hnodup as (_ & _ & Hnd).
  apply Hne. eapply (NoDup_lookup _ k1 k2); [exact Hnd|..].
  - rewrite list_lookup_fmap, H1. done.
  - rewrite list_lookup_fmap, H2. cbn. by rewrite Heq.
Qed.

Lemma createContrasts_index_step i s :
  length fs0 ≤ i < length fs0 + length fs0 → contrast_index_inv i s →
  ∃ s', Treedata.createContrasts_body (length fs0) i s = Ok s' ∧
        contrast_index_inv (S i) s'.
Proof using Hnodup.
  destruct s as [fs n2i]. intros Hi ([Hlen Hinv] & Hnew & Hold).
  cbn [fst snd] in *.
  destruct (lookup_lt_is_Some_2 fs0 (i - length fs0)) as [f Hf]; [lia|].
  destruct (Hinv _ _ Hf) as [Hfk _].
  unfold Treedata.createContrasts_body.
  rewrite (at_Ok _ _ _ Hfk). cbn [mbind result_bind].
  rewrite set_at_Ok by lia. cbn [mbind result_bind].
  rewrite (at_Ok _ i f) by (apply list_lookup_insert_eq; lia).
  cbn [mbind result_bind].
  rewrite set_at_Ok by (rewrite length_insert; lia).
  cbn [mbind result_bind mret result_ret Feature.name Treedata.with_name].
  eexists; split; [done|]. split; [split|split]; cbn [fst snd].
  - by rewrite !length_insert.
  - intros k g Hg. destruct (Hinv _ _ Hg) as [Hgk Hgc].
    pose proof (lookup_lt_Some _ _ _ Hg) as Hklt. split.
    + rewrite !list_lookup_insert_ne by lia. done.
    + intros Hlt. destruct (decide (length fs0 + k = i)) as [<-|Hne].
      * rewrite list_lookup_insert_eq by (rewrite length_insert; lia).
        replace (length fs0 + k - length fs0) with k in Hf by lia.
        congruence.
      * rewrite !list_lookup_insert_ne by lia. apply Hgc. lia.
  - intros k g Hg Hlt. fold (contrast_name (Feature.name f)).
    destruct (decide (length fs0 + k = i)) as [<-|Hne].
    + replace (length fs0 + k - length fs0) with k in Hf by lia.
      assert (g = f) as -> by congruence. by rewrite lookup_insert_eq.
    + rewrite lookup_insert_ne.
      * apply Hnew; [done|lia].
      * apply (contrast_names_differ (i - length fs0) k); [done..|lia].
  - intros x Hx. fold (contrast_name (Feature.name f)).
    rewrite lookup_insert_ne.
    + apply Hold. intros k g Hg Hlt. apply (Hx k); [done|lia].
    + intros <-. apply (Hx (i - length fs0) f); [done|lia|done].
Qed.

Lemma createContrasts_index_loop :
  ∃ s, for_range (length fs0) (length fs0)
         (Treedata.createContrasts_body (length fs0))
         (resize (2 * length fs0) Feature.default fs0, n2i0) = Ok s ∧
       contrast_index_inv (length fs0 + length fs0) s.
Proof using Hnodup.
  apply (for_range_inv contrast_index_inv).
  - split; [split|split]; cbn [fst snd].
    + by rewrite length_resize.
    + intros k f Hk. split; [|intros; lia].
      apply lookup_lt_Some in Hk as Hlt. rewrite lookup_resize by lia. done.
    + intros; lia.
    + done.
  - intros i s Hi. by apply createContrasts_index_step.
Qed.

End ContrastIndex.

(** X6. On a table whose name index is right, and whose feature names and
    contrast names are all different, [createContrasts] leaves a table
    whose name index is right for all features, real and contrast:
    [getFeatureIdx] finds the contrast of feature [i], under its name with
    the suffix, at position [i + n], and every real feature where it was. *)
Theorem createContrasts_keeps_index `{MoreUtils} (td : Treedata.t)
    (end_ : nat) :
  index_consistent td →
  NoDup ((Feature.name <$> Treedata.features_ td) ++
         (contrast_name ∘ Feature.name <$> Treedata.features_ td)) →
  ∃ td', Treedata.createContrasts td = Ok td' ∧
    index_consistent td' ∧
    ∀ i f, Treedata.features_ td !! i = Some f →
      Treedata.getFeatureIdx end_ td' (Feature.name f) = i ∧
      Treedata.getFeatureIdx end_ td' (contrast_name (Feature.name f))
      = i + length (Treedata.features_ td).
Proof.
  intros Hcons Hnd. unfold Treedata.createContrasts.
  destruct (createContrasts_index_loop (Treedata.features_ td)
              (Treedata.name2idx_ td) Hnd)
    as ([fs n2i] & -> & [Hlen Hfs] & Hnew & Hold).
  cbn [fst snd mbind result_bind mret result_ret] in *.
  eexists; split; [done|].
  assert (Hreal : ∀ i f, Treedata.features_ td !! i = Some f →
                         n2i !! Feature.name f = Some i).
  { intros i f Hf. rewrite Hold; [by apply Hcons|].
    intros k g Hg _ Heq. apply NoDup_app in Hnd as (_ & Hdisj & _).
    apply (Hdisj (Feature.name f)).
    - apply list_elem_of_fmap. exists f. split; [done|].
      by eapply list_elem_of_lookup_2.
    - rewrite Heq. apply list_elem_of_fmap. exists g. split; [done|].
      by eapply list_elem_of_lookup_2. }
  split.
  - intros p g Hg. cbn [Treedata.features_ Treedata.name2idx_] in *.
    destruct (decide (p < length (Treedata.features_ td))) as [Hlt|Hge].
    + destruct (lookup_lt_is_Some_2 _ _ Hlt) as [f Hf].
      destruct (Hfs _ _ Hf) as [Hp _]. assert (g = f) as -> by congruence.
      by apply Hreal.
    + pose proof (lookup_lt_Some _ _ _ Hg) as Hp.
      destruct (lookup_lt_is_Some_2 (Treedata.features_ td)
                  (p - length (Treedata.features_ td))) as [f Hf]; [lia|].
      destruct (Hfs _ _ Hf) as [_ Hc].
      replace (length (Treedata.features_ td) +
               (p - length (Treedata.features_ td))) with p in Hc by lia.
      rewrite Hc in Hg by lia. injection Hg as <-.
      cbn [Feature.name Treedata.with_name].
      pose proof (Hnew _ _ Hf ltac:(lia)) as Hc'. unfold contrast_name in Hc'.
      rewrite Hc'. f_equal. lia.
  - intros i f Hf. pose proof (lookup_lt_Some _ _ _ Hf).
    unfold Treedata.getFeatureIdx. cbn [Treedata.name2idx_].
    rewrite (Hreal _ _ Hf), (Hnew _ _ Hf) by lia. split; [done|lia].
Qed.

Lemma max_list_with_snoc {A} (g : A → nat) (l : list A) (x : A) :
  max_list_with g (l ++ [x]) = max_list_with g l `max` g x.
Proof. induction l as [|y l IH]; cbn; [lia|]. rewrite IH. lia. Qed.

(** X7. [nMaxCategories] returns on every table; it is the largest number
    of categories among the real features: the contrast features, in the
    upper half when contrasts are used, are not counted, and a table with
    no categorical feature gives 0. *)
Theorem nMaxCategories_is_max `{MoreUtils} (td : Treedata.t) :
  Treedata.nMaxCategories td =
    Ok (max_list_with (λ f, base.size (Feature.mapping f))
          (take (Treedata.nFeatures td) (Treedata.features_ td))).
Proof.
  unfold Treedata.nMaxCategories.
  assert (Hle : Treedata.nFeatures td ≤ length (Treedata.features_ td)).
  { unfold Treedata.nFeatures. destruct (Treedata.useContrasts_ td); [|done].
    apply Nat.Div0.div_le_upper_bound. lia. }
  edestruct (for_range_inv
    (λ i ret, ret = max_list_with (λ f, base.size (Feature.mapping f))
                      (take i (Treedata.features_ td))))
    as (ret & -> & ->); [| |done].
  - by rewrite take_0.
  - intros i ret Hi ->. cbn beta.
    destruct (lookup_lt_is_Some_2 (Treedata.features_ td) i) as [f Hf]; [lia|].
    rewrite (at_Ok _ _ _ Hf). cbn [mbind result_bind mret result_ret].
    rewrite (take_S_r _ _ _ Hf), max_list_with_snoc.
    destruct (decide _); eexists; (split; [done|]); lia.
Qed.

Section Counting.
Context `{MoreUtils}.
Variables (td : Treedata.t) (featureIdx1 featureIdx2 : nat).
Variables (F1 F2 : Feature.t).
Hypothesis HF1 : Treedata.features_ td !! featureIdx1 = Some F1.
Hypothesis HF2 : Treedata.features_ td !! featureIdx2 = Some F2.
Hypothesis Hlen1 : Treedata.nSamples td ≤ length (Feature.data F1).
Hypothesis Hlen2 : Treedata.nSamples td ≤ length (Feature.data F2).

Local Abbreviation both :=
  (λ idx, real_at (Feature.data F1) idx ∧ real_at (Feature.data F2) idx).

Lemma nRealSamples2_loop :
  Treedata.nRealSamples2 td featureIdx1 featureIdx2 =
    Ok (length (filter both (seq 0 (Treedata.nSamples td)))).
Proof using HF1 HF2 Hlen1 Hlen2.
  unfold Treedata.nRealSamples2.
  edestruct (for_range_inv
    (λ i n, n = length (filter both (seq 0 i)))) as (n & -> & ->);
    [| |done].
  - done.
  - intros i n Hi ->. cbn beta.
    destruct (lookup_lt_is_Some_2 (Feature.data F1) i) as [v1 Hv1]; [lia|].
    destruct (lookup_lt_is_Some_2 (Feature.data F2) i) as [v2 Hv2]; [lia|].
    rewrite (value_Ok _ _ _ _ _ HF1 Hv1). cbn [mbind result_bind].
    rewrite seq_S, filter_app, length_app. cbn [Nat.add].
    destruct (isNAN v1) eqn:Hn1; cbn [negb].
    { eexists; split; [done|]. rewrite filter_cons_False, filter_nil; cbn.
      - lia.
      - intros [(w & Hw & Hnw) _]. congruence. }
    rewrite (value_Ok _ _ _ _ _ HF2 Hv2). cbn [mbind result_bind].
    destruct (isNAN v2) eqn:Hn2; cbn [negb].
    { eexists; split; [done|]. rewrite filter_cons_False, filter_nil; cbn.
      - lia.
      - intros [_ (w & Hw & Hnw)]. congruence. }
    eexists; split; [done|].
    rewrite filter_cons_True by (split; eexists; eauto). cbn. lia.
Qed.

Lemma pair_filter_of_range fd1 fd2 :
  ∃ ics d1 d2,
    Treedata.getFilteredFeatureDataPair td featureIdx1 featureIdx2
      (range (Treedata.nSamples td)) fd1 fd2 = Ok (ics, d1, d2) ∧
    ics = filter both (seq 0 (Treedata.nSamples td)) ∧
    length d1 = length ics ∧ length d2 = length ics.
Proof using HF1 HF2 Hlen1 Hlen2.
  unfold Treedata.getFilteredFeatureDataPair, range.
  destruct (pair_loop td featureIdx1 featureIdx2 F1 F2
              (seq 0 (Treedata.nSamples td)) HF1 HF2)
    with (fd1 := resize (length (seq 0 (Treedata.nSamples td))) num_zero fd1)
         (fd2 := resize (length (seq 0 (Treedata.nSamples td))) num_zero fd2)
    as ([[[ics d1] d2] nReal] & -> & Hinv); [|by rewrite length_resize..|].
  { apply Forall_forall. intros idx Hin%elem_of_seq. lia. }
  destruct Hinv as (Hl & Hl1 & Hl2 & Hle & Htake & _).
  cbn [mbind result_bind mret result_ret].
  rewrite firstn_all in Htake.
  do 3 eexists. split; [done|].
  rewrite !resize_le by lia. rewrite !length_take. split; [done|]. lia.
Qed.

End Counting.

(** X8. For two features whose data cover the samples,
    [nRealSamples(featureIdx1, featureIdx2)] returns the number of samples
    at which neither feature has a missing value; it is the length of what
    [getFilteredFeatureDataPair] retains of the full sample range. *)
Theorem nRealSamples2_counts `{MoreUtils} (td : Treedata.t)
    (featureIdx1 featureIdx2 : nat) (F1 F2 : Feature.t)
    (featureData1 featureData2 : list num_t) :
  Treedata.features_ td !! featureIdx1 = Some F1 →
  Treedata.features_ td !! featureIdx2 = Some F2 →
  Treedata.nSamples td ≤ length (Feature.data F1) →
  Treedata.nSamples td ≤ length (Feature.data F2) →
  ∃ n ics fd1 fd2,
    Treedata.nRealSamples2 td featureIdx1 featureIdx2 = Ok n ∧
    Treedata.getFilteredFeatureDataPair td featureIdx1 featureIdx2
      (range (Treedata.nSamples td)) featureData1 featureData2
      = Ok (ics, fd1, fd2) ∧
    n = length ics ∧ n = length fd1 ∧ n = length fd2 ∧
    n ≤ Treedata.nSamples td ∧
    ∀ idx, idx ∈ ics ↔
      idx < Treedata.nSamples td ∧ real_at (Feature.data F1) idx ∧
      real_at (Feature.data F2) idx.
Proof.
  intros HF1 HF2 Hl1 Hl2.
  destruct (pair_filter_of_range td featureIdx1 featureIdx2 F1 F2 HF1 HF2
              Hl1 Hl2 featureData1 featureData2)
    as (ics & fd1 & fd2 & Hrun & -> & Hd1 & Hd2).
  rewrite (nRealSamples2_loop td featureIdx1 featureIdx2 F1 F2 HF1 HF2 Hl1 Hl2).
  do 4 eexists. split; [done|]. split; [exact Hrun|].
  do 3 (split; [done|]). split.
  - etrans; [apply length_filter|]. by rewrite length_seq.
  - intros idx. rewrite list_elem_of_filter, elem_of_seq. split.
    + intros [[??] ?]. repeat split; [lia|done..].
    + intros (? & ? & ?). repeat split; [done..|lia|lia].
Qed.

Section CopyAll.
Context `{MoreUtils}.
Variables (td : Treedata.t) (featureIdx : nat) (F : Feature.t).
Hypothesis HF : Treedata.features_ td !! featureIdx = Some F.

(** Before turn [i] of the loop of [getFeatureData(featureIdx)]: the first
    [i] values are copied, zeros follow. *)
Definition copy_all_inv (i : nat) (data : list num_t) : Prop :=
  data = take i (Feature.data F) ++
         replicate (length (Feature.data F) - i) num_zero.

Lemma getFeatureDataAll_step i data :
  i < length (Feature.data F) → copy_all_inv i data →
  ∃ data', (v ← Treedata.value td featureIdx i; set_at data i v) = Ok data' ∧
           copy_all_inv (S i) data'.
Proof using HF.
  intros Hi ->.
  destruct (lookup_lt_is_Some_2 (Feature.data F) i) as [v Hv]; [done|].
  rewrite (value_Ok _ _ _ _ _ HF Hv). cbn [mbind result_bind].
  rewrite set_at_Ok
    by (rewrite length_app, length_take, length_replicate; lia).
  eexists; split; [done|]. unfold copy_all_inv.
  rewrite (take_S_r _ _ _ Hv).
  replace (length (Feature.data F) - i)
    with (S (length (Feature.data F) - S i)) by lia.
  cbn [replicate].
  rewrite insert_app_r_alt by (rewrite length_take; lia).
  rewrite length_take, Nat.min_l by lia. rewrite Nat.sub_diag. cbn.
  by rewrite <- app_assoc.
Qed.

Lemma getFeatureDataAll_prefix :
  Treedata.nSamples td ≤ length (Feature.data F) →
  Treedata.getFeatureDataAll td featureIdx =
    Ok (take (Treedata.nSamples td) (Feature.data F) ++
        replicate (length (Feature.data F) - Treedata.nSamples td) num_zero).
Proof using HF.
  intros Hle. unfold Treedata.getFeatureDataAll.
  rewrite (at_Ok _ _ _ HF). cbn [mbind result_bind].
  edestruct (for_range_inv copy_all_inv) as (data & -> & ->); [| |done].
  - unfold copy_all_inv. by rewrite take_0, Nat.sub_0_r.
  - intros i data Hi. apply getFeatureDataAll_step. lia.
Qed.

Lemma getFeatureDataAll_whole :
  length (Feature.data F) = Treedata.nSamples td →
  Treedata.getFeatureDataAll td featureIdx = Ok (Feature.data F).
Proof using HF.
  intros Heq. rewrite getFeatureDataAll_prefix by lia.
  rewrite <- Heq, Nat.sub_diag, take_ge by done. cbn [replicate].
  by rewrite app_nil_r.
Qed.

End CopyAll.

(** X9. [getFeatureData(featureIdx)] copies the values of the samples
    into a vector as long as the data of the feature: it returns the data
    itself when the feature has one value per sample, the first values
    followed by zeros when it has more, and is undefined when it has fewer
    (a textual feature, whose data are empty, on a table with a sample). *)
Theorem getFeatureDataAll_copies `{MoreUtils} (td : Treedata.t)
    (featureIdx : nat) (F : Feature.t) :
  Treedata.features_ td !! featureIdx = Some F →
  (Treedata.nSamples td ≤ length (Feature.data F) →
   Treedata.getFeatureDataAll td featureIdx =
     Ok (take (Treedata.nSamples td) (Feature.data F) ++
         replicate (length (Feature.data F) - Treedata.nSamples td) num_zero)) ∧
  (length (Feature.data F) = Treedata.nSamples td →
   Treedata.getFeatureDataAll td featureIdx = Ok (Feature.data F)) ∧
  (length (Feature.data F) < Treedata.nSamples td →
   Treedata.getFeatureDataAll td featureIdx = Undefined).
Proof.
  intros HF. split; [by apply getFeatureDataAll_prefix|].
  split; [by apply getFeatureDataAll_whole|].
  intros Hlt. unfold Treedata.getFeatureDataAll.
  rewrite (at_Ok _ _ _ HF). cbn [mbind result_bind].
  apply (for_range_fails (copy_all_inv F) _ _ (length (Feature.data F)));
    [done|lia| | |].
  - unfold copy_all_inv. by rewrite take_0, Nat.sub_0_r.
  - intros i data Hi. apply (getFeatureDataAll_step td featureIdx F HF). lia.
  - intros data _. unfold Treedata.value.
    rewrite (at_Ok _ _ _ HF). cbn [mbind result_bind].
    unfold at_. by rewrite lookup_ge_None_2.
Qed.

(** X10. [replaceFeatureData(featureIdx, vector<num_t>)] exits with its
    message when the new data are not as long as the old; otherwise the
    feature becomes a numerical feature holding the new data under the old
    name, without categories, and nothing else changes: the other
    features, the sample headers and the name index are as before, and
    [getFeatureData] reads the new data back. *)
Theorem replaceFeatureData_replaces `{MoreUtils} (td : Treedata.t)
    (featureIdx : nat) (F : Feature.t) (featureData : list num_t) :
  Treedata.features_ td !! featureIdx = Some F →
  (length featureData ≠ length (Feature.data F) →
   Treedata.replaceFeatureData td featureIdx featureData =
     Exit "Treedata::replaceFeatureData(num_t) -- data dimension mismatch") ∧
  (length featureData = length (Feature.data F) →
   ∃ td', Treedata.replaceFeatureData td featureIdx featureData = Ok td' ∧
     Treedata.features_ td' !! featureIdx =
       Some (Feature.ofNum featureData (Feature.name F)) ∧
     (∀ j, j ≠ featureIdx →
           Treedata.features_ td' !! j = Treedata.features_ td !! j) ∧
     length (Treedata.features_ td') = length (Treedata.features_ td) ∧
     Treedata.sampleHeaders_ td' = Treedata.sampleHeaders_ td ∧
     Treedata.name2idx_ td' = Treedata.name2idx_ td ∧
     (index_consistent td → index_consistent td') ∧
     Treedata.getFeatureName td' featureIdx = Some (Feature.name F) ∧
     Treedata.isFeatureNumerical td' featureIdx = Ok true ∧
     Treedata.nCategories td' featureIdx = Ok 0 ∧
     (length featureData = Treedata.nSamples td →
      Treedata.getFeatureDataAll td' featureIdx = Ok featureData)).
Proof.
  intros HF. pose proof (lookup_lt_Some _ _ _ HF) as Hlt.
  unfold Treedata.replaceFeatureData.
  rewrite (at_Ok _ _ _ HF). cbn [mbind result_bind]. split.
  - intros Hne. by rewrite decide_True.
  - intros Heq. rewrite decide_False by (by intros []).
    rewrite set_at_Ok by done. cbn [mbind result_bind mret result_ret].
    eexists; split; [done|]. cbn [Treedata.features_ Treedata.with_features].
    assert (Hnew : <[featureIdx:=Feature.ofNum featureData (Feature.name F)]>
                     (Treedata.features_ td) !! featureIdx
                   = Some (Feature.ofNum featureData (Feature.name F)))
      by (by apply list_lookup_insert_eq).
    split; [done|]. split.
    { intros j Hj. by rewrite list_lookup_insert_ne. }
    split; [by rewrite length_insert|]. do 2 (split; [done|]). split.
    { intros Hcons p g. unfold index_consistent in *.
      cbn [Treedata.features_ Treedata.name2idx_ Treedata.with_features].
      destruct (decide (p = featureIdx)) as [->|Hp].
      - rewrite Hnew. intros [= <-]. cbn [Feature.name Feature.ofNum].
        by apply Hcons.
      - rewrite list_lookup_insert_ne by done. apply Hcons. }
    split.
    { unfold Treedata.getFeatureName. cbn [Treedata.features_ Treedata.with_features].
      by rewrite Hnew. }
    split.
    { unfold Treedata.isFeatureNumerical. cbn [Treedata.features_ Treedata.with_features].
      by rewrite (at_Ok _ _ _ Hnew). }
    split.
    { unfold Treedata.nCategories. cbn [Treedata.features_ Treedata.with_features].
      by rewrite (at_Ok _ _ _ Hnew). }
    intros Hn.
    apply (getFeatureDataAll_whole
             (Treedata.with_features td
                (<[featureIdx:=Feature.ofNum featureData (Feature.name F)]>
                   (Treedata.features_ td)))
             featureIdx _ Hnew).
    by cbn.
Qed.

(** X11. [replaceFeatureData(featureIdx, vector<string>)] exits with its
    message when the strings are not as many as the old data; otherwise
    the feature becomes a categorical feature under the old name, whatever
    its type was, holding the data and the two mappings [strv2catv] makes
    of the strings and no hash sets; the other features, the sample
    headers and the name index are as before. *)
Theorem replaceFeatureDataStr_replaces `{MoreUtils} (td : Treedata.t)
    (featureIdx : nat) (F : Feature.t) (rawFeatureData : list string) :
  Treedata.features_ td !! featureIdx = Some F →
  (length rawFeatureData ≠ length (Feature.data F) →
   Treedata.replaceFeatureDataStr td featureIdx rawFeatureData =
     Exit "Treedata::replaceFeatureData(string) -- data dimension mismatch") ∧
  (length rawFeatureData = length (Feature.data F) →
   ∃ td' G, Treedata.replaceFeatureDataStr td featureIdx rawFeatureData
            = Ok td' ∧
     Treedata.features_ td' !! featureIdx = Some G ∧
     Feature.name G = Feature.name F ∧
     Feature.type_ G = Feature.CAT ∧
     (Feature.data G, Feature.mapping G, Feature.backMapping G)
       = strv2catv rawFeatureData ∧
     Feature.hashSet G = [] ∧
     (∀ j, j ≠ featureIdx →
           Treedata.features_ td' !! j = Treedata.features_ td !! j) ∧
     length (Treedata.features_ td') = length (Treedata.features_ td) ∧
     Treedata.sampleHeaders_ td' = Treedata.sampleHeaders_ td ∧
     Treedata.name2idx_ td' = Treedata.name2idx_ td ∧
     (index_consistent td → index_consistent td') ∧
     Treedata.isFeatureCategorical td' featureIdx = Ok true ∧
     Treedata.categories td' featureIdx
       = Ok ((strv2catv rawFeatureData).2.*2)).
Proof.
  intros HF. pose proof (lookup_lt_Some _ _ _ HF) as Hlt.
  unfold Treedata.replaceFeatureDataStr.
  rewrite (at_Ok _ _ _ HF). cbn [mbind result_bind]. split.
  - intros Hne. by rewrite decide_True.
  - intros Heq. rewrite decide_False by (by intros []).
    rewrite set_at_Ok by done. cbn [mbind result_bind mret result_ret].
    set (G := Feature.ofStrings rawFeatureData (Feature.name F) false).
    exists (Treedata.with_features td
              (<[featureIdx:=G]> (Treedata.features_ td))), G.
    split; [done|]. cbn [Treedata.features_ Treedata.with_features].
    assert (Hnew : <[featureIdx:=G]> (Treedata.features_ td) !! featureIdx
                   = Some G) by (by apply list_lookup_insert_eq).
    assert (HG : Feature.name G = Feature.name F ∧
                 Feature.type_ G = Feature.CAT ∧
                 (Feature.data G, Feature.mapping G, Feature.backMapping G)
                   = strv2catv rawFeatureData ∧
                 Feature.hashSet G = []).
    { unfold G, Feature.ofStrings.
      by destruct (strv2catv rawFeatureData) as [[d m] b]. }
    destruct HG as (Hname & Htype & Hparts & Hhash). clearbody G.
    do 5 (split; [done|]). split.
    { intros j Hj. by rewrite list_lookup_insert_ne. }
    split; [by rewrite length_insert|]. do 2 (split; [done|]). split.
    { intros Hcons p g. unfold index_consistent in *.
      cbn [Treedata.features_ Treedata.name2idx_ Treedata.with_features].
      destruct (decide (p = featureIdx)) as [->|Hp].
      - rewrite Hnew. intros [= <-]. rewrite Hname. by apply Hcons.
      - rewrite list_lookup_insert_ne by done. apply Hcons. }
    split.
    { unfold Treedata.isFeatureCategorical. cbn [Treedata.features_ Treedata.with_features].
      rewrite (at_Ok _ _ _ Hnew). cbn. unfold Feature.isCategorical.
      by rewrite Htype. }
    unfold Treedata.categories, Treedata.isFeatureNumerical.
    cbn [Treedata.features_ Treedata.with_features]. rewrite (at_Ok _ _ _ Hnew).
    cbn [mbind result_bind mret result_ret]. unfold Feature.isNumerical.
    rewrite Htype. cbn. by rewrite <- Hparts.
Qed.

Lemma pair_filter_result `{NumT} (td : Treedata.t)
    (featureIdx1 featureIdx2 : nat) (F1 F2 : Feature.t)
    (sampleIcs : list nat) (fd1 fd2 : list num_t) :
  Treedata.features_ td !! featureIdx1 = Some F1 →
  Treedata.features_ td !! featureIdx2 = Some F2 →
  Forall (λ idx, idx < length (Feature.data F1) ∧
                 idx < length (Feature.data F2)) sampleIcs →
  ∃ ics d1 d2,
    Treedata.getFilteredFeatureDataPair td featureIdx1 featureIdx2
      sampleIcs fd1 fd2 = Ok (ics, d1, d2) ∧
    ics = filter (λ idx, real_at (Feature.data F1) idx ∧
                         real_at (Feature.data F2) idx) sampleIcs ∧
    Forall2 (λ idx v, Feature.data F1 !! idx = Some v) ics d1 ∧
    Forall2 (λ idx v, Feature.data F2 !! idx = Some v) ics d2.
Proof.
  intros HF1 HF2 Hrange. unfold Treedata.getFilteredFeatureDataPair.
  destruct (pair_loop td featureIdx1 featureIdx2 F1 F2 sampleIcs HF1 HF2 Hrange
              (resize (length sampleIcs) num_zero fd1)
              (resize (length sampleIcs) num_zero fd2))
    as ([[[ics d1] d2] nReal] & -> & Hinv); [by rewrite length_resize..|].
  destruct Hinv as (Hl & Hl1 & Hl2 & Hle & Htake & Hdrop & Hv1 & Hv2).
  cbn [mbind result_bind mret result_ret].
  rewrite !resize_le by lia. rewrite firstn_all in Htake.
  do 3 eexists. split; [done|]. by split.
Qed.

Lemma Forall_filter_range {A} (P : A → Prop) (Q : A → Prop)
    `{∀ x, Decision (Q x)} (l : list A) :
  Forall P l → Forall P (filter Q l).
Proof.
  intros Hl. apply Forall_forall. intros x [_ Hx]%list_elem_of_filter.
  by eapply (proj1 (Forall_forall _ _) Hl).
Qed.

Lemma lookup_functional {A} (d : list A) (x : nat) (y z : A) :
  d !! x = Some y → d !! x = Some z → y = z.
Proof. congruence. Qed.

(** X12. On sample indices inside the data of the feature,
    [getFilteredFeatureData] returns the input indices without those at
    which the value is missing, in the input order and with repetitions
    kept, beside the values at the retained indices, none of them missing;
    run again on what it returned, it returns the same. *)
Theorem getFilteredFeatureData_idempotent `{Utils} (td : Treedata.t)
    (featureIdx : nat) (F : Feature.t) (sampleIcs : list nat) :
  Treedata.features_ td !! featureIdx = Some F →
  Forall (λ idx, idx < length (Feature.data F)) sampleIcs →
  ∃ fd ics,
    Treedata.getFilteredFeatureData td featureIdx sampleIcs = Ok (fd, ics) ∧
    ics = filter (real_at (Feature.data F)) sampleIcs ∧
    Forall2 (λ idx v, Feature.data F !! idx = Some v ∧ isNAN v = false)
      ics fd ∧
    Treedata.getFilteredFeatureData td featureIdx ics = Ok (fd, ics).
Proof.
  intros HF Hrange.
  destruct (getFilteredFeatureData_filters td featureIdx F sampleIcs HF Hrange)
    as (fd & ics & Hrun & Hics & Hvals).
  exists fd, ics. split; [done|]. split; [done|]. split.
  - apply Forall2_same_length_lookup. split; [by eapply Forall2_length|].
    intros k idx v Hidx Hv.
    pose proof (Forall2_lookup_lr _ _ _ _ _ _ Hvals Hidx Hv) as Hd.
    split; [done|].
    assert (Hin : idx ∈ ics) by (by eapply list_elem_of_lookup_2).
    rewrite Hics in Hin. apply list_elem_of_filter in Hin as [(w & Hw & Hn) _].
    congruence.
  - destruct (getFilteredFeatureData_filters td featureIdx F ics HF)
      as (fd' & ics' & Hrun' & Hics' & Hvals').
    { rewrite Hics. by apply Forall_filter_range. }
    rewrite Hrun'.
    assert (ics' = ics) as ->.
    { rewrite Hics', Hics, list_filter_filter. apply filter_ext_elem.
      intros idx _. tauto. }
    f_equal. f_equal.
    eapply (Forall2_lookup_functional (Feature.data F)); [|exact Hvals'|exact Hvals].
    intros x y z. apply lookup_functional.
Qed.

(** X13. [getFilteredFeatureDataPair] is [getFilteredFeatureData] for the
    first feature followed by [getFilteredFeatureData] for the second: the
    two leave the same sample indices, and the values of the second
    feature are the same vector; the values of the first feature are those
    [getFilteredFeatureData] reads at the indices left. The vectors passed
    in for the values do not matter, and the pair filter run again on its
    result returns the same. *)
Theorem getFilteredFeatureDataPair_composes `{Utils} (td : Treedata.t)
    (featureIdx1 featureIdx2 : nat) (F1 F2 : Feature.t)
    (sampleIcs : list nat) (featureData1 featureData2 : list num_t) :
  Treedata.features_ td !! featureIdx1 = Some F1 →
  Treedata.features_ td !! featureIdx2 = Some F2 →
  Forall (λ idx, idx < length (Feature.data F1) ∧
                 idx < length (Feature.data F2)) sampleIcs →
  ∃ ics fd1 fd2 ics1 vals1,
    Treedata.getFilteredFeatureDataPair td featureIdx1 featureIdx2 sampleIcs
      featureData1 featureData2 = Ok (ics, fd1, fd2) ∧
    Treedata.getFilteredFeatureData td featureIdx1 sampleIcs
      = Ok (vals1, ics1) ∧
    Treedata.getFilteredFeatureData td featureIdx2 ics1 = Ok (fd2, ics) ∧
    Treedata.getFilteredFeatureData td featureIdx1 ics = Ok (fd1, ics) ∧
    Treedata.getFilteredFeatureDataPair td featureIdx1 featureIdx2 ics
      fd1 fd2 = Ok (ics, fd1, fd2).
Proof.
  intros HF1 HF2 Hrange.
  assert (Hr1 : Forall (λ idx, idx < length (Feature.data F1)) sampleIcs)
    by (eapply Forall_impl; [exact Hrange|]; by intros idx [? _]).
  assert (Hr2 : Forall (λ idx, idx < length (Feature.data F2)) sampleIcs)
    by (eapply Forall_impl; [exact Hrange|]; by intros idx [_ ?]).
  destruct (pair_filter_result td featureIdx1 featureIdx2 F1 F2 sampleIcs
              featureData1 featureData2 HF1 HF2 Hrange)
    as (ics & fd1 & fd2 & Hrun & Hics & Hv1 & Hv2).
  destruct (getFilteredFeatureData_filters td featureIdx1 F1 sampleIcs HF1 Hr1)
    as (vals1 & ics1 & Hrun1 & Hics1 & Hvals1).
  destruct (getFilteredFeatureData_filters td featureIdx2 F2 ics1 HF2)
    as (vals2 & ics2 & Hrun2 & Hics2 & Hvals2).
  { rewrite Hics1. by apply Forall_filter_range. }
  assert (ics2 = ics) as ->.
  { rewrite Hics2, Hics1, Hics, list_filter_filter. apply filter_ext_elem.
    intros idx _. tauto. }
  assert (vals2 = fd2) as ->.
  { eapply (Forall2_lookup_functional (Feature.data F2));
      [|exact Hvals2|exact Hv2]. intros x y z. apply lookup_functional. }
  assert (Hrange' : Forall (λ idx, idx < length (Feature.data F1) ∧
                                   idx < length (Feature.data F2)) ics)
    by (rewrite Hics; by apply Forall_filter_range).
  destruct (getFilteredFeatureData_filters td featureIdx1 F1 ics HF1)
    as (vals3 & ics3 & Hrun3 & Hics3 & Hvals3).
  { eapply Forall_impl; [exact Hrange'|]. by intros idx [? _]. }
  assert (ics3 = ics) as ->.
  { rewrite Hics3, Hics, list_filter_filter. apply filter_ext_elem.
    intros idx _. tauto. }
  assert (vals3 = fd1) as ->.
  { eapply (Forall2_lookup_functional (Feature.data F1));
      [|exact Hvals3|exact Hv1]. intros x y z. apply lookup_functional. }
  destruct (pair_filter_result td featureIdx1 featureIdx2 F1 F2 ics
              fd1 fd2 HF1 HF2 Hrange')
    as (ics4 & fd1' & fd2' & Hrun4 & Hics4 & Hv1' & Hv2').
  assert (ics4 = ics) as ->.
  { rewrite Hics4. rewrite Hics at 1. rewrite list_filter_filter.
    rewrite Hics. apply filter_ext_elem. intros idx _. tauto. }
  assert (fd1' = fd1) as ->.
  { eapply (Forall2_lookup_functional (Feature.data F1));
      [|exact Hv1'|exact Hv1]. intros x y z. apply lookup_functional. }
  assert (fd2' = fd2) as ->.
  { eapply (Forall2_lookup_functional (Feature.data F2));
      [|exact Hv2'|exact Hv2]. intros x y z. apply lookup_functional. }
  exists ics, fd1, fd2, ics1, vals1. by repeat split.
Qed.

Lemma first_outside {A} (P : A → Prop) `{∀ x, Decision (P x)} (l : list A) :
  ¬ Forall P l →
  ∃ k x, l !! k = Some x ∧ ¬ P x ∧ Forall P (take k l).
Proof.
  induction l as [|y l IH]; intros Hbad.
  - destruct Hbad. constructor.
  - destruct (decide (P y)) as [Hy|Hy].
    + destruct IH as (k & x & Hk & Hx & Hbefore).
      { intros Hl. apply Hbad. by constructor. }
      exists (S k), x. repeat split; [done..|]. cbn. by constructor.
    + exists 0, y. repeat split; [done|]. cbn. constructor.
Qed.

(** X14. [getFeatureData(featureIdx, sampleIcs)] returns exactly when every
    index is inside the data of the feature; it then returns the value at
    each index, in the order of the indices and once for each repetition,
    missing values included. An index outside the data makes it
    undefined. *)
Theorem getFeatureData_reads `{Utils} (td : Treedata.t) (featureIdx : nat)
    (F : Feature.t) (sampleIcs : list nat) :
  Treedata.features_ td !! featureIdx = Some F →
  (Forall (λ idx, idx < length (Feature.data F)) sampleIcs →
   ∃ vals, Treedata.getFeatureData td featureIdx sampleIcs = Ok vals ∧
           Some <$> vals = (Feature.data F !!.) <$> sampleIcs) ∧
  (¬ Forall (λ idx, idx < length (Feature.data F)) sampleIcs →
   Treedata.getFeatureData td featureIdx sampleIcs = Undefined).
Proof.
  intros HF. split.
  - intros Hrange.
    destruct (getFeatureData_values td featureIdx F sampleIcs HF Hrange)
      as (vals & Hrun & Hvals).
    exists vals. split; [done|]. clear Hrun Hrange.
    induction Hvals as [|idx v ics vals Hv _ IH]; [done|].
    cbn [fmap list_fmap]. cbn [fmap list_fmap] in IH. by rewrite Hv, IH.
  - intros Hbad.
    destruct (first_outside _ sampleIcs Hbad) as (k & bad & Hk & Hge & Hbefore).
    pose proof (lookup_lt_Some _ _ _ Hk) as Hklt.
    unfold Treedata.getFeatureData.
    apply (for_range_fails
             (λ (i : nat) (data : list num_t), length data = length sampleIcs)
             _ _ k); [done|lia|by rewrite length_replicate| |].
    + intros i data Hi Hlen.
      destruct (lookup_lt_is_Some_2 sampleIcs i) as [idx Hidx]; [lia|].
      assert (Hin : idx < length (Feature.data F)).
      { eapply (Forall_lookup_1 _ _ i idx Hbefore).
        by rewrite lookup_take_lt by lia. }
      destruct (lookup_lt_is_Some_2 _ _ Hin) as [v Hv].
      rewrite (at_Ok _ _ _ Hidx). cbn [mbind result_bind].
      rewrite (value_Ok _ _ _ _ _ HF Hv). cbn [mbind result_bind].
      rewrite set_at_Ok by lia. eexists; split; [done|].
      by rewrite length_insert.
    + intros data _. rewrite (at_Ok _ _ _ Hk). cbn [mbind result_bind].
      unfold Treedata.value. rewrite (at_Ok _ _ _ HF).
      cbn [mbind result_bind]. unfold at_.
      by rewrite lookup_ge_None_2 by lia.
Qed.

Section TransposeLoops.
Context {T : Type} (zero : T).
Variables (foo : list (list T)) (nrows : nat).
Hypothesis Hrect : Forall (λ col, length col = nrows) foo.

Local Abbreviation ncols := (length foo).

Lemma mirrored_lookup i :
  i < nrows → mirrored zero foo nrows !! i = Some (mirrored_row zero foo i).
Proof.
  intros Hi. unfold mirrored. rewrite list_lookup_fmap, lookup_seq_lt by done.
  done.
Qed.

Lemma mirrored_row_lookup i j col x :
  foo !! j = Some col → col !! i = Some x →
  mirrored_row zero foo i !! j = Some x.
Proof.
  intros Hcol Hx. unfold mirrored_row. rewrite list_lookup_fmap, Hcol. cbn.
  by rewrite Hx.
Qed.

Lemma transpose_resize_loop (mat : list (list T)) :
  length mat = nrows →
  ∃ mat', for_range 0 nrows (Treedata.transpose_resize_body zero ncols) mat
            = Ok mat' ∧
          length mat' = nrows ∧ Forall (λ row, length row = ncols) mat'.
Proof.
  intros Hlen.
  destruct (for_range_inv
    (λ i (m : list (list T)), length m = nrows ∧
       Forall (λ row, length row = ncols) (take i m))
    (Treedata.transpose_resize_body zero ncols) nrows 0 mat)
    as (mat' & Hrun & Hl & Hall).
  - split; [done|]. rewrite take_0. constructor.
  - intros i m Hi [Hl Hall].
    destruct (lookup_lt_is_Some_2 m i) as [row Hrow]; [lia|].
    unfold Treedata.transpose_resize_body. rewrite (at_Ok _ _ _ Hrow).
    cbn [mbind result_bind]. rewrite set_at_Ok by lia.
    eexists; split; [done|]. split; [by rewrite length_insert|].
    rewrite take_S_insert by lia. apply Forall_app. split; [done|].
    constructor; [|constructor]. by rewrite length_resize.
  - exists mat'. split; [done|]. split; [done|].
    cbn [Nat.add] in Hall. by rewrite take_ge in Hall by lia.
Qed.

(** Before turn [j] of the inner loop for row [i]: the rows above are
    mirrored, the rows below have their length, and row [i] is mirrored up
    to [j]. *)
Definition copy_inv (i j : nat) (m : list (list T)) : Prop :=
  length m = nrows ∧
  take i m = take i (mirrored zero foo nrows) ∧
  (∀ k row, i < k → m !! k = Some row → length row = ncols) ∧
  ∃ row, m !! i = Some row ∧ length row = ncols ∧
         take j row = take j (mirrored_row zero foo i).

Lemma transpose_copy_step i j m :
  i < nrows → j < ncols → copy_inv i j m →
  ∃ m', Treedata.transpose_copy_body foo i j m = Ok m' ∧ copy_inv i (S j) m'.
Proof using Hrect.
  intros Hi Hj (Hl & Habove & Hbelow & row & Hrow & Hrl & Htake).
  destruct (lookup_lt_is_Some_2 foo j Hj) as [col Hcol].
  pose proof (Forall_lookup_1 _ _ _ _ Hrect Hcol) as Hcl. cbn beta in Hcl.
  destruct (lookup_lt_is_Some_2 col i) as [x Hx]; [lia|].
  unfold Treedata.transpose_copy_body.
  rewrite (at_Ok _ _ _ Hcol). cbn [mbind result_bind].
  rewrite (at_Ok _ _ _ Hx). cbn [mbind result_bind].
  rewrite (at_Ok _ _ _ Hrow). cbn [mbind result_bind].
  rewrite set_at_Ok by lia. cbn [mbind result_bind].
  rewrite set_at_Ok by lia.
  eexists; split; [done|]. split; [by rewrite length_insert|]. split.
  { by rewrite take_insert_ge by lia. }
  split.
  { intros k r Hk. rewrite list_lookup_insert_ne by lia. by apply Hbelow. }
  exists (<[j:=x]> row). split; [by apply list_lookup_insert_eq; lia|].
  split; [by rewrite length_insert|].
  rewrite take_S_insert by lia.
  rewrite (take_S_r _ _ x) by (by eapply mirrored_row_lookup).
  by rewrite Htake.
Qed.

Lemma transpose_copy_loop (mat : list (list T)) :
  length mat = nrows → Forall (λ row, length row = ncols) mat →
  for_range 0 nrows
    (λ i m, for_range 0 ncols (Treedata.transpose_copy_body foo i) m) mat
  = Ok (mirrored zero foo nrows).
Proof using Hrect.
  intros Hlen Hrows.
  destruct (for_range_inv
    (λ i (m : list (list T)), length m = nrows ∧
       take i m = take i (mirrored zero foo nrows) ∧
       (∀ k row, i ≤ k → m !! k = Some row → length row = ncols))
    (λ i m, for_range 0 ncols (Treedata.transpose_copy_body foo i) m) nrows 0 mat)
    as (mat' & Hrun & Hl & Htake & _).
  - split; [done|]. split; [by rewrite !take_0|].
    intros k row _ Hk. by apply (Forall_lookup_1 _ _ _ _ Hrows Hk).
  - intros i m Hi (Hl & Habove & Hbelow). cbn [Nat.add] in Hi.
    destruct (lookup_lt_is_Some_2 m i) as [row Hrow]; [lia|].
    destruct (for_range_inv (copy_inv i) (Treedata.transpose_copy_body foo i)
                ncols 0 m) as (m' & Hrun & Hinv).
    + split; [done|]. split; [done|]. split.
      * intros k r Hk. apply Hbelow. lia.
      * exists row. split; [done|]. split; [by eapply Hbelow|].
        by rewrite !take_0.
    + intros j m1 Hj. apply transpose_copy_step; lia.
    + exists m'. split; [done|].
      destruct Hinv as (Hl' & Habove' & Hbelow' & r & Hr & Hrl & Htake).
      cbn [Nat.add] in Htake. split; [done|]. split.
      * rewrite (take_S_r _ _ r) by done.
        rewrite (take_S_r _ _ (mirrored_row zero foo i))
          by (by apply mirrored_lookup; lia).
        rewrite Habove'. f_equal. f_equal.
        rewrite take_ge in Htake by lia.
        rewrite take_ge in Htake
          by (unfold mirrored_row; rewrite length_fmap; lia).
        done.
      * intros k r' Hk. apply Hbelow'. lia.
  - rewrite Hrun. f_equal. cbn [Nat.add] in Htake.
    rewrite take_ge in Htake by lia.
    rewrite take_ge in Htake
      by (unfold mirrored; rewrite length_fmap, length_seq; lia).
    done.
Qed.

End TransposeLoops.

Lemma transpose_rectangular {T} (zero : T) (mat : list (list T))
    (nrows : nat) :
  mat ≠ [] → Forall (λ col, length col = nrows) mat →
  Treedata.transpose zero mat = Ok (mirrored zero mat nrows).
Proof.
  intros Hne Hrect. unfold Treedata.transpose.
  destruct mat as [|row0 rest] eqn:Hmat; [done|]. rewrite <- Hmat in *.
  assert (H0 : mat !! 0 = Some row0) by (by rewrite Hmat).
  rewrite (at_Ok _ _ _ H0). cbn [mbind result_bind].
  pose proof (Forall_lookup_1 _ _ _ _ Hrect H0) as Hr0. cbn beta in Hr0.
  rewrite Hr0.
  destruct (transpose_resize_loop zero mat nrows (resize nrows [] mat))
    as (m1 & -> & Hl1 & Hrows1); [by rewrite length_resize|].
  cbn [mbind result_bind].
  by apply transpose_copy_loop.
Qed.

Lemma mirrored_mirrored {T} (zero : T) (mat : list (list T)) (nrows : nat) :
  Forall (λ col, length col = nrows) mat → 0 < nrows →
  mirrored zero (mirrored zero mat nrows) (length mat) = mat.
Proof.
  intros Hrect Hpos. apply list_eq. intros j.
  destruct (decide (j < length mat)) as [Hj|Hj].
  - rewrite mirrored_lookup by done.
    destruct (lookup_lt_is_Some_2 mat j Hj) as [col Hcol]. rewrite Hcol.
    f_equal. pose proof (Forall_lookup_1 _ _ _ _ Hrect Hcol) as Hcl.
    cbn beta in Hcl. apply list_eq. intros i. unfold mirrored_row at 1.
    rewrite list_lookup_fmap.
    destruct (decide (i < nrows)) as [Hi|Hi].
    + rewrite mirrored_lookup by done. cbn.
      destruct (lookup_lt_is_Some_2 col i) as [x Hx]; [lia|].
      rewrite (mirrored_row_lookup zero mat i j col x Hcol Hx). cbn.
      by rewrite Hx.
    + rewrite (lookup_ge_None_2 col) by lia.
      rewrite lookup_ge_None_2; [done|].
      unfold mirrored. rewrite length_fmap, length_seq. lia.
  - rewrite (lookup_ge_None_2 mat) by lia. apply lookup_ge_None_2.
    unfold mirrored. rewrite length_fmap, length_seq. lia.
Qed.

(** X15. On a matrix that has a row, and whose rows all have [nrows]
    elements, [transpose] returns the mirror image: [nrows] rows, as long
    as the matrix had rows, with element [j] of row [i] the element [i] of
    row [j] of the input. Transposing twice gives the matrix back when
    its rows are not empty; when they are empty the result has no row, and
    transposing it is undefined, as it is for every matrix without
    rows. *)
Theorem transpose_mirrors {T} (zero : T) (mat : list (list T))
    (nrows : nat) :
  mat ≠ [] → Forall (λ col, length col = nrows) mat →
  ∃ mat', Treedata.transpose zero mat = Ok mat' ∧
    length mat' = nrows ∧
    Forall (λ row, length row = length mat) mat' ∧
    (∀ i j, mat' !! i ≫= (.!! j) = mat !! j ≫= (.!! i)) ∧
    (0 < nrows → Treedata.transpose zero mat' = Ok mat) ∧
    (nrows = 0 → mat' = [] ∧ Treedata.transpose zero mat' = Undefined).
Proof.
  intros Hne Hrect. exists (mirrored zero mat nrows).
  split; [by apply transpose_rectangular|].
  assert (Hlen : length (mirrored zero mat nrows) = nrows)
    by (unfold mirrored; by rewrite length_fmap, length_seq).
  assert (Hrows : Forall (λ row, length row = length mat)
                    (mirrored zero mat nrows)).
  { apply Forall_forall. intros row [i [-> _]]%list_elem_of_fmap.
    unfold mirrored_row. by rewrite length_fmap. }
  split; [done|]. split; [done|]. split; [|split].
  - intros i j. destruct (decide (i < nrows)) as [Hi|Hi].
    + rewrite (mirrored_lookup zero mat nrows i Hi). cbn.
      destruct (mat !! j) as [col|] eqn:Hcol; cbn.
      * pose proof (Forall_lookup_1 _ _ _ _ Hrect Hcol) as Hcl.
        cbn beta in Hcl.
        destruct (lookup_lt_is_Some_2 col i) as [x Hx]; [lia|].
        by rewrite (mirrored_row_lookup zero mat i j col x Hcol Hx), Hx.
      * apply lookup_ge_None_2. unfold mirrored_row. rewrite length_fmap.
        by apply lookup_ge_None_1.
    + rewrite (lookup_ge_None_2 (mirrored zero mat nrows)) by lia. cbn.
      destruct (mat !! j) as [col|] eqn:Hcol; cbn; [|done].
      pose proof (Forall_lookup_1 _ _ _ _ Hrect Hcol) as Hcl.
      cbn beta in Hcl. symmetry. apply lookup_ge_None_2. lia.
  - intros Hpos.
    rewrite (transpose_rectangular zero _ (length mat)); [| |done].
    + f_equal. by apply mirrored_mirrored.
    + intros Hnil. rewrite Hnil in Hlen. cbn in Hlen. lia.
  - intros ->. by cbn.
Qed.

Lemma string_app_nil (s : string) : EmptyString +:+ s = s.
Proof. done. Qed.

Lemma string_app_cons (c : Ascii.ascii) (a b : string) :
  String c a +:+ b = String c (a +:+ b).
Proof. done. Qed.

Lemma string_app_assoc (a b c : string) : (a +:+ b) +:+ c = a +:+ (b +:+ c).
Proof.
  induction a as [|x a IH]; [done|]. by rewrite !string_app_cons, IH.
Qed.

Lemma string_app_length (a b : string) :
  String.length (a +:+ b) = String.length a + String.length b.
Proof.
  induction a as [|x a IH]; [done|]. rewrite string_app_cons. cbn.
  by rewrite IH.
Qed.

Section Streams.
Variable delim : Ascii.ascii.

Lemma scan_free (s : string) :
  free_of delim s = true → scan delim s = (s, EmptyString, true).
Proof.
  induction s as [|c s IH]; cbn [scan free_of]; [done|].
  intros [Hc Hs]%andb_prop. apply negb_true_iff, bool_decide_eq_false in Hc.
  destruct (decide (c = delim)); [done|]. by rewrite IH.
Qed.

Lemma scan_app (tok r : string) :
  free_of delim tok = true →
  scan delim (tok +:+ String delim r) = (tok, r, false).
Proof.
  induction tok as [|c tok IH]; cbn [free_of].
  - intros _. rewrite string_app_nil. cbn [scan].
    by destruct (decide (delim = delim)).
  - intros [Hc Hs]%andb_prop. apply negb_true_iff, bool_decide_eq_false in Hc.
    rewrite string_app_cons. cbn [scan].
    destruct (decide (c = delim)); [done|]. by rewrite IH.
Qed.

Lemma split_at_delim (s : string) :
  free_of delim s = true ∨
  ∃ b1 b2, s = b1 +:+ String delim b2 ∧ free_of delim b1 = true ∧
           String.length b2 < String.length s.
Proof.
  induction s as [|c s IH]; [by left|].
  destruct (decide (c = delim)) as [->|Hc].
  - right. exists EmptyString, s. rewrite string_app_nil. cbn.
    repeat split. lia.
  - destruct IH as [Hfree|(b1 & b2 & -> & Hb1 & Hlen)].
    + left. cbn [free_of]. by rewrite bool_decide_eq_false_2.
    + right. exists (String c b1), b2. rewrite string_app_cons.
      cbn [free_of String.length]. repeat split.
      * by rewrite bool_decide_eq_false_2.
      * lia.
Qed.

(** [getline] on a fresh stream over fields parted by [delim]. *)
Lemma getline_field (tok r str : string) :
  free_of delim tok = true →
  getline (stream_of (tok +:+ String delim r)) str delim = (stream_of r, tok).
Proof.
  intros Hfree. unfold getline, stream_of.
  cbn [eofbit failbit unread orb]. by rewrite scan_app.
Qed.

Lemma getline_last (tok str : string) :
  free_of delim tok = true →
  getline (stream_of tok) str delim
  = (mk_stream EmptyString true (bool_decide (tok = EmptyString)), tok).
Proof.
  intros Hfree. unfold getline, stream_of.
  cbn [eofbit failbit unread orb]. by rewrite scan_free.
Qed.

End Streams.

Lemma readFileType_loop_last (ext suffix : string) (fuel : nat) :
  free_of "."%char ext = true → 2 ≤ fuel →
  Treedata.readFileType_loop fuel (stream_of ext) suffix = Some ext.
Proof.
  intros Hfree Hfuel. destruct fuel as [|[|fuel]]; [lia..|].
  cbn [Treedata.readFileType_loop]. rewrite getline_last by done.
  unfold stream_good. cbn [failbit].
  destruct (bool_decide_reflect (ext = EmptyString)) as [->|Hne]; done.
Qed.

Lemma readFileType_loop_fields (n : nat) :
  ∀ (base ext suffix : string) (fuel : nat),
    String.length base ≤ n → free_of "."%char ext = true →
    String.length base + 3 ≤ fuel →
    Treedata.readFileType_loop fuel
      (stream_of (base +:+ String "."%char ext)) suffix = Some ext.
Proof.
  induction n as [|n IH]; intros base ext suffix fuel Hn Hfree Hfuel.
  - destruct base; [|cbn in Hn; lia]. destruct fuel as [|fuel]; [lia|].
    cbn [Treedata.readFileType_loop].
    rewrite (getline_field "."%char EmptyString) by done.
    cbn [stream_good stream_of failbit negb].
    apply readFileType_loop_last; [done|cbn in Hfuel; lia].
  - destruct fuel as [|fuel]; [lia|]. cbn [Treedata.readFileType_loop].
    destruct (split_at_delim "."%char base)
      as [Hbase|(b1 & b2 & -> & Hb1 & Hlen)].
    + rewrite getline_field by done.
      cbn [stream_good stream_of failbit negb].
      apply readFileType_loop_last; [done|lia].
    + rewrite string_app_assoc, string_app_cons.
      rewrite getline_field by done.
      cbn [stream_good stream_of failbit negb]. apply IH; [lia|done|lia].
Qed.

Lemma readFileType_loop_ends (n : nat) :
  ∀ (fileName suffix : string) (fuel : nat),
    String.length fileName ≤ n → String.length fileName + 2 ≤ fuel →
    is_Some (Treedata.readFileType_loop fuel (stream_of fileName) suffix).
Proof.
  induction n as [|n IH]; intros fileName suffix fuel Hn Hfuel.
  - destruct fileName; [|cbn in Hn; lia].
    by rewrite readFileType_loop_last.
  - destruct (split_at_delim "."%char fileName)
      as [Hfree|(b1 & b2 & -> & Hb1 & Hlen)].
    + by rewrite readFileType_loop_last by (done || lia).
    + destruct fuel as [|fuel]; [lia|]. cbn [Treedata.readFileType_loop].
      rewrite getline_field by done.
      cbn [stream_good stream_of failbit negb]. apply IH; lia.
Qed.

(** X16. [readFileType] decides on the part of the file name behind its
    last dot, or on the whole name when it has no dot: the type is AFM for
    [AFM] and [afm], ARFF for [ARFF] and [arff], and UNKNOWN for every
    other suffix, mixed case and the empty suffix of a name ending in a
    dot included. The loop that finds the suffix ends on every name. *)
Theorem readFileType_by_suffix (base suffix : string) :
  free_of "."%char suffix = true →
  Treedata.readFileType suffix = Some (Treedata.fileType_of suffix) ∧
  Treedata.readFileType (base +:+ "." +:+ suffix)
    = Some (Treedata.fileType_of suffix) ∧
  (Treedata.fileType_of suffix = Treedata.AFM ↔
     suffix = "AFM" ∨ suffix = "afm") ∧
  (Treedata.fileType_of suffix = Treedata.ARFF ↔
     suffix = "ARFF" ∨ suffix = "arff") ∧
  (Treedata.fileType_of suffix = Treedata.UNKNOWN ↔
     suffix ∉ ["AFM"; "afm"; "ARFF"; "arff"]) ∧
  (∀ fileName, is_Some (Treedata.readFileType fileName)).
Proof.
  intros Hfree.
  assert (Hends : ∀ fileName, is_Some (Treedata.readFileType fileName)).
  { intros fileName. unfold Treedata.readFileType.
    destruct (readFileType_loop_ends (String.length fileName) fileName
                EmptyString (String.length fileName + 2))
      as [suffix' ->]; [lia..|]. by eexists. }
  cut (Treedata.readFileType suffix = Some (Treedata.fileType_of suffix) ∧
       Treedata.readFileType (base +:+ "." +:+ suffix)
         = Some (Treedata.fileType_of suffix) ∧
       (Treedata.fileType_of suffix = Treedata.AFM ↔
          suffix = "AFM" ∨ suffix = "afm") ∧
       (Treedata.fileType_of suffix = Treedata.ARFF ↔
          suffix = "ARFF" ∨ suffix = "arff") ∧
       (Treedata.fileType_of suffix = Treedata.UNKNOWN ↔
          suffix ∉ ["AFM"; "afm"; "ARFF"; "arff"])).
  { intros (? & ? & ? & ? & ?). done. }
  split; [|split].
  - unfold Treedata.readFileType.
    rewrite readFileType_loop_last by (done || lia). done.
  - unfold Treedata.readFileType. rewrite string_app_cons, string_app_nil.
    rewrite (readFileType_loop_fields (String.length base)); [done..|].
    rewrite string_app_length. cbn [String.length]. lia.
  - assert (Hcases : suffix = "AFM" ∨ suffix = "afm" ∨ suffix = "ARFF" ∨
                     suffix = "arff" ∨
                     suffix ∉ ["AFM"; "afm"; "ARFF"; "arff"]).
    { destruct (decide (suffix ∈ ["AFM"; "afm"; "ARFF"; "arff"]))
        as [Hin|Hout]; [|by repeat right].
      set_unfold in Hin. tauto. }
    assert (Hin : ∀ x : string, x ∈ ["AFM"; "afm"; "ARFF"; "arff"] ↔
              x = "AFM" ∨ x = "afm" ∨ x = "ARFF" ∨ x = "arff")
      by (intros x; set_unfold; tauto).
    destruct Hcases as [->|[->|[->|[->|Hout]]]].
    + replace (Treedata.fileType_of "AFM") with Treedata.AFM
        by (by vm_compute).
      rewrite Hin. repeat split; try done; try (by intros [|]); tauto.
    + replace (Treedata.fileType_of "afm") with Treedata.AFM
        by (by vm_compute).
      rewrite Hin. repeat split; try done; try (by intros [|]); tauto.
    + replace (Treedata.fileType_of "ARFF") with Treedata.ARFF
        by (by vm_compute).
      rewrite Hin. repeat split; try done; try (by intros [|]); tauto.
    + replace (Treedata.fileType_of "arff") with Treedata.ARFF
        by (by vm_compute).
      rewrite Hin. repeat split; try done; try (by intros [|]); tauto.
    + assert (Hun : Treedata.fileType_of suffix = Treedata.UNKNOWN).
      { unfold Treedata.fileType_of. rewrite Hin in Hout.
        rewrite !bool_decide_eq_false_2 by tauto. done. }
      rewrite Hun, Hin. rewrite Hin in Hout.
      repeat split; try done; tauto.
Qed.

(** X17. On a line made of a header, a name and a type parted by single
    spaces, [parseARFFattribute] returns the name, and finds the attribute
    numerical exactly when the upper case of the type, which is all the
    rest of the line, spaces included, is [NUMERIC] or [REAL]; a line
    without a type is judged by the upper case of the empty string. *)
Theorem parseARFFattribute_fields `{MoreUtils}
    (header name type_ : string) :
  free_of " "%char header = true → free_of " "%char name = true →
  free_of "010"%char type_ = true →
  Treedata.parseARFFattribute (header +:+ " " +:+ name +:+ " " +:+ type_)
    = (name, bool_decide (toUpperCase type_ = "NUMERIC" ∨
                          toUpperCase type_ = "REAL")) ∧
  Treedata.parseARFFattribute (header +:+ " " +:+ name)
    = (name, bool_decide (toUpperCase EmptyString = "NUMERIC" ∨
                          toUpperCase EmptyString = "REAL")).
Proof.
  intros Hh Hn Ht. unfold Treedata.parseARFFattribute.
  rewrite !string_app_cons, !string_app_nil. split.
  - rewrite getline_field by done. rewrite getline_field by done.
    rewrite getline_last by done.
    destruct (bool_decide_reflect (toUpperCase type_ = "NUMERIC"));
      destruct (bool_decide_reflect (toUpperCase type_ = "REAL")); cbn [orb];
      f_equal; symmetry;
      ((apply bool_decide_eq_true_2; tauto) ||
       (apply bool_decide_eq_false_2; tauto)).
  - rewrite getline_field by done. rewrite getline_last by done.
    unfold getline. cbn [eofbit failbit orb].
    destruct (bool_decide_reflect (toUpperCase EmptyString = "NUMERIC"));
      destruct (bool_decide_reflect (toUpperCase EmptyString = "REAL"));
      cbn [orb]; f_equal; symmetry;
      ((apply bool_decide_eq_true_2; tauto) ||
       (apply bool_decide_eq_false_2; tauto)).
Qed.

Section CategoricalSplit.
Context `{MoreUtils}.
Context (Hlaws : NumLaws).

Lemma set_insert_above (x : num_t) (s : list num_t) :
  Forall (λ y, num_lt y x = true) s → set_insert x s = s ++ [x].
Proof using Hlaws.
  induction 1 as [|y s Hy _ IH]; [done|]. cbn [set_insert].
  rewrite (num_lt_asym _ _ Hy), Hy, IH. done.
Qed.

Variable sampleIcs : list nat.

Local Abbreviation pick := (λ k, default 0 (sampleIcs !! k)).

Lemma assign_body_loop (ids side : list nat) (iter : nat) :
  Forall (λ k, k < length sampleIcs) ids →
  iter + length ids ≤ length side →
  ∃ side', for_range 0 (length ids)
             (Treedata.assign_body sampleIcs ids) (side, iter)
           = Ok (side', iter + length ids) ∧
           length side' = length side ∧
           take (iter + length ids) side' = take iter side ++ (pick <$> ids).
Proof.
  intros Hids Hroom.
  destruct (for_range_inv
    (λ i (s : list nat * nat), s.2 = iter + i ∧ length s.1 = length side ∧
       take s.2 s.1 = take iter side ++ (pick <$> take i ids))
    (Treedata.assign_body sampleIcs ids) (length ids) 0 (side, iter))
    as ([side' it] & Hrun & Hit & Hlen & Htake).
  - cbn [fst snd]. rewrite Nat.add_0_r, take_0. cbn. by rewrite app_nil_r.
  - intros i [sd it] Hi (Hit & Hlen & Htake). cbn [fst snd] in *. subst it.
    destruct (lookup_lt_is_Some_2 ids i) as [k Hk]; [lia|].
    pose proof (Forall_lookup_1 _ _ _ _ Hids Hk) as Hkr. cbn beta in Hkr.
    destruct (lookup_lt_is_Some_2 sampleIcs k Hkr) as [x Hx].
    unfold Treedata.assign_body.
    rewrite (at_Ok _ _ _ Hk). cbn [mbind result_bind].
    rewrite (at_Ok _ _ _ Hx). cbn [mbind result_bind].
    rewrite set_at_Ok by lia. cbn [mbind result_bind mret result_ret].
    eexists; split; [done|]. cbn [fst snd].
    split; [lia|]. split; [by rewrite length_insert|].
    replace (iter + S i) with (S (iter + i)) by lia.
    rewrite take_S_insert by lia. rewrite Htake, (take_S_r _ _ _ Hk).
    rewrite fmap_app, app_assoc. cbn. by rewrite Hx.
  - cbn [fst snd Nat.add] in *. subst it. exists side'.
    split; [done|]. split; [done|]. by rewrite firstn_all in Htake.
Qed.

Lemma assign_entry_eq key ids side iter splitValues :
  Treedata.assign_entry sampleIcs (key, ids) (side, iter, splitValues)
  = '(side, iter) ← for_range 0 (length ids)
                      (Treedata.assign_body sampleIcs ids) (side, iter);
    Ok (side, iter, set_insert key splitValues).
Proof. done. Qed.

Lemma assign_entries (m : cat_map) :
  ∀ (seen : list nat) (keys : list num_t) (side : list nat),
    Forall (λ k, k < length sampleIcs) (concat m.*2) →
    length seen + length (concat m.*2) ≤ length side →
    StronglySorted (λ a b, num_lt a b = true) (keys ++ m.*1) →
    take (length seen) side = pick <$> seen →
    ∃ side',
      for_each m (Treedata.assign_entry sampleIcs) (side, length seen, keys)
      = Ok (side', length seen + length (concat m.*2), keys ++ m.*1) ∧
      length side' = length side ∧
      take (length seen + length (concat m.*2)) side'
      = pick <$> (seen ++ concat m.*2).
Proof using Hlaws.
  induction m as [|[key ids] m IH]; intros seen keys side Hids Hroom Hkeys Hseen.
  - cbn [fmap list_fmap concat length for_each]. rewrite !app_nil_r.
    rewrite Nat.add_0_r. by exists side.
  - cbn [fmap list_fmap concat fst snd] in *.
    apply Forall_app in Hids as [Hi Hm]. rewrite length_app in Hroom.
    cbn [for_each]. rewrite assign_entry_eq.
    destruct (assign_body_loop ids side (length seen))
      as (side1 & -> & Hl1 & Ht1); [done|lia|].
    cbn [mbind result_bind mret result_ret].
    rewrite set_insert_above.
    2:{ apply Forall_forall. intros y Hy.
        apply (StronglySorted_app_1_elem_of
                 (λ a b : num_t, num_lt a b = true) keys (key :: m.*1)
                 y key Hkeys Hy). by left. }
    destruct (IH (seen ++ ids) (keys ++ [key]) side1)
      as (side' & Hrun & Hl' & Ht').
    + done.
    + rewrite length_app. lia.
    + by rewrite <- app_assoc.
    + by rewrite length_app, Ht1, Hseen, fmap_app.
    + rewrite length_app in Hrun, Ht'. rewrite <- !app_assoc in Hrun.
      rewrite <- app_assoc in Ht'. cbn [app] in Hrun.
      rewrite length_app, Nat.add_assoc.
      exists side'. rewrite Hrun. split; [done|]. split; [congruence|done].
Qed.

Lemma assign_side_spec (side : list nat) (n_tot : nat) (m : cat_map)
    (assertion : string) :
  Forall (λ k, k < length sampleIcs) (concat m.*2) →
  length (concat m.*2) ≤ n_tot →
  StronglySorted (λ a b, num_lt a b = true) m.*1 →
  Treedata.assign_side sampleIcs side n_tot m assertion
  = Ok (pick <$> concat m.*2, m.*1).
Proof using Hlaws.
  intros Hids Hroom Hkeys. unfold Treedata.assign_side.
  destruct (assign_entries m [] [] (resize n_tot 0 side))
    as (side' & Hrun & Hl & Ht); cbn [app length Nat.add]; try done.
  { by rewrite length_resize. }
  cbn [app length Nat.add] in Hrun, Ht. rewrite Hrun.
  cbn [mbind result_bind mret result_ret].
  rewrite length_fmap, bool_decide_eq_true_2 by done.
  cbn [assert mbind result_bind].
  rewrite length_resize in Hl.
  rewrite resize_le by lia. by rewrite Ht.
Qed.

End CategoricalSplit.

Lemma pick_all (l : list nat) :
  (λ k, default 0 (l !! k)) <$> seq 0 (length l) = l.
Proof.
  apply list_eq. intros i. rewrite list_lookup_fmap.
  destruct (decide (i < length l)) as [Hi|Hi].
  - rewrite lookup_seq_lt by done. cbn.
    by destruct (lookup_lt_is_Some_2 l i Hi) as [x ->].
  - rewrite lookup_seq_ge by lia. cbn. symmetry. apply lookup_ge_None_2. lia.
Qed.

Lemma pick_Forall2 (l ids : list nat) :
  Forall (λ k, k < length l) ids →
  Forall2 (λ k x, l !! k = Some x) ids ((λ k, default 0 (l !! k)) <$> ids).
Proof.
  induction 1 as [|k ids Hk _ IH]; cbn; constructor; [|done].
  by destruct (lookup_lt_is_Some_2 l k Hk) as [x ->].
Qed.

Section CategoricalSplitRuns.
Context `{MoreUtils}.
Variables (td : Treedata.t) (targetIdx featureIdx : nat) (T F : Feature.t).
Variables (minSamples : N) (sampleIcs_left sampleIcs_right : list nat).
Variables (splitValues_left splitValues_right : list num_t).
Variables (tv fv : list num_t).
Hypothesis HT : Treedata.features_ td !! targetIdx = Some T.
Hypothesis HF : Treedata.features_ td !! featureIdx = Some F.
Hypothesis Hrange :
  Forall (λ idx, idx < length (Feature.data T) ∧
                 idx < length (Feature.data F)) sampleIcs_right.

Local Abbreviation kept :=
  (filter (λ idx, real_at (Feature.data T) idx ∧
                  real_at (Feature.data F) idx) sampleIcs_right).

Hypothesis Htv : Forall2 (λ idx v, Feature.data T !! idx = Some v) kept tv.
Hypothesis Hfv : Forall2 (λ idx v, Feature.data F !! idx = Some v) kept fv.

Local Abbreviation found :=
  (if Feature.isNumerical T
   then categoricalFeatureSplitsNumericalTarget tv fv minSamples [] []
   else categoricalFeatureSplitsCategoricalTarget tv fv minSamples [] []).

Lemma categoricalFeatureSplit_filtered :
  Treedata.getFilteredFeatureDataPair td targetIdx featureIdx
    sampleIcs_right [] [] = Ok (kept, tv, fv).
Proof using HT HF Hrange Htv Hfv.
  destruct (pair_filter_result td targetIdx featureIdx T F sampleIcs_right
              [] [] HT HF Hrange) as (ics & d1 & d2 & -> & -> & Hd1 & Hd2).
  do 2 f_equal; [f_equal|].
  - eapply (Forall2_lookup_functional (Feature.data T));
      [|exact Hd1|exact Htv]. intros x y z. apply lookup_functional.
  - eapply (Forall2_lookup_functional (Feature.data F));
      [|exact Hd2|exact Hfv]. intros x y z. apply lookup_functional.
Qed.

Lemma categoricalFeatureSplit_few :
  (N.of_nat (length kept) < size_t_mul 2 minSamples)%N →
  Treedata.categoricalFeatureSplit td targetIdx featureIdx minSamples
    sampleIcs_left sampleIcs_right splitValues_left splitValues_right
  = Ok (num_zero, [], kept, splitValues_left, splitValues_right).
Proof using HT HF Hrange Htv Hfv.
  intros Hfew. unfold Treedata.categoricalFeatureSplit.
  rewrite categoricalFeatureSplit_filtered.
  cbn [mbind result_bind mret result_ret].
  pose proof (Forall2_length _ _ _ Hfv) as Hlen.
  unfold size. rewrite <- Hlen. by rewrite decide_True.
Qed.

Lemma categoricalFeatureSplit_searches :
  ¬ (N.of_nat (length kept) < size_t_mul 2 minSamples)%N →
  Treedata.categoricalFeatureSplit td targetIdx featureIdx minSamples
    sampleIcs_left sampleIcs_right splitValues_left splitValues_right
  = if num_lt (fabs found.1.1) EPS
    then Ok (found.1.1, [], kept, splitValues_left, splitValues_right)
    else
      '(sampleIcs_left, splitValues_left) ←
        Treedata.assign_side kept [] (length fv) found.1.2
          "splitValues_left.size() == fmap_left.size()";
      '(sampleIcs_right, splitValues_right) ←
        Treedata.assign_side kept kept (length fv) found.2
          "splitValues_right.size() == fmap_right.size()";
      Ok (found.1.1, sampleIcs_left, sampleIcs_right,
          splitValues_left, splitValues_right).
Proof using HT HF Hrange Htv Hfv.
  intros Hmany. unfold Treedata.categoricalFeatureSplit.
  rewrite categoricalFeatureSplit_filtered.
  cbn [mbind result_bind mret result_ret].
  pose proof (Forall2_length _ _ _ Hfv) as Hlen.
  unfold size. rewrite <- Hlen. rewrite decide_False by done.
  unfold Treedata.isFeatureNumerical. rewrite (at_Ok _ _ _ HT).
  cbn [mbind result_bind mret result_ret]. rewrite Hlen. done.
Qed.

End CategoricalSplitRuns.

(** X18. [categoricalFeatureSplit] first clears the left samples and
    reduces the right samples to those at which neither the target nor the
    feature is missing, in their order. When fewer than [2 * minSamples]
    of them are left it returns 0, and when the split search returns a
    decrease within [EPS] of 0 it returns that decrease; both times the
    left samples are empty, the right samples are the reduced list, still
    in the input order, and the two sets of split values are as they came
    in. *)
Theorem categoricalFeatureSplit_no_split `{MoreUtils} (td : Treedata.t)
    (targetIdx featureIdx : nat) (T F : Feature.t) (minSamples : N)
    (sampleIcs_left sampleIcs_right : list nat)
    (splitValues_left splitValues_right tv fv : list num_t) :
  Treedata.features_ td !! targetIdx = Some T →
  Treedata.features_ td !! featureIdx = Some F →
  Forall (λ idx, idx < length (Feature.data T) ∧
                 idx < length (Feature.data F)) sampleIcs_right →
  let kept := filter (λ idx, real_at (Feature.data T) idx ∧
                             real_at (Feature.data F) idx) sampleIcs_right in
  Forall2 (λ idx v, Feature.data T !! idx = Some v) kept tv →
  Forall2 (λ idx v, Feature.data F !! idx = Some v) kept fv →
  let DI_best :=
    (if Feature.isNumerical T
     then categoricalFeatureSplitsNumericalTarget tv fv minSamples [] []
     else categoricalFeatureSplitsCategoricalTarget tv fv minSamples [] []).1.1
  in
  ((N.of_nat (length kept) < size_t_mul 2 minSamples)%N →
   Treedata.categoricalFeatureSplit td targetIdx featureIdx minSamples
     sampleIcs_left sampleIcs_right splitValues_left splitValues_right
   = Ok (num_zero, [], kept, splitValues_left, splitValues_right)) ∧
  (¬ (N.of_nat (length kept) < size_t_mul 2 minSamples)%N →
   num_lt (fabs DI_best) EPS = true →
   Treedata.categoricalFeatureSplit td targetIdx featureIdx minSamples
     sampleIcs_left sampleIcs_right splitValues_left splitValues_right
   = Ok (DI_best, [], kept, splitValues_left, splitValues_right)).
Proof.
  intros HT HF Hrange kept Htv Hfv DI_best. split.
  - apply (categoricalFeatureSplit_few td targetIdx featureIdx T F minSamples
             sampleIcs_left sampleIcs_right splitValues_left
             splitValues_right tv fv HT HF Hrange Htv Hfv).
  - intros Hmany Hsmall.
    rewrite (categoricalFeatureSplit_searches td targetIdx featureIdx T F
               minSamples sampleIcs_left sampleIcs_right splitValues_left
               splitValues_right tv fv HT HF Hrange Htv Hfv Hmany).
    fold DI_best. by rewrite Hsmall.
Qed.

(** X19. When enough samples are left and the split search returns a
    decrease that is not within [EPS] of 0, with two maps whose positions
    fit the reduced sample list and whose keys ascend,
    [categoricalFeatureSplit] returns that decrease; each side receives,
    category by category in the order of the keys, the reduced samples at
    the positions its map lists, and the keys of its map as split values.
    If the two maps together list every position once, the two sides
    together are the reduced samples, each one once. *)
Theorem categoricalFeatureSplit_assigns `{MoreUtils} (Hlaws : NumLaws)
    (td : Treedata.t) (targetIdx featureIdx : nat) (T F : Feature.t)
    (minSamples : N) (sampleIcs_left sampleIcs_right : list nat)
    (splitValues_left splitValues_right tv fv : list num_t) :
  Treedata.features_ td !! targetIdx = Some T →
  Treedata.features_ td !! featureIdx = Some F →
  Forall (λ idx, idx < length (Feature.data T) ∧
                 idx < length (Feature.data F)) sampleIcs_right →
  let kept := filter (λ idx, real_at (Feature.data T) idx ∧
                             real_at (Feature.data F) idx) sampleIcs_right in
  Forall2 (λ idx v, Feature.data T !! idx = Some v) kept tv →
  Forall2 (λ idx v, Feature.data F !! idx = Some v) kept fv →
  let found :=
    (if Feature.isNumerical T
     then categoricalFeatureSplitsNumericalTarget tv fv minSamples [] []
     else categoricalFeatureSplitsCategoricalTarget tv fv minSamples [] []) in
  ¬ (N.of_nat (length kept) < size_t_mul 2 minSamples)%N →
  num_lt (fabs found.1.1) EPS = false →
  side_fits (length kept) found.1.2 →
  side_fits (length kept) found.2 →
  ∃ left right,
    Treedata.categoricalFeatureSplit td targetIdx featureIdx minSamples
      sampleIcs_left sampleIcs_right splitValues_left splitValues_right
    = Ok (found.1.1, left, right, found.1.2.*1, found.2.*1) ∧
    Forall2 (λ k idx, kept !! k = Some idx) (concat found.1.2.*2) left ∧
    Forall2 (λ k idx, kept !! k = Some idx) (concat found.2.*2) right ∧
    (concat found.1.2.*2 ++ concat found.2.*2 ≡ₚ seq 0 (length kept) →
     left ++ right ≡ₚ kept).
Proof.
  intros HT HF Hrange kept Htv Hfv found Hmany Hbig
    (Hl1 & Hl2 & Hl3) (Hr1 & Hr2 & Hr3).
  pose proof (Forall2_length _ _ _ Hfv) as Hlen.
  rewrite (categoricalFeatureSplit_searches td targetIdx featureIdx T F
             minSamples sampleIcs_left sampleIcs_right splitValues_left
             splitValues_right tv fv HT HF Hrange Htv Hfv Hmany).
  fold found. fold kept. rewrite Hbig.
  rewrite (assign_side_spec Hlaws kept [] (length fv) found.1.2)
    by (done || lia).
  cbn [mbind result_bind].
  rewrite (assign_side_spec Hlaws kept kept (length fv) found.2)
    by (done || lia).
  cbn [mbind result_bind].
  do 2 eexists. split; [done|]. split; [by apply pick_Forall2|].
  split; [by apply pick_Forall2|].
  intros Hperm. rewrite <- fmap_app, Hperm. by rewrite pick_all.
Qed.

Lemma Forall2_lookup_fmap {A} (d : list A) (z : A) (l : list nat)
    (vs : list A) :
  Forall2 (λ idx v, d !! idx = Some v) l vs →
  vs = (λ idx, default z (d !! idx)) <$> l.
Proof.
  induction 1 as [|idx v l vs Hv _ IH]; [done|]. cbn. by rewrite Hv, IH.
Qed.

(** X20. On sample indices inside the data of both features,
    [getFilteredAndSortedFeatureDataPair3] leaves the samples at which the
    feature is not missing, ordered so that their feature values ascend,
    beside those feature values and the target values of the same
    samples; a sample whose target is missing stays, with its missing
    target value. Samples and feature values are those
    [getFilteredFeatureData] returns for the feature, rearranged. *)
Theorem getFilteredAndSortedFeatureDataPair3_sorts `{NumT}
    (Hlaws : NumLaws) (td : Treedata.t) (targetIdx featureIdx : nat)
    (T F : Feature.t) (sampleIcs : list nat) :
  Treedata.features_ td !! targetIdx = Some T →
  Treedata.features_ td !! featureIdx = Some F →
  Forall (λ idx, idx < length (Feature.data T) ∧
                 idx < length (Feature.data F)) sampleIcs →
  ∃ sorted tv fv fd ics,
    Treedata.getFilteredAndSortedFeatureDataPair3 td targetIdx featureIdx
      sampleIcs = Ok (sorted, tv, fv) ∧
    Treedata.getFilteredFeatureData td featureIdx sampleIcs = Ok (fd, ics) ∧
    sorted ≡ₚ ics ∧ fv ≡ₚ fd ∧
    (∀ idx, idx ∈ sorted ↔
            idx ∈ sampleIcs ∧ real_at (Feature.data F) idx) ∧
    StronglySorted num_le fv ∧
    Forall2 (λ idx v, Feature.data F !! idx = Some v ∧ isNAN v = false)
      sorted fv ∧
    Forall2 (λ idx v, Feature.data T !! idx = Some v) sorted tv.
Proof.
  intros HT HF Hrange.
  destruct (getFilteredAndSortedFeatureDataPair3_spec Hlaws td targetIdx
              featureIdx T F sampleIcs HT HF Hrange)
    as (sorted & tv & fv & Hrun & Hperm & Hfv & Hsorted & Htv).
  destruct (getFilteredFeatureData_filters td featureIdx F sampleIcs HF)
    as (fd & ics & Hrun' & Hics & Hfd).
  { eapply Forall_impl; [exact Hrange|]. by intros idx [_ ?]. }
  exists sorted, tv, fv, fd, ics. do 2 (split; [done|]).
  rewrite <- Hics in Hperm. split; [done|]. split.
  - rewrite (Forall2_lookup_fmap (Feature.data F) num_zero ics fd Hfd).
    rewrite (Forall2_lookup_fmap (Feature.data F) num_zero sorted fv).
    + by rewrite Hperm.
    + eapply Forall2_impl; [exact Hfv|]. by intros idx v [? _].
  - split; [|done]. intros idx. rewrite Hperm, Hics, list_elem_of_filter.
    tauto.
Qed.

Lemma getRawFeatureData_value_shown `{MoreUtils} (td : Treedata.t)
    (featureIdx : nat) (F : Feature.t) (v : num_t) :
  Treedata.features_ td !! featureIdx = Some F →
  (shown F v → ∃ s, Treedata.getRawFeatureData_value td featureIdx v = Ok s ∧
                    shows F v s) ∧
  (¬ shown F v →
   Treedata.getRawFeatureData_value td featureIdx v =
     Exit "Treedata::getRawFeatureData() -- unknown value to get").
Proof.
  intros HF. unfold Treedata.getRawFeatureData_value, shown, shows.
  destruct (isNAN v) eqn:Hn.
  { split; [by eexists|]. intros Hno. destruct Hno. by left. }
  rewrite (at_Ok _ _ _ HF). cbn [mbind result_bind mret result_ret].
  destruct (Feature.isNumerical F) eqn:Hnum.
  { split; [by eexists|]. intros Hno. destruct Hno. right. by left. }
  destruct (Treedata.map_find (Feature.backMapping F) v) as [s|] eqn:Hfind.
  - split; [by eexists|]. intros Hno. destruct Hno. right. right. by eexists.
  - split; [|done]. intros [?|[?|[s ?]]]; done.
Qed.

(** X21. For a feature with a value for every sample,
    [getRawFeatureData(featureIdx)] returns one string for each sample:
    [STR_NAN] for a missing value, [num2str] of the value of a numerical
    feature, and otherwise the category that [backMapping] has for the
    value. It exits with its message when a value that is not missing has
    no category; on a numerical feature this never happens. *)
Theorem getRawFeatureData_shows `{MoreUtils} (td : Treedata.t)
    (featureIdx : nat) (F : Feature.t) :
  Treedata.features_ td !! featureIdx = Some F →
  Treedata.nSamples td ≤ length (Feature.data F) →
  let values := take (Treedata.nSamples td) (Feature.data F) in
  (Forall (shown F) values →
   ∃ rawData, Treedata.getRawFeatureData td featureIdx = Ok rawData ∧
              Forall2 (shows F) values rawData) ∧
  (¬ Forall (shown F) values →
   Treedata.getRawFeatureData td featureIdx =
     Exit "Treedata::getRawFeatureData() -- unknown value to get") ∧
  (Feature.isNumerical F = true → Forall (shown F) values).
Proof.
  intros HF Hlen values.
  set (n := Treedata.nSamples td) in *.
  assert (Hvl : length values = n) by (unfold values; rewrite length_take; lia).
  assert (Hval : ∀ i v, values !! i = Some v →
                        Treedata.value td featureIdx i = Ok v).
  { intros i v Hv. apply (value_Ok _ _ F); [done|].
    unfold values in Hv. apply lookup_take_Some in Hv. tauto. }
  set (I := λ (i : nat) (raw : list string),
              length raw = n ∧ Forall2 (shows F) (take i values) (take i raw)).
  assert (Hstep : ∀ i raw, i < n → I i raw →
            (∀ v, values !! i = Some v → shown F v) →
            ∃ raw', (s ← Treedata.getRawFeatureData_sample td featureIdx i;
                     set_at raw i s) = Ok raw' ∧ I (S i) raw').
  { intros i raw Hi [Hrl Hraw] Hshown.
    destruct (lookup_lt_is_Some_2 values i) as [v Hv]; [lia|].
    unfold Treedata.getRawFeatureData_sample.
    rewrite (Hval _ _ Hv). cbn [mbind result_bind].
    destruct (proj1 (getRawFeatureData_value_shown td featureIdx F v HF)
                (Hshown _ Hv)) as (s & -> & Hs).
    cbn [mbind result_bind]. rewrite set_at_Ok by lia.
    eexists; split; [done|]. split; [by rewrite length_insert|].
    rewrite take_S_insert by lia. rewrite (take_S_r _ _ _ Hv).
    apply Forall2_app; [done|]. by repeat constructor. }
  unfold Treedata.getRawFeatureData. rewrite length_replicate.
  fold (Treedata.nSamples td). fold n.
  split; [|split].
  - intros Hall.
    destruct (for_range_inv I
      (λ i rawData, s ← Treedata.getRawFeatureData_sample td featureIdx i;
                    set_at rawData i s) n 0 (replicate n EmptyString))
      as (raw & Hrun & Hrl & Hraw).
    + split; [by rewrite length_replicate|]. rewrite !take_0. constructor.
    + intros i raw Hi Hinv. apply Hstep; [lia|done|].
      intros v Hv. by apply (Forall_lookup_1 _ _ _ _ Hall Hv).
    + exists raw. split; [done|]. cbn [Nat.add] in Hraw.
      by rewrite !take_ge in Hraw by lia.
  - intros Hbad.
    destruct (first_outside _ values Hbad) as (k & v & Hk & Hv & Hbefore).
    pose proof (lookup_lt_Some _ _ _ Hk) as Hklt.
    apply (for_range_fails I _ _ k); [done|lia| | |].
    + split; [by rewrite length_replicate|]. rewrite !take_0. constructor.
    + intros i raw Hi Hinv. apply Hstep; [lia|done|].
      intros w Hw. apply (Forall_lookup_1 _ _ i w Hbefore).
      by rewrite lookup_take_lt by lia.
    + intros raw _. unfold Treedata.getRawFeatureData_sample.
      rewrite (Hval _ _ Hk). cbn [mbind result_bind].
      by rewrite (proj2 (getRawFeatureData_value_shown td featureIdx F v HF) Hv).
  - intros Hnum. apply Forall_forall. intros v _. right. by left.
Qed.

(** ** The concrete instance obeys the laws *)

Section ExampleLaws.
Import Example.

Lemma example_num_laws : @NumLaws example_num.
Proof.
  split.
  - intros [x|] [y|]; simpl; try done. unfold dbl_lt.
    rewrite !negb_true_iff, !negb_false_iff.
    intros Hxy. apply QArith_base.Qle_bool_iff.
    destruct (QArith_base.Qle_bool y x) eqn:Hle; [done|].
    apply QArith_base.Qlt_le_weak, QArith_base.Qnot_le_lt.
    intros Hc. apply QArith_base.Qle_bool_iff in Hc. congruence.
  - intros [x|] [y|] [z|]; simpl; try done. intros _ _ _. unfold dbl_lt.
    rewrite !negb_false_iff, !QArith_base.Qle_bool_iff.
    intros Hxy Hyz. by eapply QArith_base.Qle_trans.
  - done.
  - intros n _. simpl. unfold dbl_floor, num, lift2. simpl.
    rewrite Z.div_1_r. destruct n; simpl; lia.
Qed.

Lemma example_permute_law : @PermuteLaw example_num example_utils.
Proof.
  intros A l r. simpl. unfold rotate.
  rewrite Permutation_app_comm. by rewrite take_drop.
Qed.

End ExampleLaws.

(** ** The model on concrete tables *)

Section Runs.
Import Example.
#[local] Existing Instance example_num.
#[local] Existing Instance example_utils.
#[local] Existing Instance example_more.

(** C4. The constructor from features accepts two features of the same
    name: it returns a table that holds both, and whose name index sends the
    name to the second. *)
Theorem ofFeatures_accepts_duplicate_names :
  ∃ td, Treedata.ofFeatures same_name false [] = Ok td ∧
        Feature.name <$> Treedata.features_ td = ["N:x"; "N:x"] ∧
        Treedata.name2idx_ td !! "N:x" = Some 1.
Proof. eexists. split; [reflexivity|]. split; reflexivity. Qed.

(** The constructor from a file refuses the same two names. *)
Lemma ofFile_rejects_same_name :
  ∃ h, Treedata.ofFile [["1"]; ["2"]] ["N:x"; "N:x"] [Feature.NUM; Feature.NUM]
         ["s0"] false
       = Exit ("Duplicate feature header '" +:+ h +:+ "' found!").
Proof.
  apply ofFile_rejects_duplicate_headers; [done|done|by repeat constructor|].
  intros Hnd. apply NoDup_cons in Hnd as [Hnin _]. apply Hnin. by left.
Qed.

(** C2, as the spec has it, fails: with no value missing and fewer than
    [2 * minSamples] samples, the right list [0; 1] comes back as [1; 0]. *)
Lemma numericalFeatureSplit_reorders :
  Forall (λ f, Forall (λ v, isNAN v = false) (Feature.data f))
    (Treedata.features_ descending) ∧
  Treedata.numericalFeatureSplit descending 1 0 5 [] [0; 1] (num 0)
    = Ok (num 0, [], [1; 0], num 0) ∧
  [1; 0] ≠ [0; 1].
Proof. split; [by repeat constructor|]. split; [reflexivity|done]. Qed.

(** [getHash] on a text whose tokens are [a] and [b], and on a text
    without tokens. *)
Lemma getHash_witness :
  (∃ h, Feature.getHash texts 0 5 = Ok h ∧ h ∈ [97%N; 98%N] ∧
        Feature.hasHash texts 0 h = Ok true) ∧
  Feature.getHash texts_with_empty 1 5 = Undefined.
Proof.
  split.
  - apply (getHash_defined_iff_nonempty_and_member texts 0 5 [97%N; 98%N]);
      [reflexivity|reflexivity|discriminate].
  - apply (getHash_defined_iff_nonempty_and_member texts_with_empty 1 5 []);
      reflexivity.
Defined.

(** The pairwise filter keeps the samples 3 and 0 of [two_columns]. *)
Lemma getFilteredFeatureDataPair_witness :
  ∃ ics fd1 fd2,
    Treedata.getFilteredFeatureDataPair two_columns 0 1 [3; 0; 2; 1; 0] [] []
      = Ok (ics, fd1, fd2) ∧
    ics = [3; 0; 0] ∧ length fd1 = length ics ∧ length fd2 = length ics.
Proof.
  destruct (getFilteredFeatureDataPair_filters two_columns 0 1 col_x col_y
              [3; 0; 2; 1; 0] [] [] eq_refl eq_refl)
    as (ics & fd1 & fd2 & Hcall & Hics & _ & Hl1 & Hl2 & _).
  - repeat constructor.
  - exists ics, fd1, fd2. split; [exact Hcall|]. split; [exact Hics|].
    split; assumption.
Defined.

(** A numerical and a textual feature are refused. *)
Lemma ofFeatures_textual_witness :
  Treedata.ofFeatures mixed false []
    = AssertFail "features_[featureIdx].data.size() == nSamples" ∨
  Treedata.ofFeatures mixed false [] = AssertFail "nSamples > 0".
Proof.
  apply (ofFeatures_textual_fails mixed false [] ["a b"; "c"] "T:t").
  repeat constructor.
Defined.



(** The token [a] splits the three texts into the samples 0 and 2, and 1;
    with [minSamples = 2] the right side is too small, and the lists come
    back at the input length. *)
Lemma textualFeatureSplit_witness :
  (∃ DI, Treedata.textualFeatureSplit with_text 1 0 97%N 1 [] [0; 1; 2]
         = Ok (DI, [0; 2], [1])) ∧
  (∃ left right,
     Treedata.textualFeatureSplit with_text 1 0 97%N 2 [] [0; 1; 2]
       = Ok (num 0, left, right) ∧ length left = 3 ∧ length right = 3).
Proof.
  split.
  - destruct (textualFeatureSplit_partitions with_text 1 0 97%N 1 []
                [0; 1; 2] texts col_n eq_refl eq_refl eq_refl)
      as (DI & left & right & Hcall & _ & Hbig).
    + repeat constructor.
    + exists DI. rewrite Hcall.
      destruct Hbig as (-> & -> & _); [|reflexivity].
      intros [Hs|Hs]; vm_compute in Hs; discriminate.
  - destruct (textualFeatureSplit_partitions with_text 1 0 97%N 2 []
                [0; 1; 2] texts col_n eq_refl eq_refl eq_refl)
      as (DI & left & right & Hcall & Hsmall & _).
    + repeat constructor.
    + destruct Hsmall as (-> & Hl & Hr & _); [right; reflexivity|].
      exists left, right. split; [exact Hcall|]. split; assumption.
Defined.



(** Too few samples of [two_columns]: the three samples with a feature
    value come back in the order of these values. *)
Lemma numericalFeatureSplit_no_boundary_witness :
  Treedata.numericalFeatureSplit two_columns 1 0 5 [] [0; 1; 2; 3] (num 7)
  = Ok (num 0, [], [1; 3; 0], num 7).
Proof.
  destruct (numericalFeatureSplit_no_boundary example_num_laws two_columns
              1 0 5 [] [0; 1; 2; 3] (num 7) col_y col_x eq_refl eq_refl)
    as (sorted & tv & fv & Hp3 & _ & _ & _ & Hnone).
  - repeat constructor.
  - vm_compute in Hp3. injection Hp3 as <- <- <-.
    apply Hnone. left. reflexivity.
Defined.

(** Without replacement and with fraction 1.0 all three real samples of
    the first column are drawn; with replacement and fraction 2/3 two are
    drawn, and the out-of-bag list is the real samples not drawn. *)
Lemma bootstrapFromRealSamples_witness :
  (∃ random',
     Treedata.bootstrapFromRealSamples two_columns [2%N] false (num 1) 0 [] []
     = Ok ([0; 1; 3], [], random')) ∧
  (∃ inBag outOfBag random',
     Treedata.bootstrapFromRealSamples two_columns [2%N; 2%N] true two_thirds
       0 [] [] = Ok (inBag, outOfBag, random') ∧
     length inBag = 2 ∧
     outOfBag = filter (λ i, i ∉ inBag) [0; 1; 3]).
Proof.
  split.
  - destruct (bootstrapFromRealSamples_in_bag_and_out_of_bag example_num_laws
                example_permute_law two_columns 0 col_x [2%N] false (num 1)
                [] [] eq_refl) as [_ Hall].
    + repeat constructor.
    + apply Hall; reflexivity.
  - destruct (bootstrapFromRealSamples_in_bag_and_out_of_bag example_num_laws
                example_permute_law two_columns 0 col_x [2%N; 2%N] true
                two_thirds [] [] eq_refl) as [Hgen _].
    + repeat constructor.
    + destruct Hgen as (inBag & outOfBag & random' & Hcall & Hlen & _ & _
                        & Hoob & _); [reflexivity|right; discriminate|].
      exists inBag, outOfBag, random'. split; [exact Hcall|].
      split; [exact Hlen|exact Hoob].
Defined.

(** The table made of the two columns finds the second by its name, and
    no feature under another name. *)
Lemma ofFeatures_name_index_witness :
  ∃ td, Treedata.ofFeatures [col_x; col_y] false [] = Ok td ∧
        Treedata.getFeatureIdx 9 td "N:y" = 1 ∧
        Treedata.getFeatureIdx 9 td "N:z" = 9.
Proof.
  eexists. split; [reflexivity|].
  destruct (ofFeatures_name_index [col_x; col_y] [] _ 9 eq_refl)
    as (_ & _ & _ & _ & Hfind & Hmiss).
  split.
  - apply Hfind. split; [reflexivity|].
    intros [|[|j]] Hj; [lia|lia|discriminate].
  - apply Hmiss. intros Hin.
    apply elem_of_cons in Hin as [Hin|Hin]; [discriminate|].
    apply elem_of_cons in Hin as [Hin|Hin]; [discriminate|].
    by apply elem_of_nil in Hin.
Defined.

(** A numerical and a categorical column read from a file. *)
Lemma ofFile_returns_iff_witness :
  ∃ td, Treedata.ofFile [["1"; "2"]; ["a"; "b"]] ["N:x"; "C:c"]
          [Feature.NUM; Feature.CAT] ["s0"; "s1"] false = Ok td ∧
        Treedata.getFeatureIdx 9 td "C:c" = 1 ∧
        Treedata.getFeatureName td 1 = Some "C:c".
Proof.
  destruct (ofFile_returns_iff [["1"; "2"]; ["a"; "b"]] ["N:x"; "C:c"]
              [Feature.NUM; Feature.CAT] ["s0"; "s1"] 9) as [Hiff Hok].
  - cbn. lia.
  - cbn. lia.
  - repeat constructor; discriminate.
  - destruct (proj2 Hiff) as [td Htd].
    { refine (@bool_decide_unpack (NoDup _) _ _). vm_compute. exact I. }
    exists td. split; [exact Htd|].
    destruct (Hok td Htd) as (_ & _ & _ & Hh).
    destruct (Hh 1 "C:c" eq_refl) as (Hidx & Hname & _).
    split; [exact Hidx|exact Hname].
Defined.

(** The contrasts of [two_columns] are found under their names. *)
Lemma createContrasts_keeps_index_witness :
  ∃ td', Treedata.createContrasts two_columns = Ok td' ∧
         Treedata.getFeatureIdx 9 td' "N:y_CONTRAST" = 3 ∧
         Treedata.getFeatureIdx 9 td' "N:x" = 0.
Proof.
  destruct (createContrasts_keeps_index two_columns 9)
    as (td' & Hrun & _ & Hidx).
  - intros [|[|i]] f Hf; try discriminate; injection Hf as <-; reflexivity.
  - refine (@bool_decide_unpack (NoDup _) _ _). vm_compute. exact I.
  - exists td'. split; [exact Hrun|].
    destruct (Hidx 1 col_y eq_refl) as [_ H1].
    destruct (Hidx 0 col_x eq_refl) as [H0 _].
    split; [exact H1|exact H0].
Defined.

(** Two samples of [two_columns] have both values. *)
Lemma nRealSamples2_counts_witness :
  ∃ n ics fd1 fd2,
    Treedata.nRealSamples2 two_columns 0 1 = Ok n ∧
    Treedata.getFilteredFeatureDataPair two_columns 0 1 (range 4) [] []
      = Ok (ics, fd1, fd2) ∧
    n = length ics ∧ n = 2.
Proof.
  destruct (nRealSamples2_counts two_columns 0 1 col_x col_y [] []
              eq_refl eq_refl) as (n & ics & fd1 & fd2 & Hn & Hpair & Hlen & _).
  - cbn. lia.
  - cbn. lia.
  - exists n, ics, fd1, fd2. split; [exact Hn|]. split; [exact Hpair|].
    split; [exact Hlen|].
    assert (Hc : Treedata.nRealSamples2 two_columns 0 1 = Ok 2)
      by reflexivity.
    rewrite Hc in Hn. by injection Hn as <-.
Defined.

(** The first column is copied whole; the data of the textual feature are
    too short for the three samples. *)
Lemma getFeatureDataAll_copies_witness :
  Treedata.getFeatureDataAll two_columns 0 = Ok (Feature.data col_x) ∧
  Treedata.getFeatureDataAll with_text 0 = Undefined.
Proof.
  split.
  - apply (getFeatureDataAll_copies two_columns 0 col_x eq_refl). reflexivity.
  - apply (getFeatureDataAll_copies with_text 0 texts eq_refl). cbn. lia.
Defined.

(** The first column takes the values of the second, and refuses three
    values. *)
Lemma replaceFeatureData_replaces_witness :
  (∃ td', Treedata.replaceFeatureData two_columns 0 (Feature.data col_y)
          = Ok td' ∧
          Treedata.getFeatureDataAll td' 0 = Ok (Feature.data col_y) ∧
          Treedata.getFeatureName td' 0 = Some "N:x") ∧
  Treedata.replaceFeatureData two_columns 0 (Feature.data col_n)
  = Exit "Treedata::replaceFeatureData(num_t) -- data dimension mismatch".
Proof.
  split.
  - destruct (replaceFeatureData_replaces two_columns 0 col_x
                (Feature.data col_y) eq_refl) as [_ Hok].
    destruct Hok as (td' & Hrun & _ & _ & _ & _ & _ & _ & Hname & _ & _ & Hread);
      [reflexivity|].
    exists td'. split; [exact Hrun|]. split; [|exact Hname].
    apply Hread. reflexivity.
  - apply (replaceFeatureData_replaces two_columns 0 col_x
             (Feature.data col_n) eq_refl). cbn. lia.
Defined.

(** The first column becomes a categorical feature with two categories. *)
Lemma replaceFeatureDataStr_replaces_witness :
  ∃ td', Treedata.replaceFeatureDataStr two_columns 0 ["a"; "b"; "a"; "NA"]
         = Ok td' ∧
         Treedata.isFeatureCategorical td' 0 = Ok true ∧
         Treedata.categories td' 0 = Ok ["a"; "b"].
Proof.
  destruct (replaceFeatureDataStr_replaces two_columns 0 col_x
              ["a"; "b"; "a"; "NA"] eq_refl) as [_ Hok].
  destruct Hok as (td' & G & Hrun & _ & _ & _ & _ & _ & _ & _ & _ & _ & _
                   & Hcat & Hcats); [reflexivity|].
  exists td'. split; [exact Hrun|]. split; [exact Hcat|exact Hcats].
Defined.

(** The sample 2 of the first column is missing. *)
Lemma getFilteredFeatureData_idempotent_witness :
  ∃ fd ics,
    Treedata.getFilteredFeatureData two_columns 0 [3; 2; 0; 3] = Ok (fd, ics) ∧
    ics = [3; 0; 3] ∧
    Treedata.getFilteredFeatureData two_columns 0 ics = Ok (fd, ics).
Proof.
  destruct (getFilteredFeatureData_idempotent two_columns 0 col_x [3; 2; 0; 3]
              eq_refl) as (fd & ics & Hrun & Hics & _ & Hagain).
  - repeat constructor.
  - exists fd, ics. split; [exact Hrun|]. split; [exact Hics|exact Hagain].
Defined.

(** The pairwise filter and the two filters in a row on [two_columns]. *)
Lemma getFilteredFeatureDataPair_composes_witness :
  ∃ ics fd1 fd2 ics1 vals1,
    Treedata.getFilteredFeatureDataPair two_columns 0 1 [3; 0; 2; 1; 0] [] []
      = Ok (ics, fd1, fd2) ∧
    Treedata.getFilteredFeatureData two_columns 0 [3; 0; 2; 1; 0]
      = Ok (vals1, ics1) ∧
    Treedata.getFilteredFeatureData two_columns 1 ics1 = Ok (fd2, ics) ∧
    Treedata.getFilteredFeatureData two_columns 0 ics = Ok (fd1, ics) ∧
    Treedata.getFilteredFeatureDataPair two_columns 0 1 ics fd1 fd2
      = Ok (ics, fd1, fd2).
Proof.
  apply (getFilteredFeatureDataPair_composes two_columns 0 1 col_x col_y
           [3; 0; 2; 1; 0] [] [] eq_refl eq_refl).
  repeat constructor.
Defined.

(** Two values of the first column are read; the index 7 is outside. *)
Lemma getFeatureData_reads_witness :
  (∃ vals, Treedata.getFeatureData two_columns 0 [3; 0] = Ok vals ∧
           Some <$> vals = (Feature.data col_x !!.) <$> [3; 0]) ∧
  Treedata.getFeatureData two_columns 0 [0; 7] = Undefined.
Proof.
  split.
  - apply (getFeatureData_reads two_columns 0 col_x [3; 0] eq_refl).
    repeat constructor.
  - apply (getFeatureData_reads two_columns 0 col_x [0; 7] eq_refl).
    intros Hall. inversion Hall as [|? ? _ Hrest].
    inversion Hrest as [|? ? H7 _]. cbn in H7. lia.
Defined.

(** A matrix of two rows and three columns, there and back. *)
Lemma transpose_mirrors_witness :
  ∃ mat', Treedata.transpose 0 two_by_three = Ok mat' ∧
          length mat' = 3 ∧
          Treedata.transpose 0 mat' = Ok two_by_three.
Proof.
  destruct (transpose_mirrors 0 two_by_three 3)
    as (mat' & Hrun & Hlen & _ & _ & Hback & _).
  - discriminate.
  - repeat constructor.
  - exists mat'. split; [exact Hrun|]. split; [exact Hlen|].
    apply Hback. lia.
Defined.

(** Only what is behind the last dot counts. *)
Lemma readFileType_by_suffix_witness :
  Treedata.readFileType "data.v2.afm" = Some Treedata.AFM ∧
  Treedata.readFileType "afm" = Some Treedata.AFM.
Proof.
  destruct (readFileType_by_suffix "data.v2" "afm" eq_refl)
    as (Hwhole & Hlast & _).
  split; [exact Hlast|exact Hwhole].
Defined.

(** An attribute line of an ARFF file. *)
Lemma parseARFFattribute_fields_witness :
  Treedata.parseARFFattribute "@attribute age numeric" = ("age", true) ∧
  Treedata.parseARFFattribute "@attribute age real number" = ("age", false).
Proof.
  split.
  - exact (proj1 (parseARFFattribute_fields "@attribute" "age" "numeric"
                    eq_refl eq_refl eq_refl)).
  - exact (proj1 (parseARFFattribute_fields "@attribute" "age" "real number"
                    eq_refl eq_refl eq_refl)).
Defined.

(** Three samples of [with_category] have a category and a target value,
    fewer than twice five. *)
Lemma categoricalFeatureSplit_no_split_witness :
  Treedata.categoricalFeatureSplit with_category 1 0 5 [9] [0; 1; 2; 3] [] []
  = Ok (num 0, [], [0; 1; 2], [], []).
Proof.
  destruct (categoricalFeatureSplit_no_split with_category 1 0 col_u col_c 5
              [9] [0; 1; 2; 3] [] [] kept_u kept_c eq_refl eq_refl)
    as [Hfew _].
  - repeat constructor.
  - repeat constructor.
  - repeat constructor.
  - apply Hfew. reflexivity.
Defined.

(** With [minSamples = 1] the first category, of the samples 0 and 2, goes
    left, and the other, of the sample 1, right. *)
Lemma categoricalFeatureSplit_assigns_witness :
  ∃ left right,
    Treedata.categoricalFeatureSplit with_category 1 0 1 [9] [0; 1; 2; 3]
      [] [] = Ok (num 1, left, right, [num 0], [num 1]) ∧
    left ++ right ≡ₚ [0; 1; 2].
Proof.
  destruct (categoricalFeatureSplit_assigns example_num_laws with_category
              1 0 col_u col_c 1 [9] [0; 1; 2; 3] [] [] kept_u kept_c
              eq_refl eq_refl)
    as (left & right & Hrun & _ & _ & Hperm).
  - repeat constructor.
  - repeat constructor.
  - repeat constructor.
  - intros Hlt. vm_compute in Hlt. discriminate.
  - reflexivity.
  - vm_compute. repeat split; repeat constructor.
  - vm_compute. repeat split; repeat constructor.
  - exists left, right. split; [exact Hrun|]. apply Hperm.
    apply perm_skip, perm_swap.
Defined.

(** The three samples of [two_columns] with a value in the first column,
    by ascending value. *)
Lemma getFilteredAndSortedFeatureDataPair3_sorts_witness :
  ∃ sorted tv fv fd ics,
    Treedata.getFilteredAndSortedFeatureDataPair3 two_columns 1 0
      [0; 1; 2; 3] = Ok (sorted, tv, fv) ∧
    Treedata.getFilteredFeatureData two_columns 0 [0; 1; 2; 3]
      = Ok (fd, ics) ∧
    sorted ≡ₚ ics ∧ fv ≡ₚ fd ∧ StronglySorted num_le fv.
Proof.
  destruct (getFilteredAndSortedFeatureDataPair3_sorts example_num_laws
              two_columns 1 0 col_y col_x [0; 1; 2; 3] eq_refl eq_refl)
    as (sorted & tv & fv & fd & ics & H3 & H1 & Hs & Hv & _ & Hsorted & _).
  - repeat constructor.
  - exists sorted, tv, fv, fd, ics.
    split; [exact H3|]. split; [exact H1|]. split; [exact Hs|].
    split; [exact Hv|exact Hsorted].
Defined.

(** The first column of [two_columns] as strings; the second value of
    [col_lost] has no category. *)
Lemma getRawFeatureData_shows_witness :
  (∃ rawData, Treedata.getRawFeatureData two_columns 0 = Ok rawData ∧
              Forall2 (shows col_x) (Feature.data col_x) rawData) ∧
  Treedata.getRawFeatureData with_lost 0
  = Exit "Treedata::getRawFeatureData() -- unknown value to get".
Proof.
  split.
  - destruct (getRawFeatureData_shows two_columns 0 col_x eq_refl)
      as (Hok & _ & Hnum); [cbn; lia|].
    exact (Hok (Hnum eq_refl)).
  - destruct (getRawFeatureData_shows with_lost 0 col_lost eq_refl)
      as (_ & Hbad & _); [cbn; lia|].
    apply Hbad. intros Hall. inversion Hall as [|? ? _ Hrest].
    inversion Hrest as [|? ? Hone _].
    destruct Hone as [Hone|[Hone|[str Hone]]]; vm_compute in Hone;
      discriminate.
Defined.

End Runs.
